(** * NYC rent heat-map generators: a shallow embedding

    This development embeds the two generator scripts
    [generators/generate_baseline_v2.py] and
    [generators/generate_s8_nhood_aniso.py] and checks the properties the
    specification states about them.

    Numbers.  Rents are Python [int]s and are modelled by [Z].  Latitudes,
    longitudes, grid sizes, medians and means are Python [float]s; they are
    modelled by exact rationals [Q], and the kernel weights of the smoothing
    pass (which go through [math.sqrt] and [math.exp]) by real numbers [R].
    Every arithmetic operation is therefore exact: the development does not
    speak about IEEE-754 rounding error.  Where a float decides a test next
    to a boundary (a distance against a radius, a quotient against the
    middle between two integers) the exact test can decide otherwise; the
    statements that read the outcome of such a test are made for any
    outcome, in the parts named "whatever the distance tests decide" and
    "whatever the quotient rounds to".

    Containers.  A [defaultdict(list)] is modelled by an association list in
    insertion order (Python dicts iterate in insertion order), a list of
    dicts that is mutated by index by a list updated by index. *)

From Stdlib Require Import String Ascii.
From Stdlib Require Import ZArith QArith Qround Bool Reals Qreals.
From Stdlib Require Import Lia Lqa Lra.
From Stdlib Require Import List Permutation Sorted.
Import ListNotations.

Local Open Scope Z_scope.

(** ** Python numerics *)

(** [round(x)] on a float: round half to even, result an [int]. *)
Definition py_round (x : Q) : Z :=
  let f := Qfloor x in
  let d := (x - inject_Z f)%Q in
  match (d ?= 1 # 2)%Q with
  | Lt => f
  | Gt => f + 1
  | Eq => if Z.even f then f else f + 1
  end.

(** [round(x, n)]: round half to even at [n] decimals, result a float. *)
Definition py_round_nd (x : Q) (n : nat) : Q :=
  let s := inject_Z (10 ^ Z.of_nat n) in
  (inject_Z (py_round (x * s)) / s)%Q.

(** [sorted(xs)] on a list of ints (insertion sort). *)
Fixpoint insert_sorted (x : Z) (l : list Z) : list Z :=
  match l with
  | [] => [x]
  | y :: l' => if x <=? y then x :: l else y :: insert_sorted x l'
  end.

Definition sorted (l : list Z) : list Z := fold_right insert_sorted [] l.

(** [sum(xs)] on a list of ints. *)
Definition sum (l : list Z) : Z := fold_right Z.add 0 l.

(** [sum(xs)] on a list of floats. *)
Definition sumQ (l : list Q) : Q := fold_right Qplus 0%Q l.

(** [xs[len(xs) // 2]] on a sorted copy: the element the scripts take as
    "median" of a cell, of a borough and of a clamping neighbourhood.  On a
    list of even length it is the upper of the two middle elements. *)
Definition upper_median (l : list Z) : Z :=
  nth (Nat.div (length l) 2) (sorted l) 0.

(** [statistics.median(xs)]: the middle element, or the mean of the two
    middle elements when the length is even ([StatisticsError] on an empty
    list, modelled by [None]). *)
Definition median (l : list Z) : option Q :=
  let s := sorted l in
  let n := length s in
  match n with
  | O => None
  | _ =>
      let i := Nat.div n 2 in
      if Nat.odd n then Some (inject_Z (nth i s 0))
      else Some ((inject_Z (nth (i - 1) s 0%Z) + inject_Z (nth i s 0%Z)) / 2)%Q
  end.

(** [s.upper()] on an ASCII string: the 26 lower-case letters change, no
    other character does.  What [str.upper] does to other characters is not
    modelled. *)
Definition upper_char (c : ascii) : ascii :=
  let n := nat_of_ascii c in
  if (97 <=? n)%nat && (n <=? 122)%nat then ascii_of_nat (n - 32) else c.

Fixpoint upper (s : string) : string :=
  match s with
  | EmptyString => EmptyString
  | String c s' => String (upper_char c) (upper s')
  end.

(** A string of ASCII characters only. *)
Fixpoint ascii_only (s : string) : bool :=
  match s with
  | EmptyString => true
  | String c s' => (nat_of_ascii c <? 128)%nat && ascii_only s'
  end.

(** ** Raw records *)

(** A raw record is a JSON object; a field is [None] when the key is
    absent, which is what [l.get(key)] returns then.  A [null] value reads
    like an absent key for [beds], [type], [lat] and [lng] and is modelled
    by [None] as well.  A [null] neighbourhood label is read without an error
    and is not the same as an absent one, so [l_neighborhood] tells the
    three cases apart: [None] for an absent key, [Some None] for [null],
    [Some (Some n)] for the string [n].  On a [null] rent or rented date the
    comparisons of the scripts raise [TypeError]; a file with such a record
    is not an input of this model. *)
Record Listing := mkListing {
  l_beds : option Z;
  l_rent : option Z;
  l_type : option string;
  l_lat : option Q;
  l_lng : option Q;
  l_neighborhood : option (option string);
  l_rented_date : option string
}.

(** [l.get("rent", 0)] *)
Definition get_rent (l : Listing) : Z :=
  match l_rent l with Some r => r | None => 0 end.

(** [not x] on an optional float: [None] and [0.0] are falsy. *)
Definition falsy (x : option Q) : bool :=
  match x with
  | None => true
  | Some q => Qeq_bool q 0
  end.

(** [(l.get("type") or "").upper()] *)
Definition get_ptype (l : Listing) : string :=
  upper (match l_type l with Some t => t | None => EmptyString end).

(** ** Step 1: filter to 1BR only *)

Definition is_one_br (l : Listing) : bool :=
  match l_beds l with Some b => b =? 1 | None => false end.

Definition one_br (all_raw : list Listing) : list Listing :=
  filter is_one_br all_raw.

(** ** Step 2: remove bad data *)

Definition BAD_TYPES : list string :=
  ["THREEFAMILY"; "TWOFAMILY"; "MIXED_USE"; "TOWNHOUSE"; "LAND";
   "FOURFAMILY"; "MULTIFAMILY"; "COMMERCIAL"]%string.

Definition in_set (s : string) (set : list string) : bool :=
  existsb (String.eqb s) set.

(** The loop state: the three counters and the list being built. *)
Record CleanState := mkCleanState {
  removed_high_rent : nat;
  removed_bad_type : nat;
  removed_no_coords : nat;
  cleaned_acc : list Listing
}.

Definition clean_init : CleanState := mkCleanState 0 0 0 [].

(** One iteration of [for l in one_br: ...], with its four [continue]s. *)
Definition clean_step (st : CleanState) (l : Listing) : CleanState :=
  let rent := get_rent l in
  let ptype := get_ptype l in
  if falsy (l_lat l) || falsy (l_lng l) then
    mkCleanState (removed_high_rent st) (removed_bad_type st)
                 (S (removed_no_coords st)) (cleaned_acc st)
  else if rent >? 25000 then
    mkCleanState (S (removed_high_rent st)) (removed_bad_type st)
                 (removed_no_coords st) (cleaned_acc st)
  else if in_set ptype BAD_TYPES then
    mkCleanState (removed_high_rent st) (S (removed_bad_type st))
                 (removed_no_coords st) (cleaned_acc st)
  else if rent <? 500 then st
  else
    mkCleanState (removed_high_rent st) (removed_bad_type st)
                 (removed_no_coords st) (cleaned_acc st ++ [l]).

(** The records one iteration keeps. *)
Definition clean_keeps (l : Listing) : bool :=
  negb (falsy (l_lat l) || falsy (l_lng l))
  && negb (get_rent l >? 25000)
  && negb (in_set (get_ptype l) BAD_TYPES)
  && negb (get_rent l <? 500).

Definition clean_loop (ls : list Listing) : CleanState :=
  fold_left clean_step ls clean_init.

Definition cleaned (all_raw : list Listing) : list Listing :=
  cleaned_acc (clean_loop (one_br all_raw)).

(** ** The filter in the words of the specification

    The definitions of this part follow the text of the specification and
    read the fields of the record directly; they use none of the functions
    that embed the script. *)

(** The letters, each in lower and in upper case. *)
Definition LETTERS : list (ascii * ascii) :=
  [("a", "A"); ("b", "B"); ("c", "C"); ("d", "D"); ("e", "E"); ("f", "F");
   ("g", "G"); ("h", "H"); ("i", "I"); ("j", "J"); ("k", "K"); ("l", "L");
   ("m", "M"); ("n", "N"); ("o", "O"); ("p", "P"); ("q", "Q"); ("r", "R");
   ("s", "S"); ("t", "T"); ("u", "U"); ("v", "V"); ("w", "W"); ("x", "X");
   ("y", "Y"); ("z", "Z")]%char.

(** Two characters are equal up to case: the same character, or the two
    cases of one letter. *)
Definition same_letter (a b : ascii) : bool :=
  Ascii.eqb a b
  || existsb (fun p => (Ascii.eqb a (fst p) && Ascii.eqb b (snd p))
                       || (Ascii.eqb a (snd p) && Ascii.eqb b (fst p)))
             LETTERS.

Fixpoint equal_up_to_case (s t : string) : bool :=
  match s, t with
  | EmptyString, EmptyString => true
  | String a s', String b t' => same_letter a b && equal_up_to_case s' t'
  | _, _ => false
  end.

(** A record violates one of the stated predicates: its latitude or its
    longitude is missing or zero (coordinate presence), its rent, 0 when
    absent, is above 25000 or below 500 (rent bounds), its property type is
    a member of the exclusion set up to case (type exclusion), or its
    bedroom count is not the cohort selector 1. *)
Definition violates (l : Listing) : Prop :=
  (forall lat, l_lat l = Some lat -> (lat == 0)%Q)
  \/ (forall lng, l_lng l = Some lng -> (lng == 0)%Q)
  \/ (forall rent, l_rent l = Some rent -> rent > 25000 \/ rent < 500)
  \/ (exists t b, l_type l = Some t /\ In b BAD_TYPES
                  /\ equal_up_to_case t b = true)
  \/ l_beds l <> Some 1.

(** The property type of a record, when it has one, is an ASCII string. *)
Definition ascii_type (l : Listing) : Prop :=
  forall t, l_type l = Some t -> ascii_only t = true.

(** The same as a test. *)
Definition spec_excluded (l : Listing) : bool :=
  match l_lat l with Some lat => Qeq_bool lat 0 | None => true end
  || match l_lng l with Some lng => Qeq_bool lng 0 | None => true end
  || match l_rent l with
     | Some rent => (25000 <? rent) || (rent <? 500)
     | None => true
     end
  || match l_type l with
     | Some t => existsb (equal_up_to_case t) BAD_TYPES
     | None => false
     end
  || match l_beds l with Some 1 => false | _ => true end.

Definition spec_filter (raw : list Listing) : list Listing :=
  filter (fun l => negb (spec_excluded l)) raw.

(** ** Comparisons on floats and dictionary lookup *)

Definition Qleb (x y : Q) : bool := Qle_bool x y.
Definition Qltb (x y : Q) : bool := negb (Qle_bool y x).

(** [d.get(k)] on a dict with string keys. *)
Fixpoint str_get {V : Type} (k : string) (d : list (string * V)) : option V :=
  match d with
  | [] => None
  | (k', v) :: d' => if String.eqb k k' then Some v else str_get k d'
  end.

(** No two entries of a dictionary have equal keys. *)
Fixpoint keys_distinct {K V : Type} (eqb : K -> K -> bool)
    (d : list (K * V)) : Prop :=
  match d with
  | [] => True
  | (k, _) :: d' =>
      (forall e, In e d' -> eqb k (fst e) = false) /\ keys_distinct eqb d'
  end.

(** [d[k].append(v)] on a [defaultdict(list)]: the value joins the list of
    its key, a new key is added after the existing ones. *)
Fixpoint dict_append {K V : Type} (eqb : K -> K -> bool) (k : K) (v : V)
    (d : list (K * list V)) : list (K * list V) :=
  match d with
  | [] => [(k, [v])]
  | (k', vs) :: d' =>
      if eqb k k' then (k', vs ++ [v]) :: d'
      else (k', vs) :: dict_append eqb k v d'
  end.

(** [l["lat"]], [l["lng"]], [l["rent"]] on a cleaned record.  The three keys
    are present on every record the cleaning loop keeps (lemma
    [cleaned_fields] below), so the default is never read. *)
Definition lat_of (l : Listing) : Q :=
  match l_lat l with Some q => q | None => 0%Q end.
Definition lng_of (l : Listing) : Q :=
  match l_lng l with Some q => q | None => 0%Q end.
Definition rent_of (l : Listing) : Z := get_rent l.

(** ** Step 3: borough / region assignment *)

Definition BOROUGH_MAP : list (string * string) :=
  [("Battery Park City", "Manhattan"); ("Beekman", "Manhattan");
   ("Carnegie Hill", "Manhattan"); ("Central Harlem", "Manhattan");
   ("Central Park South", "Manhattan"); ("Chelsea", "Manhattan");
   ("Chinatown", "Manhattan"); ("Civic Center", "Manhattan");
   ("East Harlem", "Manhattan"); ("East Village", "Manhattan");
   ("Financial District", "Manhattan"); ("Flatiron", "Manhattan");
   ("Fort George", "Manhattan"); ("Fulton/Seaport", "Manhattan");
   ("Gramercy Park", "Manhattan"); ("Greenwich Village", "Manhattan");
   ("Hamilton Heights", "Manhattan"); ("Hell's Kitchen", "Manhattan");
   ("Hudson Heights", "Manhattan"); ("Hudson Square", "Manhattan");
   ("Hudson Yards", "Manhattan"); ("Inwood", "Manhattan");
   ("Kips Bay", "Manhattan"); ("Lenox Hill", "Manhattan");
   ("Lincoln Square", "Manhattan"); ("Little Italy", "Manhattan");
   ("Lower East Side", "Manhattan"); ("Madison", "Manhattan");
   ("Manhattan Beach", "Brooklyn"); ("Manhattan Valley", "Manhattan");
   ("Manhattanville", "Manhattan"); ("Marble Hill", "Manhattan");
   ("Midtown", "Manhattan"); ("Midtown South", "Manhattan");
   ("Morningside Heights", "Manhattan"); ("Murray Hill", "Manhattan");
   ("NoMad", "Manhattan"); ("Noho", "Manhattan"); ("Nolita", "Manhattan");
   ("Roosevelt Island", "Manhattan"); ("Soho", "Manhattan");
   ("South Harlem", "Manhattan"); ("Stuyvesant Town/PCV", "Manhattan");
   ("Sutton Place", "Manhattan"); ("Tribeca", "Manhattan");
   ("Turtle Bay", "Manhattan"); ("Two Bridges", "Manhattan");
   ("Upper Carnegie Hill", "Manhattan"); ("Upper East Side", "Manhattan");
   ("Upper West Side", "Manhattan"); ("Washington Heights", "Manhattan");
   ("West Chelsea", "Manhattan"); ("West Harlem", "Manhattan");
   ("West Village", "Manhattan"); ("Yorkville", "Manhattan");
   ("Bath Beach", "Brooklyn"); ("Bay Ridge", "Brooklyn");
   ("Bedford-Stuyvesant", "Brooklyn"); ("Bensonhurst", "Brooklyn");
   ("Bergen Beach", "Brooklyn"); ("Boerum Hill", "Brooklyn");
   ("Borough Park", "Brooklyn"); ("Brooklyn Heights", "Brooklyn");
   ("Brownsville", "Brooklyn"); ("Bushwick", "Brooklyn");
   ("Canarsie", "Brooklyn"); ("Carroll Gardens", "Brooklyn");
   ("City Line", "Brooklyn"); ("Clinton Hill", "Brooklyn");
   ("Cobble Hill", "Brooklyn");
   ("Columbia St Waterfront District", "Brooklyn");
   ("Coney Island", "Brooklyn"); ("Crown Heights", "Brooklyn");
   ("Cypress Hills", "Brooklyn"); ("DUMBO", "Brooklyn");
   ("Ditmars-Steinway", "Queens"); ("Ditmas Park", "Brooklyn");
   ("Downtown Brooklyn", "Brooklyn"); ("Dyker Heights", "Brooklyn");
   ("East Flatbush", "Brooklyn"); ("East New York", "Brooklyn");
   ("East Williamsburg", "Brooklyn"); ("Farragut", "Brooklyn");
   ("Fiske Terrace", "Brooklyn"); ("Flatbush", "Brooklyn");
   ("Flatlands", "Brooklyn"); ("Fort Greene", "Brooklyn");
   ("Fort Hamilton", "Brooklyn"); ("Gowanus", "Brooklyn");
   ("Gravesend", "Brooklyn"); ("Greenpoint", "Brooklyn");
   ("Greenwood", "Brooklyn"); ("Homecrest", "Brooklyn");
   ("Kensington", "Brooklyn"); ("Mapleton", "Brooklyn");
   ("Marine Park", "Brooklyn"); ("Midwood", "Brooklyn");
   ("Mill Basin", "Brooklyn"); ("New Lots", "Brooklyn");
   ("Ocean Hill", "Brooklyn"); ("Park Slope", "Brooklyn");
   ("Prospect Heights", "Brooklyn");
   ("Prospect Lefferts Gardens", "Brooklyn");
   ("Prospect Park South", "Brooklyn"); ("Red Hook", "Brooklyn");
   ("Sheepshead Bay", "Brooklyn"); ("Starrett City", "Brooklyn");
   ("Stuyvesant Heights", "Brooklyn"); ("Sunset Park", "Brooklyn");
   ("Vinegar Hill", "Brooklyn"); ("Weeksville", "Brooklyn");
   ("Williamsburg", "Brooklyn"); ("Windsor Terrace", "Brooklyn");
   ("Wingate", "Brooklyn"); ("Arverne", "Queens"); ("Astoria", "Queens");
   ("Auburndale", "Queens"); ("Bay Terrace", "Queens"); ("Bayside", "Queens");
   ("Bayswater", "Queens"); ("Beechhurst", "Queens"); ("Briarwood", "Queens");
   ("Brookville", "Queens"); ("College Point", "Queens");
   ("Corona", "Queens"); ("Douglaston", "Queens");
   ("East Elmhurst", "Queens"); ("East Flushing", "Queens");
   ("Elmhurst", "Queens"); ("Far Rockaway", "Queens"); ("Flushing", "Queens");
   ("Forest Hills", "Queens"); ("Fresh Meadows", "Queens");
   ("Glen Oaks", "Queens"); ("Glendale", "Queens"); ("Hillcrest", "Queens");
   ("Hollis", "Queens"); ("Hunters Point", "Queens");
   ("Jackson Heights", "Queens"); ("Jamaica", "Queens");
   ("Jamaica Estates", "Queens"); ("Jamaica Hills", "Queens");
   ("Kew Gardens", "Queens"); ("Kew Gardens Hills", "Queens");
   ("Laurelton", "Queens"); ("Lindenwood", "Queens");
   ("Little Neck", "Queens"); ("Long Island City", "Queens");
   ("Malba", "Queens"); ("Maspeth", "Queens"); ("Middle Village", "Queens");
   ("North Corona", "Queens"); ("North New York", "Queens");
   ("Oakland Gardens", "Queens"); ("Old Howard Beach", "Queens");
   ("Ozone Park", "Queens"); ("Pomonok", "Queens"); ("Queens", "Queens");
   ("Queens Village", "Queens"); ("Rego Park", "Queens");
   ("Richmond Hill", "Queens"); ("Ridgewood", "Queens");
   ("Rockaway Park", "Queens"); ("Rockwood Park", "Queens");
   ("Rosedale", "Queens"); ("South Jamaica", "Queens");
   ("South Ozone Park", "Queens"); ("Springfield Gardens", "Queens");
   ("St. Albans", "Queens"); ("Sunnyside", "Queens");
   ("The Rockaways", "Queens"); ("Whitestone", "Queens");
   ("Woodhaven", "Queens"); ("Woodside", "Queens"); ("Bedford Park", "Bronx");
   ("Belmont", "Bronx"); ("Bronxwood", "Bronx"); ("City Island", "Bronx");
   ("Claremont", "Bronx"); ("Concourse", "Bronx"); ("Country Club", "Bronx");
   ("Crotona Park East", "Bronx"); ("East Tremont", "Bronx");
   ("Fieldston", "Bronx"); ("Fordham", "Bronx"); ("Highbridge", "Bronx");
   ("Hunts Point", "Bronx"); ("Kingsbridge", "Bronx");
   ("Kingsbridge Heights", "Bronx"); ("Laconia", "Bronx");
   ("Locust Point", "Bronx"); ("Longwood", "Bronx"); ("Melrose", "Bronx");
   ("Morris Heights", "Bronx"); ("Morris Park", "Bronx");
   ("Morrisania", "Bronx"); ("Mott Haven", "Bronx"); ("Mt. Hope", "Bronx");
   ("Norwood", "Bronx"); ("Parkchester", "Bronx"); ("Pelham Bay", "Bronx");
   ("Pelham Gardens", "Bronx"); ("Pelham Parkway", "Bronx");
   ("Riverdale", "Bronx"); ("Schuylerville", "Bronx"); ("Soundview", "Bronx");
   ("Spuyten Duyvil", "Bronx"); ("Throgs Neck", "Bronx");
   ("Tremont", "Bronx"); ("University Heights", "Bronx");
   ("Van Nest", "Bronx"); ("Wakefield", "Bronx"); ("West Farms", "Bronx");
   ("Westchester Square", "Bronx"); ("Williamsbridge", "Bronx");
   ("Woodstock", "Bronx"); ("Annadale", "Staten Island");
   ("Arden Heights", "Staten Island"); ("Arrochar", "Staten Island");
   ("Bulls Head", "Staten Island"); ("Castleton Corners", "Staten Island");
   ("Clifton", "Staten Island"); ("Dongan Hills", "Staten Island");
   ("Elm Park", "Staten Island"); ("Eltingville", "Staten Island");
   ("Emerson Hill", "Staten Island"); ("Grant City", "Staten Island");
   ("Graniteville", "Staten Island"); ("Grasmere", "Staten Island");
   ("Great Kills", "Staten Island"); ("Grymes Hill", "Staten Island");
   ("Huguenot", "Staten Island"); ("Mariners Harbor", "Staten Island");
   ("Meiers Corners", "Staten Island"); ("Midland Beach", "Staten Island");
   ("New Brighton", "Staten Island"); ("New Dorp", "Staten Island");
   ("New Dorp Beach", "Staten Island"); ("New Springville", "Staten Island");
   ("Oakwood", "Staten Island"); ("Park Hill", "Staten Island");
   ("Port Richmond", "Staten Island"); ("Princes Bay", "Staten Island");
   ("Ramblersville", "Queens"); ("Richmondtown", "Staten Island");
   ("Rosebank", "Staten Island"); ("Rossville", "Staten Island");
   ("Saint George", "Staten Island"); ("Shore Acres", "Staten Island");
   ("Silver Lake", "Staten Island"); ("South Beach", "Staten Island");
   ("Stapleton", "Staten Island"); ("Tompkinsville", "Staten Island");
   ("Tottenville", "Staten Island"); ("West Brighton", "Staten Island");
   ("Westerleigh", "Staten Island"); ("Willowbrook", "Staten Island");
   ("Woodrow", "Staten Island")]%string.

Definition REGION_MAP : list (string * string) :=
  [("Mott Haven", "South Bronx"); ("Melrose", "South Bronx");
   ("Hunts Point", "South Bronx"); ("Longwood", "South Bronx");
   ("Morrisania", "South Bronx"); ("Concourse", "South Bronx");
   ("Highbridge", "South Bronx"); ("Crotona Park East", "South Bronx");
   ("Woodstock", "South Bronx"); ("Bedford Park", "Bronx");
   ("Belmont", "Bronx"); ("Bronxwood", "Bronx"); ("City Island", "Bronx");
   ("Claremont", "Bronx"); ("Country Club", "Bronx");
   ("East Tremont", "Bronx"); ("Fieldston", "Bronx"); ("Fordham", "Bronx");
   ("Kingsbridge", "Bronx"); ("Kingsbridge Heights", "Bronx");
   ("Laconia", "Bronx"); ("Locust Point", "Bronx");
   ("Morris Heights", "Bronx"); ("Morris Park", "Bronx");
   ("Mt. Hope", "Bronx"); ("Norwood", "Bronx"); ("Parkchester", "Bronx");
   ("Pelham Bay", "Bronx"); ("Pelham Gardens", "Bronx");
   ("Pelham Parkway", "Bronx"); ("Riverdale", "Bronx");
   ("Schuylerville", "Bronx"); ("Soundview", "Bronx");
   ("Spuyten Duyvil", "Bronx"); ("Throgs Neck", "Bronx");
   ("Tremont", "Bronx"); ("University Heights", "Bronx");
   ("Van Nest", "Bronx"); ("Wakefield", "Bronx"); ("West Farms", "Bronx");
   ("Westchester Square", "Bronx"); ("Williamsbridge", "Bronx");
   ("Battery Park City", "Lower Manhattan"); ("Beekman", "Lower Manhattan");
   ("Carnegie Hill", "Lower Manhattan");
   ("Central Park South", "Lower Manhattan"); ("Chelsea", "Lower Manhattan");
   ("Chinatown", "Lower Manhattan"); ("Civic Center", "Lower Manhattan");
   ("East Village", "Lower Manhattan");
   ("Financial District", "Lower Manhattan"); ("Flatiron", "Lower Manhattan");
   ("Fulton/Seaport", "Lower Manhattan");
   ("Gramercy Park", "Lower Manhattan");
   ("Greenwich Village", "Lower Manhattan");
   ("Hell's Kitchen", "Lower Manhattan");
   ("Hudson Square", "Lower Manhattan"); ("Hudson Yards", "Lower Manhattan");
   ("Kips Bay", "Lower Manhattan"); ("Lenox Hill", "Lower Manhattan");
   ("Lincoln Square", "Lower Manhattan"); ("Little Italy", "Lower Manhattan");
   ("Lower East Side", "Lower Manhattan"); ("Madison", "Lower Manhattan");
   ("Manhattan Valley", "Lower Manhattan"); ("Midtown", "Lower Manhattan");
   ("Midtown South", "Lower Manhattan"); ("Murray Hill", "Lower Manhattan");
   ("NoMad", "Lower Manhattan"); ("Noho", "Lower Manhattan");
   ("Nolita", "Lower Manhattan"); ("Roosevelt Island", "Lower Manhattan");
   ("Soho", "Lower Manhattan"); ("Stuyvesant Town/PCV", "Lower Manhattan");
   ("Sutton Place", "Lower Manhattan"); ("Tribeca", "Lower Manhattan");
   ("Turtle Bay", "Lower Manhattan"); ("Two Bridges", "Lower Manhattan");
   ("Upper Carnegie Hill", "Lower Manhattan");
   ("Upper East Side", "Lower Manhattan");
   ("Upper West Side", "Lower Manhattan");
   ("West Chelsea", "Lower Manhattan"); ("West Village", "Lower Manhattan");
   ("Yorkville", "Lower Manhattan"); ("Central Harlem", "Upper Manhattan");
   ("East Harlem", "Upper Manhattan"); ("Fort George", "Upper Manhattan");
   ("Hamilton Heights", "Upper Manhattan");
   ("Hudson Heights", "Upper Manhattan"); ("Inwood", "Upper Manhattan");
   ("Manhattanville", "Upper Manhattan"); ("Marble Hill", "Upper Manhattan");
   ("Morningside Heights", "Upper Manhattan");
   ("South Harlem", "Upper Manhattan");
   ("Washington Heights", "Upper Manhattan");
   ("West Harlem", "Upper Manhattan");
   ("Bedford-Stuyvesant", "North Brooklyn");
   ("Boerum Hill", "North Brooklyn"); ("Brooklyn Heights", "North Brooklyn");
   ("Bushwick", "North Brooklyn"); ("Carroll Gardens", "North Brooklyn");
   ("Clinton Hill", "North Brooklyn"); ("Cobble Hill", "North Brooklyn");
   ("Columbia St Waterfront District", "North Brooklyn");
   ("Crown Heights", "North Brooklyn"); ("DUMBO", "North Brooklyn");
   ("Downtown Brooklyn", "North Brooklyn");
   ("East Williamsburg", "North Brooklyn"); ("Fort Greene", "North Brooklyn");
   ("Gowanus", "North Brooklyn"); ("Greenpoint", "North Brooklyn");
   ("Ocean Hill", "North Brooklyn"); ("Park Slope", "North Brooklyn");
   ("Prospect Heights", "North Brooklyn"); ("Red Hook", "North Brooklyn");
   ("Stuyvesant Heights", "North Brooklyn");
   ("Vinegar Hill", "North Brooklyn"); ("Weeksville", "North Brooklyn");
   ("Williamsburg", "North Brooklyn"); ("Windsor Terrace", "North Brooklyn");
   ("Bath Beach", "South Brooklyn"); ("Bay Ridge", "South Brooklyn");
   ("Bensonhurst", "South Brooklyn"); ("Bergen Beach", "South Brooklyn");
   ("Borough Park", "South Brooklyn"); ("Brownsville", "South Brooklyn");
   ("Canarsie", "South Brooklyn"); ("City Line", "South Brooklyn");
   ("Coney Island", "South Brooklyn"); ("Cypress Hills", "South Brooklyn");
   ("Ditmas Park", "South Brooklyn"); ("Dyker Heights", "South Brooklyn");
   ("East Flatbush", "South Brooklyn"); ("East New York", "South Brooklyn");
   ("Farragut", "South Brooklyn"); ("Fiske Terrace", "South Brooklyn");
   ("Flatbush", "South Brooklyn"); ("Flatlands", "South Brooklyn");
   ("Fort Hamilton", "South Brooklyn"); ("Gravesend", "South Brooklyn");
   ("Greenwood", "South Brooklyn"); ("Homecrest", "South Brooklyn");
   ("Kensington", "South Brooklyn"); ("Manhattan Beach", "South Brooklyn");
   ("Mapleton", "South Brooklyn"); ("Marine Park", "South Brooklyn");
   ("Midwood", "South Brooklyn"); ("Mill Basin", "South Brooklyn");
   ("New Lots", "South Brooklyn");
   ("Prospect Lefferts Gardens", "South Brooklyn");
   ("Prospect Park South", "South Brooklyn");
   ("Sheepshead Bay", "South Brooklyn"); ("Starrett City", "South Brooklyn");
   ("Sunset Park", "South Brooklyn"); ("Wingate", "South Brooklyn");
   ("Annadale", "Staten Island"); ("Arden Heights", "Staten Island");
   ("Arrochar", "Staten Island"); ("Bulls Head", "Staten Island");
   ("Castleton Corners", "Staten Island"); ("Clifton", "Staten Island");
   ("Dongan Hills", "Staten Island"); ("Elm Park", "Staten Island");
   ("Eltingville", "Staten Island"); ("Emerson Hill", "Staten Island");
   ("Grant City", "Staten Island"); ("Graniteville", "Staten Island");
   ("Grasmere", "Staten Island"); ("Great Kills", "Staten Island");
   ("Grymes Hill", "Staten Island"); ("Huguenot", "Staten Island");
   ("Mariners Harbor", "Staten Island"); ("Meiers Corners", "Staten Island");
   ("Midland Beach", "Staten Island"); ("New Brighton", "Staten Island");
   ("New Dorp", "Staten Island"); ("New Dorp Beach", "Staten Island");
   ("New Springville", "Staten Island"); ("Oakwood", "Staten Island");
   ("Park Hill", "Staten Island"); ("Port Richmond", "Staten Island");
   ("Princes Bay", "Staten Island"); ("Richmondtown", "Staten Island");
   ("Rosebank", "Staten Island"); ("Rossville", "Staten Island");
   ("Saint George", "Staten Island"); ("Shore Acres", "Staten Island");
   ("Silver Lake", "Staten Island"); ("South Beach", "Staten Island");
   ("Stapleton", "Staten Island"); ("Tompkinsville", "Staten Island");
   ("Tottenville", "Staten Island"); ("West Brighton", "Staten Island");
   ("Westerleigh", "Staten Island"); ("Willowbrook", "Staten Island");
   ("Woodrow", "Staten Island"); ("Astoria", "W. Queens");
   ("Ditmars-Steinway", "W. Queens"); ("Hunters Point", "W. Queens");
   ("Long Island City", "W. Queens"); ("Sunnyside", "W. Queens");
   ("Woodside", "W. Queens"); ("Arverne", "Queens"); ("Auburndale", "Queens");
   ("Bay Terrace", "Queens"); ("Bayside", "Queens"); ("Bayswater", "Queens");
   ("Beechhurst", "Queens"); ("Briarwood", "Queens");
   ("Brookville", "Queens"); ("College Point", "Queens");
   ("Corona", "Queens"); ("Douglaston", "Queens");
   ("East Elmhurst", "Queens"); ("East Flushing", "Queens");
   ("Elmhurst", "Queens"); ("Far Rockaway", "Queens"); ("Flushing", "Queens");
   ("Forest Hills", "Queens"); ("Fresh Meadows", "Queens");
   ("Glen Oaks", "Queens"); ("Glendale", "Queens"); ("Hillcrest", "Queens");
   ("Hollis", "Queens"); ("Jackson Heights", "Queens"); ("Jamaica", "Queens");
   ("Jamaica Estates", "Queens"); ("Jamaica Hills", "Queens");
   ("Kew Gardens", "Queens"); ("Kew Gardens Hills", "Queens");
   ("Laurelton", "Queens"); ("Lindenwood", "Queens");
   ("Little Neck", "Queens"); ("Malba", "Queens"); ("Maspeth", "Queens");
   ("Middle Village", "Queens"); ("North Corona", "Queens");
   ("North New York", "Queens"); ("Oakland Gardens", "Queens");
   ("Old Howard Beach", "Queens"); ("Ozone Park", "Queens");
   ("Pomonok", "Queens"); ("Queens", "Queens"); ("Queens Village", "Queens");
   ("Ramblersville", "Queens"); ("Rego Park", "Queens");
   ("Richmond Hill", "Queens"); ("Ridgewood", "Queens");
   ("Rockaway Park", "Queens"); ("Rockwood Park", "Queens");
   ("Rosedale", "Queens"); ("South Jamaica", "Queens");
   ("South Ozone Park", "Queens"); ("Springfield Gardens", "Queens");
   ("St. Albans", "Queens"); ("The Rockaways", "Queens");
   ("Whitestone", "Queens"); ("Woodhaven", "Queens")]%string.

(** [listing.get("neighborhood", "")], as the key looked up in the tables.
    A [null] label reads as Python's [None]; like the empty string it is a
    key of neither table (lemma [empty_label_unmapped] below), and both are
    looked up as the empty string. *)
Definition get_neighborhood (l : Listing) : string :=
  match l_neighborhood l with Some (Some n) => n | _ => EmptyString end.

(** The geometric fallback of [get_borough], on coordinates. *)
Definition borough_by_coords (lat lng : Q) : string :=
  if Qltb (-74.03) lng && Qltb lng (-73.90) && Qltb 40.70 lat && Qltb lat 40.88
     && (Qltb (-73.96) lng || Qltb lat 40.75)
  then "Manhattan"
  else if Qltb lat 40.65 && Qltb lng (-74.04) then "Staten Island"
  else if Qltb 40.80 lat && Qltb (-73.94) lng then "Bronx"
  else if Qltb 40.85 lat then "Bronx"
  else if Qltb lat 40.74 then
    if Qltb lng (-73.92) then "Brooklyn" else "Queens"
  else if Qltb (-73.92) lng then "Queens"
  else "Unknown".

(** [get_borough(listing)] of the baseline script.  [None] is the
    [KeyError] of [listing["lat"]] or [listing["lng"]]. *)
Definition get_borough (l : Listing) : option string :=
  match str_get (get_neighborhood l) BOROUGH_MAP with
  | Some b => Some b
  | None =>
      match l_lat l, l_lng l with
      | Some lat, Some lng => Some (borough_by_coords lat lng)
      | _, _ => None
      end
  end.

(** The geometric fallback of [get_region], on coordinates. *)
Definition region_by_coords (lat lng : Q) : string :=
  if Qltb lat 40.65 && Qltb lng (-74.04) then "Staten Island"
  else if Qltb 40.85 lat || (Qltb 40.80 lat && Qltb (-73.94) lng) then
    if Qltb lat 40.818 then "South Bronx" else "Bronx"
  else if Qltb (-74.03) lng && Qltb lng (-73.90) && Qltb 40.70 lat
          && Qltb lat 40.88 && (Qltb (-73.96) lng || Qltb lat 40.75)
  then
    if Qltb (-73.96) lng && Qleb 40.785 lat then "Upper Manhattan"
    else if Qleb lng (-73.96) && Qleb 40.800 lat then "Upper Manhattan"
    else "Lower Manhattan"
  else if Qltb lat 40.74 && Qltb lng (-73.83) then
    if Qltb 40.660 lat then "North Brooklyn" else "South Brooklyn"
  else if Qltb (-73.95) lng && Qltb lng (-73.90) && Qltb 40.73 lat
  then "W. Queens"
  else "Queens".

(** [get_region(listing)] of the S8 script. *)
Definition get_region (l : Listing) : option string :=
  match str_get (get_neighborhood l) REGION_MAP with
  | Some r => Some r
  | None =>
      match l_lat l, l_lng l with
      | Some lat, Some lng => Some (region_by_coords lat lng)
      | _, _ => None
      end
  end.

(** The bounding-box rules of the two classifiers, as conditions on the
    coordinates: a rule matches when its box test holds. *)
Definition borough_rule_matches (lat lng : Q) : bool :=
  (Qltb (-74.03) lng && Qltb lng (-73.90) && Qltb 40.70 lat && Qltb lat 40.88
     && (Qltb (-73.96) lng || Qltb lat 40.75))
  || (Qltb lat 40.65 && Qltb lng (-74.04))
  || (Qltb 40.80 lat && Qltb (-73.94) lng)
  || Qltb 40.85 lat
  || Qltb lat 40.74
  || Qltb (-73.92) lng.

Definition region_rule_matches (lat lng : Q) : bool :=
  (Qltb lat 40.65 && Qltb lng (-74.04))
  || (Qltb 40.85 lat || (Qltb 40.80 lat && Qltb (-73.94) lng))
  || (Qltb (-74.03) lng && Qltb lng (-73.90) && Qltb 40.70 lat
      && Qltb lat 40.88 && (Qltb (-73.96) lng || Qltb lat 40.75))
  || (Qltb lat 40.74 && Qltb lng (-73.83))
  || (Qltb (-73.95) lng && Qltb lng (-73.90) && Qltb 40.73 lat).

(** ** Step 4: rent-stabilisation filter *)

Definition SPATIAL_GRID : Q := 0.01.

Definition key2_eqb (a b : Q * Q) : bool :=
  Qeq_bool (fst a) (fst b) && Qeq_bool (snd a) (snd b).

(** [(round(lat / SPATIAL_GRID) * SPATIAL_GRID,
      round(lng / SPATIAL_GRID) * SPATIAL_GRID)] *)
Definition spatial_key (lat lng : Q) : Q * Q :=
  ((inject_Z (py_round (lat / SPATIAL_GRID)) * SPATIAL_GRID)%Q,
   (inject_Z (py_round (lng / SPATIAL_GRID)) * SPATIAL_GRID)%Q).

Definition spatial_cells (cohort : list Listing) : list ((Q * Q) * list Z) :=
  fold_left
    (fun d l => dict_append key2_eqb (spatial_key (lat_of l) (lng_of l))
                            (rent_of l) d)
    cohort [].

(** The listings of a cohort that fall into the coarse cell of a point. *)
Definition coarse_cell (cohort : list Listing) (lat lng : Q) : list Listing :=
  filter (fun l => key2_eqb (spatial_key lat lng)
                            (spatial_key (lat_of l) (lng_of l)))
         cohort.

Definition MIN_SAMPLE : nat := 3.

(** [spatial_medians]: one entry per coarse cell with at least 3 rents. *)
Fixpoint medians_of (cells : list ((Q * Q) * list Z)) : list ((Q * Q) * Q) :=
  match cells with
  | [] => []
  | (key, rents) :: cells' =>
      if (3 <=? length rents)%nat then
        match median rents with
        | Some m => (key, m) :: medians_of cells'
        | None => medians_of cells'
        end
      else medians_of cells'
  end.

Definition spatial_medians (cohort : list Listing) : list ((Q * Q) * Q) :=
  medians_of (spatial_cells cohort).

Fixpoint key2_get (k : Q * Q) (d : list ((Q * Q) * Q)) : option Q :=
  match d with
  | [] => None
  | (k', v) :: d' => if key2_eqb k k' then Some v else key2_get k d'
  end.

(** [get_spatial_median(lat, lng)], the index being an argument. *)
Definition get_spatial_median (index : list ((Q * Q) * Q)) (lat lng : Q)
    : option Q :=
  key2_get (spatial_key lat lng) index.

(** [sm and rent < sm * tau]: the ratio rule.  An absent median ([None]) and
    a median of zero are falsy. *)
Definition ratio_rule (tau : Q) (index : list ((Q * Q) * Q)) (l : Listing)
    : bool :=
  match get_spatial_median index (lat_of l) (lng_of l) with
  | None => false
  | Some sm => negb (Qeq_bool sm 0) && Qltb (inject_Z (rent_of l)) (sm * tau)
  end.

(** [rent < 2500 and rent % 5 != 0]: the digit-pattern rule. *)
Definition odd_under_2500 (l : Listing) : bool :=
  (rent_of l <? 2500) && negb (rent_of l mod 5 =? 0).

Inductive Rule := Rule_odd_under_2500 | Rule_below_spatial_median.

(** The rule that flags a record, if any.  The baseline script tries the
    digit-pattern rule first and the ratio rule only when it did not fire;
    the S8 script has the ratio rule alone. *)
Definition rs_rule_baseline (tau : Q) (index : list ((Q * Q) * Q))
    (l : Listing) : option Rule :=
  if odd_under_2500 l then Some Rule_odd_under_2500
  else if ratio_rule tau index l then Some Rule_below_spatial_median
  else None.

Definition rs_rule_s8 (tau : Q) (index : list ((Q * Q) * Q)) (l : Listing)
    : option Rule :=
  if ratio_rule tau index l then Some Rule_below_spatial_median else None.

(** Whether a rule function flags a record. *)
Definition flagged (rule : Listing -> option Rule) (l : Listing) : bool :=
  match rule l with Some _ => true | None => false end.

(** The loop state: [rs_flagged], [rs_by_rule] (one count per rule) and
    [non_rs]. *)
Record RsState := mkRsState {
  rs_flagged : nat;
  rs_by_odd : nat;
  rs_by_median : nat;
  non_rs_acc : list Listing
}.

Definition rs_step (rule : Listing -> option Rule) (st : RsState)
    (l : Listing) : RsState :=
  match rule l with
  | Some Rule_odd_under_2500 =>
      mkRsState (S (rs_flagged st)) (S (rs_by_odd st)) (rs_by_median st)
                (non_rs_acc st)
  | Some Rule_below_spatial_median =>
      mkRsState (S (rs_flagged st)) (rs_by_odd st) (S (rs_by_median st))
                (non_rs_acc st)
  | None =>
      mkRsState (rs_flagged st) (rs_by_odd st) (rs_by_median st)
                (non_rs_acc st ++ [l])
  end.

Definition rs_loop (rule : Listing -> option Rule) (cohort : list Listing)
    : RsState :=
  fold_left (rs_step rule) cohort (mkRsState 0 0 0 []).

(** The filter of each script with its threshold as a parameter; the index
    is built from the cohort being filtered, as in the scripts. *)
Definition rs_filter_baseline (tau : Q) (cohort : list Listing) : RsState :=
  rs_loop (rs_rule_baseline tau (spatial_medians cohort)) cohort.

Definition rs_filter_s8 (tau : Q) (cohort : list Listing) : RsState :=
  rs_loop (rs_rule_s8 tau (spatial_medians cohort)) cohort.

Definition TAU_BASELINE : Q := 0.50.
Definition TAU_S8 : Q := 0.60.

Definition non_rs_baseline (cohort : list Listing) : list Listing :=
  non_rs_acc (rs_filter_baseline TAU_BASELINE cohort).

Definition non_rs_s8 (cohort : list Listing) : list Listing :=
  non_rs_acc (rs_filter_s8 TAU_S8 cohort).

(** ** Step 6: dense adaptive grid heat points *)

Definition get_grid_size (lat lng : Q) : Q :=
  if Qltb lat 40.786 && Qltb (-74.02) lng && Qltb lng (-73.93) then 0.002%Q
  else if Qltb 40.68 lat && Qltb lat 40.73 && Qltb (-73.99) lng
          && Qltb lng (-73.93) then 0.002%Q
  else 0.003%Q.

Definition MIN_CELL_COUNT : nat := 2.

Definition CellKey : Type := Q * Q * Q.

Definition key3_eqb (a b : CellKey) : bool :=
  let '(a1, a2, a3) := a in
  let '(b1, b2, b3) := b in
  Qeq_bool a1 b1 && Qeq_bool a2 b2 && Qeq_bool a3 b3.

(** The binning key of one listing. *)
Definition cell_key (l : Listing) : CellKey :=
  let lat := lat_of l in
  let lng := lng_of l in
  let gs := get_grid_size lat lng in
  let cell_lat := (inject_Z (py_round (lat / gs)) * gs)%Q in
  let cell_lng := (inject_Z (py_round (lng / gs)) * gs)%Q in
  (py_round_nd cell_lat 6, py_round_nd cell_lng 6, gs).

Definition grid_cells (non_rs : list Listing)
    : list (CellKey * list Listing) :=
  fold_left (fun d l => dict_append key3_eqb (cell_key l) l d) non_rs [].

Record HeatPoint := mkHeatPoint {
  hp_lat : Q;
  hp_lng : Q;
  hp_rent : Z;
  hp_count : nat
}.

(** The loop state of the aggregation: [heat_points] and [dropped_thin]. *)
Record AggState := mkAggState {
  heat_points_acc : list HeatPoint;
  dropped_thin : nat
}.

(** The representative rent of the baseline script:
    [rents = sorted(...); med_rent = rents[len(rents) // 2]; int(med_rent)]. *)
Definition med_rent (lsts : list Listing) : Z :=
  upper_median (map rent_of lsts).

(** [l.get("neighborhood", "Unknown")]: the string of the label, "Unknown"
    for an absent key, and Python's [None] (here [None]) for a [null]
    label. *)
Definition get_nhood (l : Listing) : option string :=
  match l_neighborhood l with
  | Some v => v
  | None => Some "Unknown"%string
  end.

(** Equality of two dictionary keys that are strings or [None]. *)
Definition label_eqb (a b : option string) : bool :=
  match a, b with
  | Some x, Some y => String.eqb x y
  | None, None => true
  | _, _ => false
  end.

Definition by_nhood (lsts : list Listing) : list (option string * list Z) :=
  fold_left (fun d l => dict_append label_eqb (get_nhood l) (rent_of l) d)
            lsts [].

(** [sum(rents) / len(rents)] *)
Definition mean (rents : list Z) : Q :=
  (inject_Z (sum rents) / inject_Z (Z.of_nat (length rents)))%Q.

(** [sum(nhood_means) / len(nhood_means)] *)
Definition meanQ (xs : list Q) : Q :=
  (sumQ xs / inject_Z (Z.of_nat (length xs)))%Q.

(** The representative rent of the S8 script, before [int(round(...))]. *)
Definition cell_rent (lsts : list Listing) : Q :=
  let groups := by_nhood lsts in
  if (1 <? length groups)%nat then meanQ (map (fun g => mean (snd g)) groups)
  else mean (map rent_of lsts).

Definition agg_step (value : list Listing -> Z) (st : AggState)
    (cell : CellKey * list Listing) : AggState :=
  let '((clat, clng, gs), lsts) := cell in
  if (length lsts <? MIN_CELL_COUNT)%nat then
    mkAggState (heat_points_acc st) (S (dropped_thin st))
  else
    mkAggState
      (heat_points_acc st ++
         [mkHeatPoint (py_round_nd clat 4) (py_round_nd clng 4)
                      (value lsts) (length lsts)])
      (dropped_thin st).

(** A cell that survives the occupancy check, and the point it becomes. *)
Definition occupied (cell : CellKey * list Listing) : bool :=
  (MIN_CELL_COUNT <=? length (snd cell))%nat.

Definition heat_point_of (value : list Listing -> Z)
    (cell : CellKey * list Listing) : HeatPoint :=
  let '((clat, clng, gs), lsts) := cell in
  mkHeatPoint (py_round_nd clat 4) (py_round_nd clng 4) (value lsts)
              (length lsts).

Definition aggregate (value : list Listing -> Z)
    (cells : list (CellKey * list Listing)) : AggState :=
  fold_left (agg_step value) cells (mkAggState [] 0).

Definition heat_points_baseline (non_rs : list Listing) : list HeatPoint :=
  heat_points_acc (aggregate med_rent (grid_cells non_rs)).

Definition heat_points_s8 (non_rs : list Listing) : list HeatPoint :=
  heat_points_acc
    (aggregate (fun lsts => py_round (cell_rent lsts)) (grid_cells non_rs)).

(** ** Distances between heat points *)

(** [for i, hp in enumerate(heat_points)] *)
Definition enumerate {A : Type} (l : list A) : list (nat * A) :=
  combine (seq 0 (length l)) l.

(** [dlat**2 + dlng**2] *)
Definition dist2 (hp other : HeatPoint) : Q :=
  let dlat := (hp_lat hp - hp_lat other)%Q in
  let dlng := (hp_lng hp - hp_lng other)%Q in
  (dlat * dlat + dlng * dlng)%Q.

(** [dist = math.sqrt(dlat**2 + dlng**2)] *)
Definition dist (hp other : HeatPoint) : R := sqrt (Q2R (dist2 hp other)).

(** [dist < radius], decided on the squares (lemma [within_dist]). *)
Definition within (radius : Q) (hp other : HeatPoint) : bool :=
  Qltb (dist2 hp other) (radius * radius).

(** [dist > 0], decided on the square (lemma [apart_dist]). *)
Definition apart (hp other : HeatPoint) : bool :=
  Qltb 0 (dist2 hp other).

(** ** Spatial smoothing pass *)

Definition SMOOTH_RADIUS : Q := 0.008.
Definition RENT_SIGMA : Z := 1500.
Definition RENT_SIGMA_SQ : Z := RENT_SIGMA ^ 2.

(** [int(round(x))] on a real: round half to even. *)
Definition py_roundR (x : R) : Z :=
  let f := (up x - 1)%Z in
  match total_order_T (x - IZR f) (1 / 2) with
  | inleft (left _) => f
  | inleft (right _) => if Z.even f then f else (f + 1)%Z
  | inright _ => (f + 1)%Z
  end.

(** Baseline kernel: [w = 1.0 / dist]. *)
Definition weight_iso (hp other : HeatPoint) : R := (1 / dist hp other)%R.

(** S8 kernel: [w = dist_w * rent_penalty] with
    [rent_penalty = math.exp(-(rent_diff ** 2) / RENT_SIGMA_SQ)]. *)
Definition weight_aniso (hp other : HeatPoint) : R :=
  let dist_w := (1 / dist hp other)%R in
  let rent_diff := (hp_rent hp - hp_rent other)%Z in
  let rent_penalty := exp (- IZR (rent_diff ^ 2) / IZR RENT_SIGMA_SQ) in
  (dist_w * rent_penalty)%R.

(** One iteration of the inner loop over [other]; the accumulator is
    [(total_weight, weighted_rent)]. *)
Definition smooth_step (weight : HeatPoint -> HeatPoint -> R) (i : nat)
    (hp : HeatPoint) (acc : R * R) (jo : nat * HeatPoint) : R * R :=
  let '(j, other) := jo in
  if (i =? j)%nat then acc
  else if within SMOOTH_RADIUS hp other && apart hp other then
    let w := weight hp other in
    ((fst acc + w)%R, (snd acc + IZR (hp_rent other) * w)%R)
  else acc.

Definition smooth_sums (weight : HeatPoint -> HeatPoint -> R)
    (pts : list HeatPoint) (i : nat) (hp : HeatPoint) : R * R :=
  fold_left (smooth_step weight i hp) (enumerate pts)
            (2%R, (IZR (hp_rent hp) * 2)%R).

Definition smoothed_rent (weight : HeatPoint -> HeatPoint -> R)
    (pts : list HeatPoint) (i : nat) (hp : HeatPoint) : Z :=
  let '(total_weight, weighted_rent) := smooth_sums weight pts i hp in
  py_roundR (weighted_rent / total_weight).

(** The outer loop: a new list is built, every value read from the old one. *)
Definition smooth (weight : HeatPoint -> HeatPoint -> R)
    (pts : list HeatPoint) : list HeatPoint :=
  map (fun ihp : nat * HeatPoint =>
         let '(i, hp) := ihp in
         mkHeatPoint (hp_lat hp) (hp_lng hp)
                     (smoothed_rent weight pts i hp) (hp_count hp))
      (enumerate pts).

(** The rents the smoothing of point [i] reads: its own and those of the
    points the inner loop keeps. *)
Definition smooth_neighbor_rents (pts : list HeatPoint) (i : nat)
    (hp : HeatPoint) : list Z :=
  flat_map (fun jo : nat * HeatPoint =>
              let '(j, other) := jo in
              if (i =? j)%nat then []
              else if within SMOOTH_RADIUS hp other && apart hp other
                   then [hp_rent other] else [])
           (enumerate pts).

Definition list_min (x : Z) (l : list Z) : Z := fold_right Z.min x l.
Definition list_max (x : Z) (l : list Z) : Z := fold_right Z.max x l.

(** ** Neighbor median clamping *)

Definition CLAMP_RADIUS : Q := 0.015.
Definition CLAMP_THRESHOLD : Q := 1.50.
Definition CLAMP_MAX_N : nat := 10.

(** [heat_points[i] = x] *)
Fixpoint set_nth {A : Type} (i : nat) (x : A) (l : list A) : list A :=
  match l, i with
  | [], _ => []
  | _ :: l', O => x :: l'
  | y :: l', S i' => y :: set_nth i' x l'
  end.

(** [hp["rent"] = r]: the other fields of the dict stay as they are. *)
Definition set_rent (hp : HeatPoint) (r : Z) : HeatPoint :=
  mkHeatPoint (hp_lat hp) (hp_lng hp) r (hp_count hp).

(** The inner loop: the rents of the other points closer than
    [CLAMP_RADIUS], read from the list as it is now. *)
Definition clamp_neighbors (pts : list HeatPoint) (i : nat) (hp : HeatPoint)
    : list Z :=
  flat_map (fun jo : nat * HeatPoint =>
              let '(j, other) := jo in
              if (i =? j)%nat then []
              else if within CLAMP_RADIUS hp other then [hp_rent other]
              else [])
           (enumerate pts).

(** [hp["rent"] > neighbor_med * CLAMP_THRESHOLD] *)
Definition exceeds (rent neighbor_med : Z) : bool :=
  Qltb (inject_Z neighbor_med * CLAMP_THRESHOLD) (inject_Z rent).

(** The body of the outer loop for point [i]: [Some neighbor_med] when the
    point is clamped, [None] when it is left alone. *)
Definition clamp_target (pts : list HeatPoint) (i : nat) (hp : HeatPoint)
    : option Z :=
  if (CLAMP_MAX_N <=? hp_count hp)%nat then None
  else
    let neighbors := clamp_neighbors pts i hp in
    if (1 <=? length neighbors)%nat then
      let neighbor_med := upper_median neighbors in
      if exceeds (hp_rent hp) neighbor_med then Some neighbor_med else None
    else None.

(** The point after the body of the loop ran for it. *)
Definition clamp_result (pts : list HeatPoint) (i : nat) (hp : HeatPoint)
    : HeatPoint :=
  match clamp_target pts i hp with
  | Some neighbor_med => set_rent hp neighbor_med
  | None => hp
  end.

(** The loop state: the list of points, mutated in place, and
    [clamped_count]. *)
Record ClampState := mkClampState {
  points : list HeatPoint;
  clamped_count : nat
}.

Definition clamp_iter (st : ClampState) (i : nat) : ClampState :=
  match nth_error (points st) i with
  | None => st
  | Some hp =>
      match clamp_target (points st) i hp with
      | Some neighbor_med =>
          mkClampState (set_nth i (set_rent hp neighbor_med) (points st))
                       (S (clamped_count st))
      | None => st
      end
  end.

Definition clamp_loop (pts : list HeatPoint) : ClampState :=
  fold_left clamp_iter (seq 0 (length pts)) (mkClampState pts 0).

Definition clamp (pts : list HeatPoint) : list HeatPoint :=
  points (clamp_loop pts).

(** A clamper that reads only the values the pass started with: what the
    specification describes as "depends only on the pre-pass snapshot". *)
Definition clamp_snapshot (pts : list HeatPoint) : list HeatPoint :=
  map (fun ihp : nat * HeatPoint => clamp_result pts (fst ihp) (snd ihp))
      (enumerate pts).

(** The list point [i] is clamped against by the in-place loop: the points
    before [i] as the pass leaves them, the others as the pass found them. *)
Definition state_before (pts : list HeatPoint) (i : nat) : list HeatPoint :=
  firstn i (clamp pts) ++ skipn i pts.

(** ** The passes, whatever the distance tests decide

    [dist] is a float: [math.sqrt] of the sum of the squares of two float
    differences, and the tests [dist < SMOOTH_RADIUS and dist > 0] and
    [dist < CLAMP_RADIUS] compare floats.  For two points whose distance is
    the radius, or next to it, they can decide otherwise than the exact
    tests [within] and [apart].  In this part the test is a parameter:
    [near hp other] is what the test of the script gives for the two points,
    and [fdist hp other] is the float [dist] it computes for them.  With the
    exact tests and the exact distance the definitions are the passes
    above. *)

(** The rents of the points of [pts], other than the one at index [i], that
    the test selects for [hp]. *)
Definition neighbor_rents (near : HeatPoint -> HeatPoint -> bool)
    (pts : list HeatPoint) (i : nat) (hp : HeatPoint) : list Z :=
  map (fun jo : nat * HeatPoint => hp_rent (snd jo))
      (filter (fun jo : nat * HeatPoint =>
                 negb (fst jo =? i)%nat && near hp (snd jo))
              (enumerate pts)).

(** The points themselves. *)
Definition neighbor_points (near : HeatPoint -> HeatPoint -> bool)
    (pts : list HeatPoint) (i : nat) (hp : HeatPoint) : list HeatPoint :=
  map snd
      (filter (fun jo : nat * HeatPoint =>
                 negb (fst jo =? i)%nat && near hp (snd jo))
              (enumerate pts)).

(** The sum of a list of reals. *)
Definition sumR (l : list R) : R := fold_right Rplus 0%R l.

(** Baseline kernel: [w = 1.0 / dist]. *)
Definition weight_iso_with (fdist : HeatPoint -> HeatPoint -> R)
    (hp other : HeatPoint) : R :=
  (1 / fdist hp other)%R.

(** S8 kernel: [w = dist_w * rent_penalty]. *)
Definition weight_aniso_with (fdist : HeatPoint -> HeatPoint -> R)
    (hp other : HeatPoint) : R :=
  let dist_w := (1 / fdist hp other)%R in
  let rent_diff := (hp_rent hp - hp_rent other)%Z in
  let rent_penalty := exp (- IZR (rent_diff ^ 2) / IZR RENT_SIGMA_SQ) in
  (dist_w * rent_penalty)%R.

(** The smoothing pass; [near] is [dist < SMOOTH_RADIUS and dist > 0]. *)
Definition smooth_step_with (near : HeatPoint -> HeatPoint -> bool)
    (weight : HeatPoint -> HeatPoint -> R) (i : nat) (hp : HeatPoint)
    (acc : R * R) (jo : nat * HeatPoint) : R * R :=
  let '(j, other) := jo in
  if (i =? j)%nat then acc
  else if near hp other then
    let w := weight hp other in
    ((fst acc + w)%R, (snd acc + IZR (hp_rent other) * w)%R)
  else acc.

Definition smooth_sums_with (near : HeatPoint -> HeatPoint -> bool)
    (weight : HeatPoint -> HeatPoint -> R) (pts : list HeatPoint) (i : nat)
    (hp : HeatPoint) : R * R :=
  fold_left (smooth_step_with near weight i hp) (enumerate pts)
            (2%R, (IZR (hp_rent hp) * 2)%R).

Definition smoothed_rent_with (near : HeatPoint -> HeatPoint -> bool)
    (weight : HeatPoint -> HeatPoint -> R) (pts : list HeatPoint) (i : nat)
    (hp : HeatPoint) : Z :=
  let '(total_weight, weighted_rent) := smooth_sums_with near weight pts i hp in
  py_roundR (weighted_rent / total_weight).

Definition smooth_with (near : HeatPoint -> HeatPoint -> bool)
    (weight : HeatPoint -> HeatPoint -> R) (pts : list HeatPoint)
    : list HeatPoint :=
  map (fun ihp : nat * HeatPoint =>
         let '(i, hp) := ihp in
         mkHeatPoint (hp_lat hp) (hp_lng hp)
                     (smoothed_rent_with near weight pts i hp) (hp_count hp))
      (enumerate pts).

(** The clamping pass; [near] is [dist < CLAMP_RADIUS]. *)
Definition clamp_neighbors_with (near : HeatPoint -> HeatPoint -> bool)
    (pts : list HeatPoint) (i : nat) (hp : HeatPoint) : list Z :=
  flat_map (fun jo : nat * HeatPoint =>
              let '(j, other) := jo in
              if (i =? j)%nat then []
              else if near hp other then [hp_rent other]
              else [])
           (enumerate pts).

Definition clamp_target_with (near : HeatPoint -> HeatPoint -> bool)
    (pts : list HeatPoint) (i : nat) (hp : HeatPoint) : option Z :=
  if (CLAMP_MAX_N <=? hp_count hp)%nat then None
  else
    let neighbors := clamp_neighbors_with near pts i hp in
    if (1 <=? length neighbors)%nat then
      let neighbor_med := upper_median neighbors in
      if exceeds (hp_rent hp) neighbor_med then Some neighbor_med else None
    else None.

Definition clamp_result_with (near : HeatPoint -> HeatPoint -> bool)
    (pts : list HeatPoint) (i : nat) (hp : HeatPoint) : HeatPoint :=
  match clamp_target_with near pts i hp with
  | Some neighbor_med => set_rent hp neighbor_med
  | None => hp
  end.

Definition clamp_iter_with (near : HeatPoint -> HeatPoint -> bool)
    (st : ClampState) (i : nat) : ClampState :=
  match nth_error (points st) i with
  | None => st
  | Some hp =>
      match clamp_target_with near (points st) i hp with
      | Some neighbor_med =>
          mkClampState (set_nth i (set_rent hp neighbor_med) (points st))
                       (S (clamped_count st))
      | None => st
      end
  end.

Definition clamp_loop_with (near : HeatPoint -> HeatPoint -> bool)
    (pts : list HeatPoint) : ClampState :=
  fold_left (clamp_iter_with near) (seq 0 (length pts)) (mkClampState pts 0).

Definition clamp_with (near : HeatPoint -> HeatPoint -> bool)
    (pts : list HeatPoint) : list HeatPoint :=
  points (clamp_loop_with near pts).

(** The list point [i] is clamped against: the points before [i] as the
    pass leaves them, the others as the pass found them. *)
Definition state_before_with (near : HeatPoint -> HeatPoint -> bool)
    (pts : list HeatPoint) (i : nat) : list HeatPoint :=
  firstn i (clamp_with near pts) ++ skipn i pts.

(** [m] is the element at index [len // 2] of the sorted list [l], said
    without sorting: at most [len // 2] elements are smaller than [m], and
    more than [len // 2] are at most [m]. *)
Definition is_upper_median (m : Z) (l : list Z) : Prop :=
  In m l
  /\ (length (filter (fun r => (r <? m)%Z) l) <= length l / 2)%nat
  /\ (length l / 2 < length (filter (fun r => (r <=? m)%Z) l))%nat.

(** What the specification says of one point [hp] at index [i] and the
    point [hp'] the pass leaves there.  The neighbours are read from the
    list the loop body sees when it reaches [i]; the neighbour median is the
    element at index [len // 2] of their sorted rents. *)
Definition clamp_point_ok (near : HeatPoint -> HeatPoint -> bool)
    (pts : list HeatPoint) (ihp : nat * HeatPoint) (hp' : HeatPoint) : Prop :=
  let i := fst ihp in
  let hp := snd ihp in
  let neighbors := neighbor_rents near (state_before_with near pts i) i hp in
  let neighbor_med := upper_median neighbors in
  hp_lat hp' = hp_lat hp /\ hp_lng hp' = hp_lng hp
  /\ hp_count hp' = hp_count hp
  /\ hp_rent hp' <= hp_rent hp
  /\ ((10 <= hp_count hp)%nat -> hp_rent hp' = hp_rent hp)
  /\ (neighbors = [] -> hp_rent hp' = hp_rent hp)
  /\ ((hp_count hp < 10)%nat -> neighbors <> [] ->
      is_upper_median neighbor_med neighbors
      /\ ((inject_Z neighbor_med * 1.50 < inject_Z (hp_rent hp))%Q ->
          hp_rent hp' = neighbor_med)
      /\ (~ (inject_Z neighbor_med * 1.50 < inject_Z (hp_rent hp))%Q ->
          hp_rent hp' = hp_rent hp)).

(** ** Output ordering *)

(** [(-x["rent"], x["lat"])] compared as Python compares tuples. *)
Definition key_lt (a b : HeatPoint) : bool :=
  (- hp_rent a <? - hp_rent b)
  || ((- hp_rent a =? - hp_rent b) && Qltb (hp_lat a) (hp_lat b)).



(** [list.sort] is stable: a point goes before the first point of the list
    built so far whose key is not smaller. *)
Fixpoint insert_hp (x : HeatPoint) (l : list HeatPoint) : list HeatPoint :=
  match l with
  | [] => [x]
  | y :: l' => if key_lt y x then y :: insert_hp x l' else x :: l
  end.

Definition sort_heat_points (l : list HeatPoint) : list HeatPoint :=
  fold_right insert_hp [] l.

(** ** Loading the data *)

(** [date.fromordinal]: the proleptic Gregorian day number to year, month
    and day, as the [datetime] library computes it. *)
Definition DAYS_IN_MONTH : list Z :=
  [0; 31; 28; 31; 30; 31; 30; 31; 31; 30; 31; 30; 31].
Definition DAYS_BEFORE_MONTH : list Z :=
  [0; 0; 31; 59; 90; 120; 151; 181; 212; 243; 273; 304; 334].

Definition ord2ymd (ordinal : Z) : Z * Z * Z :=
  let n := ordinal - 1 in
  let n400 := n / 146097 in
  let n := n mod 146097 in
  let year := n400 * 400 + 1 in
  let n100 := n / 36524 in
  let n := n mod 36524 in
  let n4 := n / 1461 in
  let n := n mod 1461 in
  let n1 := n / 365 in
  let n := n mod 365 in
  let year := year + n100 * 100 + n4 * 4 + n1 in
  if (n1 =? 4) || (n100 =? 4) then (year - 1, 12, 31)
  else
    let leapyear := (n1 =? 3) && (negb (n4 =? 24) || (n100 =? 3)) in
    let month := Z.shiftr (n + 50) 5 in
    let preceding :=
      nth (Z.to_nat month) DAYS_BEFORE_MONTH 0
      + (if (2 <? month) && leapyear then 1 else 0) in
    if n <? preceding then
      let month := month - 1 in
      let preceding :=
        preceding - (nth (Z.to_nat month) DAYS_IN_MONTH 0
                     + (if (month =? 2) && leapyear then 1 else 0)) in
      (year, month, n - preceding + 1)
    else (year, month, n - preceding + 1).

Definition digit (d : Z) : ascii := ascii_of_nat (48 + Z.to_nat (d mod 10)).

Definition digits2 (n : Z) : string :=
  String (digit (n / 10)) (String (digit n) EmptyString).

Definition digits4 (n : Z) : string :=
  String (digit (n / 1000)) (String (digit (n / 100)) (digits2 n)).

(** [d.strftime("%Y-%m-%d")] for a four-digit year. *)
Definition strftime_ymd (ordinal : Z) : string :=
  let '(y, m, d) := ord2ymd ordinal in
  (digits4 y ++ "-" ++ digits2 m ++ "-" ++ digits2 d)%string.

(** What a run reads from outside: the clock and the JSON files.  [now] is
    the day number of [datetime.now()]; a file that does not exist is
    [None]. *)
Record Env := mkEnv {
  now : Z;
  listings_raw : option (list Listing);
  rented_raw : list Listing;
  rented_raw_v2 : list Listing
}.

(** [CUTOFF_DATE = (datetime.now() - timedelta(days=4 * 30)).date()
                     .strftime("%Y-%m-%d")] *)
Definition CUTOFF_DATE (env : Env) : string := strftime_ymd (now env - 4 * 30).

(** [r.get("rented_date", "")] *)
Definition get_rented_date (r : Listing) : string :=
  match l_rented_date r with Some d => d | None => EmptyString end.

Definition rented_recent (env : Env) : list Listing :=
  filter (fun r => String.leb (CUTOFF_DATE env) (get_rented_date r))
         (rented_raw_v2 env).



(** ** The two pipelines, from [all_raw] to the sorted heat points *)

Definition pipeline_baseline (all_raw : list Listing) : list HeatPoint :=
  sort_heat_points
    (clamp (smooth weight_iso
              (heat_points_baseline (non_rs_baseline (cleaned all_raw))))).

Definition pipeline_s8 (all_raw : list Listing) : list HeatPoint :=
  sort_heat_points
    (clamp (smooth weight_aniso
              (heat_points_s8 (non_rs_s8 (cleaned all_raw))))).




(** The fields of a heat point the smoothing and clamping passes must not
    touch. *)
Definition coords_count (hp : HeatPoint) : Q * Q * nat :=
  (hp_lat hp, hp_lng hp, hp_count hp).

(** ** Concrete inputs used below *)

(** A record with one bedroom, a rent and coordinates, nothing else. *)
Definition listing_at (lat lng : Q) (rent : Z) : Listing :=
  mkListing (Some 1) (Some rent) None (Some lat) (Some lng) None None.

(** A cleaned record on the west side of midtown Manhattan whose
    neighbourhood label is in neither table. *)
Definition west_side : Listing :=
  mkListing (Some 1) (Some 3000) None (Some 40.76%Q) (Some (-74.00)%Q)
            (Some (Some "Midtown West"%string)) None.

(** Three one-bedroom records of one coarse cell: the third is below 60%
    but not below 50% of the cell median 3000. *)
Definition ratio_cohort : list Listing :=
  [listing_at 40.70 (-73.80) 3000; listing_at 40.701 (-73.801) 3000;
   listing_at 40.702 (-73.802) 1600].

(** The aggregation scenario of the specification: two listings at
    (40.60, -73.92) with rent 3000, one at (40.601, -73.921) with rent 3100,
    and a fourth at (40.70, -73.80) with rent 5000. *)
Definition scenario_three : list Listing :=
  [listing_at 40.60 (-73.92) 3000; listing_at 40.60 (-73.92) 3000;
   listing_at 40.601 (-73.921) 3100].

Definition scenario_fourth : Listing := listing_at 40.70 (-73.80) 5000.

(** One cell with two listings, rents 1000 and 2000. *)
Definition even_cell : list Listing :=
  [listing_at 40.60 (-73.92) 1000; listing_at 40.60 (-73.92) 2000].

(** The scenario with its third listing moved into the cell of the first
    two (latitude 40.5995 instead of 40.601). *)
Definition scenario_same_cell : list Listing :=
  [listing_at 40.60 (-73.92) 3000; listing_at 40.60 (-73.92) 3000;
   listing_at 40.5995 (-73.921) 3100].

(** Four heat points after smoothing: a centre of rent 6000 with three
    neighbours inside [CLAMP_RADIUS], one of which (rent 5000) has the
    centre as its only neighbour. *)
Definition hp_centre : HeatPoint := mkHeatPoint 40.608 (-73.920) 6000 3.
Definition hp_left : HeatPoint := mkHeatPoint 40.599 (-73.920) 5000 3.
Definition hp_right1 : HeatPoint := mkHeatPoint 40.617 (-73.920) 3000 3.
Definition hp_right2 : HeatPoint := mkHeatPoint 40.617 (-73.914) 3000 3.

Definition chain_points : list HeatPoint :=
  [hp_centre; hp_left; hp_right1; hp_right2].

(** The same points, the first two in the other order. *)
Definition chain_points_swapped : list HeatPoint :=
  [hp_left; hp_centre; hp_right1; hp_right2].




(** Records the cleaning loop drops, one for each predicate, and one it
    keeps. *)
Definition typed_at (type : string) (rent : Z) : Listing :=
  mkListing (Some 1) (Some rent) (Some type) (Some 40.70%Q) (Some (-73.95)%Q)
            None None.

Definition filter_inputs : list Listing :=
  [typed_at "Townhouse" 3000; typed_at "condo" 3000; typed_at "condo" 26000;
   typed_at "condo" 400;
   mkListing (Some 2) (Some 3000) (Some "condo"%string) (Some 40.70%Q)
             (Some (-73.95)%Q) None None;
   mkListing (Some 1) (Some 3000) None (Some 0%Q) (Some (-73.95)%Q) None
             None;
   mkListing (Some 1) None None (Some 40.70%Q) (Some (-73.95)%Q) None None].



(** ** Bookkeeping of the loops *)

(** The [continue] a record of [one_br] takes in the cleaning loop, if any;
    the fourth one increments no counter. *)
Definition no_coords (l : Listing) : bool :=
  falsy (l_lat l) || falsy (l_lng l).

Definition high_rent (l : Listing) : bool :=
  negb (no_coords l) && (get_rent l >? 25000).

Definition bad_type (l : Listing) : bool :=
  negb (no_coords l) && negb (get_rent l >? 25000)
  && in_set (get_ptype l) BAD_TYPES.

Definition low_rent (l : Listing) : bool :=
  negb (no_coords l) && negb (get_rent l >? 25000)
  && negb (in_set (get_ptype l) BAD_TYPES) && (get_rent l <? 500).

(** [len([x for x in xs if f(x)])] *)
Definition count {A : Type} (f : A -> bool) (l : list A) : nat :=
  length (filter f l).

(** The rule a record is counted under in [rs_by_rule]. *)
Definition counted_odd (rule : Listing -> option Rule) (l : Listing) : bool :=
  match rule l with Some Rule_odd_under_2500 => true | _ => false end.

Definition counted_median (rule : Listing -> option Rule) (l : Listing)
    : bool :=
  match rule l with Some Rule_below_spatial_median => true | _ => false end.

(** ** Grid geometry *)

(** [round(x / gs)]: the index of the grid line nearest to [x]. *)
Definition grid_index (x gs : Q) : Z := py_round (x / gs).

(** The dense area of [get_grid_size]: its first test; the second test
    describes a part of the same area. *)
Definition in_dense_area (lat lng : Q) : Prop :=
  (lat < 40.786 /\ -74.02 < lng /\ lng < -73.93)%Q.

(** ** The two quantisations, whatever the quotient rounds to

    [round(x / gs)] divides two floats, and for a number next to the middle
    between two grid lines the float quotient can round to the other side
    than the exact quotient does.  In this part [round_div x gs] is the
    value the script gets for [round(x / gs)]; with the exact quotient,
    [fun x gs => py_round (x / gs)], the definitions are those above. *)

(** The binning key of one listing. *)
Definition cell_key_with (round_div : Q -> Q -> Z) (l : Listing) : CellKey :=
  let lat := lat_of l in
  let lng := lng_of l in
  let gs := get_grid_size lat lng in
  let cell_lat := (inject_Z (round_div lat gs) * gs)%Q in
  let cell_lng := (inject_Z (round_div lng gs) * gs)%Q in
  (py_round_nd cell_lat 6, py_round_nd cell_lng 6, gs).

Definition grid_cells_with (round_div : Q -> Q -> Z)
    (non_rs : list Listing) : list (CellKey * list Listing) :=
  fold_left (fun d l => dict_append key3_eqb (cell_key_with round_div l) l d)
            non_rs [].

(** The key of the local median index, its cells, the index and the
    lookup. *)
Definition spatial_key_with (round_div : Q -> Q -> Z) (lat lng : Q) : Q * Q :=
  ((inject_Z (round_div lat SPATIAL_GRID) * SPATIAL_GRID)%Q,
   (inject_Z (round_div lng SPATIAL_GRID) * SPATIAL_GRID)%Q).

Definition spatial_cells_with (round_div : Q -> Q -> Z)
    (cohort : list Listing) : list ((Q * Q) * list Z) :=
  fold_left
    (fun d l =>
       dict_append key2_eqb (spatial_key_with round_div (lat_of l) (lng_of l))
                   (rent_of l) d)
    cohort [].

Definition spatial_medians_with (round_div : Q -> Q -> Z)
    (cohort : list Listing) : list ((Q * Q) * Q) :=
  medians_of (spatial_cells_with round_div cohort).

Definition get_spatial_median_with (round_div : Q -> Q -> Z)
    (index : list ((Q * Q) * Q)) (lat lng : Q) : option Q :=
  key2_get (spatial_key_with round_div lat lng) index.

(** ** Bookkeeping of the clamping pass *)

(** Whether the loop body clamps point [i]. *)
Definition clamps (pts : list HeatPoint) (ihp : nat * HeatPoint) : bool :=
  match clamp_target (state_before pts (fst ihp)) (fst ihp) (snd ihp) with
  | Some _ => true
  | None => false
  end.

(** The number of positions at which two lists of points differ in rent. *)
Definition changed_rents (pts pts' : list HeatPoint) : nat :=
  count (fun p => negb (hp_rent (fst p) =? hp_rent (snd p)))
        (combine pts pts').

(** ** Sort keys *)

(** Two points with equal sort keys [(-rent, lat)]. *)
Definition same_key (a b : HeatPoint) : bool :=
  (hp_rent a =? hp_rent b) && Qeq_bool (hp_lat a) (hp_lat b).

(** ** Summary lines *)

(** Baseline: [all_rents = sorted([l["rent"] for l in non_rs]);
    nyc_med = all_rents[len(all_rents) // 2]].  [None] is the [IndexError]
    of indexing an empty list. *)
Definition nyc_med (non_rs : list Listing) : option Z :=
  let all_rents := sorted (map rent_of non_rs) in
  nth_error all_rents (length all_rents / 2).

(** S8: [nyc_mean = int(round(sum(all_rents) / len(all_rents)))].  [None]
    is the [ZeroDivisionError] of an empty list. *)
Definition nyc_mean (non_rs : list Listing) : option Z :=
  let all_rents := map rent_of non_rs in
  if (length all_rents =? 0)%nat then None
  else Some (py_round (mean all_rents)).

(** A cleaned cohort the baseline filter empties: every rent is below 2500
    and not a multiple of 5. *)
Definition odd_cohort : list Listing :=
  [listing_at 40.70 (-73.80) 2001; listing_at 40.71 (-73.81) 1999].

(** ** Labels and the "Unknown" report *)

Definition BOROUGHS : list string :=
  ["Manhattan"; "Brooklyn"; "Queens"; "Bronx"; "Staten Island"]%string.

Definition REGIONS : list string :=
  ["South Bronx"; "Bronx"; "Lower Manhattan"; "Upper Manhattan";
   "North Brooklyn"; "South Brooklyn"; "Staten Island"; "W. Queens";
   "Queens"]%string.

(** [unknowns = [l for l in cleaned if l["borough"] == "Unknown"]], the
    label being the one the classifier returned for the record. *)
Definition is_unknown (label : option string) : bool :=
  match label with
  | Some b => String.eqb b "Unknown"
  | None => false
  end.

Definition unknowns_baseline (all_raw : list Listing) : list Listing :=
  filter (fun l => is_unknown (get_borough l)) (cleaned all_raw).

Definition unknowns_s8 (all_raw : list Listing) : list Listing :=
  filter (fun l => is_unknown (get_region l)) (cleaned all_raw).

(** * Properties *)

(** ** Listing filter *)

Lemma clean_step_acc (st : CleanState) (l : Listing) :
  cleaned_acc (clean_step st l)
  = cleaned_acc st ++ (if clean_keeps l then [l] else []).
Proof.
  unfold clean_step, clean_keeps; cbv zeta.
  destruct (falsy (l_lat l) || falsy (l_lng l)), (get_rent l >? 25000),
    (in_set (get_ptype l) BAD_TYPES), (get_rent l <? 500);
    cbn [cleaned_acc negb andb]; rewrite ?app_nil_r; reflexivity.
Qed.

Lemma clean_fold_acc (ls : list Listing) (st : CleanState) :
  cleaned_acc (fold_left clean_step ls st)
  = cleaned_acc st ++ filter clean_keeps ls.
Proof.
  revert st; induction ls as [|l ls IH]; intros st; simpl.
  - now rewrite app_nil_r.
  - rewrite IH, clean_step_acc, <- app_assoc.
    now destruct (clean_keeps l).
Qed.

Lemma cleaned_filter (raw : list Listing) :
  cleaned raw = filter clean_keeps (one_br raw).
Proof. unfold cleaned, clean_loop. now rewrite clean_fold_acc. Qed.

Lemma filter_filter {A : Type} (f g : A -> bool) (l : list A) :
  filter f (filter g l) = filter (fun x => g x && f x) l.
Proof.
  induction l as [|x l IH]; simpl; [reflexivity|].
  destruct (g x); simpl; [destruct (f x)|]; now rewrite IH.
Qed.

(** A test that holds of the 256 characters holds of every character. *)
Lemma ascii_all (P : ascii -> bool) :
  forallb (fun n => P (ascii_of_nat n)) (seq 0 256) = true ->
  forall c, P c = true.
Proof.
  intros H c. rewrite forallb_forall in H.
  rewrite <- (ascii_nat_embedding c). apply H, in_seq.
  assert (Hc := nat_ascii_bounded c). lia.
Qed.

(** [upper] maps a character to a character equal to it up to case, and
    characters equal up to case to the same character. *)
Lemma same_letter_upper (c : ascii) : same_letter c (upper_char c) = true.
Proof.
  apply (ascii_all (fun c => same_letter c (upper_char c))).
  vm_compute. reflexivity.
Qed.

Lemma same_letter_upper_eq (a b : ascii) :
  same_letter a b = true -> upper_char a = upper_char b.
Proof.
  unfold same_letter. rewrite orb_true_iff, existsb_exists.
  intros [H|([lo up] & Hin & H)].
  - apply Ascii.eqb_eq in H. now subst b.
  - cbn [fst snd] in H.
    rewrite orb_true_iff, !andb_true_iff, !Ascii.eqb_eq in H.
    unfold LETTERS in Hin. cbn [In] in Hin.
    repeat destruct Hin as [[= <- <-]|Hin]; try contradiction;
      destruct H as [[-> ->]|[-> ->]]; reflexivity.
Qed.

Lemma equal_up_to_case_upper (t : string) :
  equal_up_to_case t (upper t) = true.
Proof.
  induction t as [|c t IH]; simpl; [reflexivity|].
  now rewrite same_letter_upper, IH.
Qed.

Lemma equal_up_to_case_upper_eq (s t : string) :
  equal_up_to_case s t = true -> upper s = upper t.
Proof.
  revert t; induction s as [|a s IH]; intros [|b t]; simpl;
    try discriminate; [reflexivity|].
  intros H. apply andb_prop in H as [H1 H2].
  now rewrite (same_letter_upper_eq a b H1), (IH t H2).
Qed.

Lemma BAD_TYPES_upper (b : string) : In b BAD_TYPES -> upper b = b.
Proof.
  unfold BAD_TYPES. cbn [In].
  intros H; repeat destruct H as [<-|H]; try reflexivity. contradiction.
Qed.

(** The test of the script on the upper-cased type is membership of the
    exclusion set up to case. *)
Lemma type_excluded_iff (t : string) :
  in_set (upper t) BAD_TYPES = true
  <-> exists b, In b BAD_TYPES /\ equal_up_to_case t b = true.
Proof.
  unfold in_set. rewrite existsb_exists. split.
  - intros (b & Hb & E). apply String.eqb_eq in E. subst b.
    exists (upper t). split; [exact Hb|apply equal_up_to_case_upper].
  - intros (b & Hb & E). exists b. split; [exact Hb|].
    apply String.eqb_eq. apply equal_up_to_case_upper_eq in E.
    now rewrite E, (BAD_TYPES_upper b Hb).
Qed.

Lemma spec_excluded_violates (l : Listing) :
  spec_excluded l = true <-> violates l.
Proof.
  unfold spec_excluded, violates.
  rewrite !orb_true_iff. split.
  - intros [[[[H|H]|H]|H]|H].
    + left. intros lat E. rewrite E in H. now apply Qeq_bool_iff.
    + right; left. intros lng E. rewrite E in H. now apply Qeq_bool_iff.
    + right; right; left. intros rent E. rewrite E in H.
      apply orb_prop in H as [H|H]; [left|right]; lia.
    + right; right; right; left.
      destruct (l_type l) as [t|]; [|discriminate].
      apply existsb_exists in H as (b & Hb & E). now exists t, b.
    + right; right; right; right. intros E. rewrite E in H. discriminate.
  - intros [H|[H|[H|[H|H]]]].
    + left; left; left; left. destruct (l_lat l) as [lat|]; [|reflexivity].
      apply Qeq_bool_iff. now apply H.
    + left; left; left; right. destruct (l_lng l) as [lng|]; [|reflexivity].
      apply Qeq_bool_iff. now apply H.
    + left; left; right. destruct (l_rent l) as [rent|]; [|reflexivity].
      apply orb_true_iff. destruct (H rent eq_refl); [left|right]; lia.
    + left; right. destruct H as (t & b & -> & Hb & E).
      apply existsb_exists. now exists b.
    + right. destruct (l_beds l) as [[|[p|p|]|p]|]; try reflexivity.
      now contradiction H.
Qed.

(** The tests of the script select the records the specification keeps. *)
Lemma clean_keeps_spec (l : Listing) :
  is_one_br l && clean_keeps l = negb (spec_excluded l).
Proof.
  assert (Ht : in_set (get_ptype l) BAD_TYPES
               = match l_type l with
                 | Some t => existsb (equal_up_to_case t) BAD_TYPES
                 | None => false
                 end).
  { unfold get_ptype. destruct (l_type l) as [t|]; [|reflexivity].
    apply eq_true_iff_eq. rewrite type_excluded_iff, existsb_exists.
    reflexivity. }
  unfold clean_keeps, spec_excluded, is_one_br, falsy, get_rent.
  rewrite Ht.
  destruct (l_lat l) as [lat|], (l_lng l) as [lng|], (l_rent l) as [rent|],
    (l_type l) as [t|], (l_beds l) as [[|[p|p|]|p]|];
    cbn [negb andb orb Z.eqb Pos.eqb];
    rewrite ?Z.gtb_ltb, ?andb_false_r, ?orb_true_r; cbn [negb];
    try reflexivity;
    repeat match goal with
           | |- context [Qeq_bool ?a ?b] => destruct (Qeq_bool a b)
           | |- context [?a <? ?b] => destruct (a <? b)
           | |- context [existsb ?f ?l] => destruct (existsb f l)
           end; reflexivity.
Qed.

(** C2.  On records whose property type is an ASCII string, the cohort the
    cleaning loop builds is the input, in its order, without exactly the
    records that violate one of the predicates the specification states:
    latitude or longitude missing or zero, rent (0 when absent) above 25000
    or below 500, property type equal up to case to a member of the
    exclusion set, bedroom count other than 1.  The predicates are written
    on the fields of the record, without the functions of the script.  Every
    record of the cohort is a record of the input, as it was. *)
Theorem C2_filter_correct (raw : list Listing) :
  (forall l, In l raw -> ascii_type l) ->
  cleaned raw = spec_filter raw
  /\ (forall l, spec_excluded l = true <-> violates l)
  /\ (forall l, In l (cleaned raw) <-> In l raw /\ ~ violates l).
Proof.
  intros _.
  assert (E : cleaned raw = spec_filter raw).
  { rewrite cleaned_filter. unfold one_br, spec_filter.
    rewrite filter_filter. apply filter_ext. exact clean_keeps_spec. }
  split; [exact E|]. split; [exact spec_excluded_violates|].
  intros l. rewrite E. unfold spec_filter.
  rewrite filter_In, negb_true_iff, <- spec_excluded_violates.
  now destruct (spec_excluded l); intuition.
Qed.

Lemma C2_filter_correct_witness :
  (forall l, In l filter_inputs -> ascii_type l)
  /\ cleaned filter_inputs = [typed_at "condo" 3000]
  /\ (forall l, In l (cleaned filter_inputs)
                <-> In l filter_inputs /\ ~ violates l).
Proof.
  assert (H : forall l, In l filter_inputs -> ascii_type l).
  { intros l Hl t Ht. repeat destruct Hl as [<-|Hl]; try contradiction;
      simpl in Ht; try discriminate; injection Ht as <-; reflexivity. }
  split; [exact H|]. split; [reflexivity|].
  exact (proj2 (proj2 (C2_filter_correct filter_inputs H))).
Defined.

Lemma cleaned_fields (raw : list Listing) (l : Listing) :
  In l (cleaned raw) ->
  exists lat lng rent,
    l_lat l = Some lat /\ l_lng l = Some lng /\ l_rent l = Some rent
    /\ 500 <= rent <= 25000.
Proof.
  rewrite cleaned_filter, filter_In. intros [_ H].
  unfold clean_keeps in H.
  apply andb_prop in H as [H H4]. apply andb_prop in H as [H _].
  apply andb_prop in H as [H1 H2].
  rewrite negb_true_iff, orb_false_iff in H1. destruct H1 as [Hlat Hlng].
  rewrite negb_true_iff in H2, H4.
  unfold get_rent in *.
  destruct (l_lat l) as [lat|]; [|discriminate].
  destruct (l_lng l) as [lng|]; [|discriminate].
  destruct (l_rent l) as [rent|]; [|discriminate].
  exists lat, lng, rent. repeat split; lia.
Qed.

(** ** Region classifier *)

(** Neither table has the empty string as a key: a record without a
    label, or with a [null] label, is classified by its coordinates. *)
Lemma empty_label_unmapped :
  str_get EmptyString BOROUGH_MAP = None
  /\ str_get EmptyString REGION_MAP = None.
Proof. split; vm_compute; reflexivity. Qed.

(** The baseline classifier does not fail on a cleaned record. *)
Lemma get_borough_total (raw : list Listing) (l : Listing) :
  In l (cleaned raw) -> exists b, get_borough l = Some b.
Proof.
  intros H. destruct (cleaned_fields raw l H) as (lat & lng & r & E1 & E2 & _).
  unfold get_borough. rewrite E1, E2.
  destruct (str_get _ _); eauto.
Qed.

(** The baseline classifier returns the sentinel when the neighbourhood has
    no table entry and no bounding-box rule matches. *)
Lemma get_borough_sentinel (l : Listing) (lat lng : Q) :
  l_lat l = Some lat -> l_lng l = Some lng ->
  str_get (get_neighborhood l) BOROUGH_MAP = None ->
  borough_rule_matches lat lng = false ->
  get_borough l = Some "Unknown"%string.
Proof.
  intros E1 E2 E3 H. unfold get_borough. rewrite E1, E2, E3. f_equal.
  unfold borough_rule_matches in H. unfold borough_by_coords.
  repeat (apply orb_false_elim in H; let H' := fresh in destruct H as [H H']).
  repeat match goal with
         | H : ?b = false |- context [if ?b then _ else _] => rewrite H
         end.
  reflexivity.
Qed.

Lemma get_region_total (raw : list Listing) (l : Listing) :
  In l (cleaned raw) -> exists b, get_region l = Some b.
Proof.
  intros H. destruct (cleaned_fields raw l H) as (lat & lng & r & E1 & E2 & _).
  unfold get_region. rewrite E1, E2.
  destruct (str_get _ _); eauto.
Qed.

(** C8.  On the record [west_side] (latitude 40.76, longitude -74.00, a
    neighbourhood label the tables do not have) no bounding-box rule of the
    S8 classifier matches, and [get_region] answers "Queens", not the
    sentinel; the baseline classifier answers "Unknown" on the same
    record. *)
Theorem C8_get_region_no_sentinel :
  In west_side (cleaned [west_side])
  /\ str_get (get_neighborhood west_side) REGION_MAP = None
  /\ region_rule_matches 40.76 (-74.00) = false
  /\ get_region west_side = Some "Queens"%string
  /\ get_region west_side <> Some "Unknown"%string
  /\ get_borough west_side = Some "Unknown"%string.
Proof.
  repeat split; try (vm_compute; auto; fail).
  vm_compute. discriminate.
Qed.

Lemma region_by_coords_not_sentinel (lat lng : Q) :
  region_by_coords lat lng <> "Unknown"%string.
Proof.
  unfold region_by_coords.
  repeat match goal with
         | |- (if ?b then _ else _) <> _ => destruct b
         end; discriminate.
Qed.

(** ** Sorting and medians *)

Lemma insert_sorted_perm (x : Z) (l : list Z) :
  Permutation (insert_sorted x l) (x :: l).
Proof.
  induction l as [|y l IH]; simpl; [reflexivity|].
  destruct (x <=? y); [reflexivity|].
  rewrite IH. apply perm_swap.
Qed.

Lemma sorted_perm (l : list Z) : Permutation (sorted l) l.
Proof.
  induction l as [|x l IH]; simpl; [reflexivity|].
  rewrite insert_sorted_perm. now constructor.
Qed.

Lemma sorted_length (l : list Z) : length (sorted l) = length l.
Proof. apply Permutation_length, sorted_perm. Qed.

Lemma sorted_nth_In (l : list Z) (i : nat) :
  (i < length l)%nat -> In (nth i (sorted l) 0) l.
Proof.
  intros H. apply (Permutation_in _ (sorted_perm l)).
  apply nth_In. now rewrite sorted_length.
Qed.

Lemma upper_median_In (l : list Z) : l <> [] -> In (upper_median l) l.
Proof.
  intros H. apply sorted_nth_In.
  destruct l; [contradiction|]. simpl length.
  apply Nat.div_lt; lia.
Qed.

Lemma median_In_bounds (l : list Z) (lo : Z) (m : Q) :
  (forall r, In r l -> lo <= r) -> median l = Some m -> (inject_Z lo <= m)%Q.
Proof.
  intros Hlo. unfold median. rewrite sorted_length.
  destruct (length l) as [|n] eqn:E; [discriminate|].
  assert (Hi : (S n / 2 < length l)%nat)
    by (rewrite E; apply Nat.div_lt; lia).
  assert (Hj : (S n / 2 - 1 < length l)%nat) by lia.
  apply sorted_nth_In, Hlo in Hi. apply sorted_nth_In, Hlo in Hj.
  rewrite Zle_Qle in Hi, Hj.
  set (i := (S n / 2)%nat) in *. clearbody i.
  destruct (Nat.odd (S n)); intros [= <-]; [exact Hi|].
  apply Qle_shift_div_l; [reflexivity|]. Lqa.lra.
Qed.

(** ** Dictionaries of lists *)

Section DictAppend.
Context {K V : Type} (eqb : K -> K -> bool).

(** Appending to a dictionary of lists adds the value to the values the
    dictionary holds, and nothing else. *)
Lemma dict_append_values (k : K) (v : V) (d : list (K * list V)) :
  Permutation (flat_map snd (dict_append eqb k v d)) (v :: flat_map snd d).
Proof.
  induction d as [|[k' vs] d IH]; simpl; [reflexivity|].
  destruct (eqb k k'); simpl.
  - rewrite <- app_assoc. simpl.
    rewrite <- Permutation_middle. reflexivity.
  - rewrite IH. rewrite <- Permutation_middle. reflexivity.
Qed.

Lemma dict_fold_values {A : Type} (key : A -> K) (val : A -> V)
    (xs : list A) (d : list (K * list V)) :
  Permutation
    (flat_map snd
       (fold_left (fun d x => dict_append eqb (key x) (val x) d) xs d))
    (flat_map snd d ++ map val xs).
Proof.
  revert d; induction xs as [|x xs IH]; intros d; simpl.
  - now rewrite app_nil_r.
  - rewrite IH, dict_append_values. simpl.
    rewrite <- Permutation_middle. reflexivity.
Qed.

(** No list of the dictionary is empty. *)
Lemma dict_append_nonempty (k : K) (v : V) (d : list (K * list V)) :
  Forall (fun e => snd e <> []) d ->
  Forall (fun e => snd e <> []) (dict_append eqb k v d).
Proof.
  induction 1 as [|[k' vs] d H Hd IH]; simpl.
  - repeat constructor. discriminate.
  - destruct (eqb k k'); constructor; auto.
    simpl. destruct vs; discriminate.
Qed.
End DictAppend.

Lemma spatial_cells_values (cohort : list Listing) :
  Permutation (flat_map snd (spatial_cells cohort)) (map rent_of cohort).
Proof. unfold spatial_cells. now rewrite dict_fold_values. Qed.

Lemma grid_cells_values (non_rs : list Listing) :
  Permutation (flat_map snd (grid_cells non_rs)) non_rs.
Proof.
  unfold grid_cells. rewrite dict_fold_values. simpl. now rewrite map_id.
Qed.

(** ** Local median index *)

(** A stored median is the median of a coarse cell with at least
    [MIN_SAMPLE = 3] rents. *)
Lemma medians_of_In (cells : list ((Q * Q) * list Z)) (k : Q * Q) (m : Q) :
  In (k, m) (medians_of cells) ->
  exists rents,
    In (k, rents) cells /\ (3 <= length rents)%nat /\ median rents = Some m.
Proof.
  induction cells as [|[k' rents] cells IH]; cbn [medians_of];
    [contradiction|].
  destruct (3 <=? length rents)%nat eqn:E;
    [destruct (median rents) as [m'|] eqn:Em|].
  - intros [[= <- <-]|H].
    + exists rents. apply Nat.leb_le in E. simpl; auto.
    + destruct (IH H) as (r & ? & ?). exists r. simpl; auto.
  - intros H. destruct (IH H) as (r & ? & ?). exists r. simpl; auto.
  - intros H. destruct (IH H) as (r & ? & ?). exists r. simpl; auto.
Qed.

Lemma key2_get_In (k : Q * Q) (d : list ((Q * Q) * Q)) (v : Q) :
  key2_get k d = Some v -> exists k', In (k', v) d /\ key2_eqb k k' = true.
Proof.
  induction d as [|[k' v'] d IH]; simpl; [discriminate|].
  destruct (key2_eqb k k') eqn:E.
  - intros [= <-]. eauto.
  - intros H. destruct (IH H) as (k'' & ? & ?). eauto.
Qed.

(** Every median stored for a cohort lies between the lowest and the
    highest rent of the cohort. *)
Lemma spatial_medians_lower (cohort : list Listing) (lo : Z) (k : Q * Q)
    (m : Q) :
  (forall l, In l cohort -> lo <= rent_of l) ->
  In (k, m) (spatial_medians cohort) -> (inject_Z lo <= m)%Q.
Proof.
  intros Hlo H. apply medians_of_In in H as (rents & Hin & _ & Hm).
  apply (median_In_bounds rents lo m); [|exact Hm].
  intros r Hr.
  assert (Hf : In r (flat_map snd (spatial_cells cohort)))
    by (apply in_flat_map; exists (k, rents); auto).
  apply (Permutation_in _ (spatial_cells_values cohort)) in Hf.
  apply in_map_iff in Hf as (l & <- & Hl). auto.
Qed.

(** ** Rent-stabilisation filter *)

Lemma Qltb_lt (x y : Q) : Qltb x y = true <-> (x < y)%Q.
Proof.
  unfold Qltb. rewrite negb_true_iff, <- not_true_iff_false, Qle_bool_iff.
  split; [apply Qnot_le_lt|apply Qlt_not_le].
Qed.

Lemma Qltb_ge (x y : Q) : Qltb x y = false <-> (y <= x)%Q.
Proof. unfold Qltb. now rewrite negb_false_iff, Qle_bool_iff. Qed.

Lemma rs_fold_state (rule : Listing -> option Rule) (ls : list Listing)
    (st : RsState) :
  let st' := fold_left (rs_step rule) ls st in
  rs_flagged st' = (rs_flagged st + length (filter (flagged rule) ls))%nat
  /\ non_rs_acc st'
     = non_rs_acc st ++ filter (fun l => negb (flagged rule l)) ls.
Proof.
  revert st; induction ls as [|l ls IH]; intros st; simpl.
  - now rewrite Nat.add_0_r, app_nil_r.
  - destruct (IH (rs_step rule st l)) as [-> ->].
    unfold rs_step, flagged.
    destruct (rule l) as [[|]|]; simpl; rewrite <- ?app_assoc; split;
      auto; lia.
Qed.

Lemma rs_loop_flagged (rule : Listing -> option Rule) (ls : list Listing) :
  rs_flagged (rs_loop rule ls) = length (filter (flagged rule) ls).
Proof.
  unfold rs_loop.
  now destruct (rs_fold_state rule ls (mkRsState 0 0 0 [])).
Qed.

Lemma rs_loop_non_rs (rule : Listing -> option Rule) (ls : list Listing) :
  non_rs_acc (rs_loop rule ls) = filter (fun l => negb (flagged rule l)) ls.
Proof.
  unfold rs_loop.
  now destruct (rs_fold_state rule ls (mkRsState 0 0 0 [])).
Qed.

Lemma filter_length_mono {A : Type} (f g : A -> bool) (l : list A) :
  (forall x, In x l -> f x = true -> g x = true) ->
  (length (filter f l) <= length (filter g l))%nat.
Proof.
  induction l as [|x l IH]; intros H; simpl; [lia|].
  assert (IH' := IH (fun y Hy => H y (or_intror Hy))).
  destruct (f x) eqn:Ef.
  - rewrite (H x (or_introl eq_refl) Ef). simpl. lia.
  - destruct (g x); simpl; lia.
Qed.

(** The ratio rule is monotone in the threshold over an index whose
    medians are not negative. *)
Lemma ratio_rule_mono (index : list ((Q * Q) * Q)) (l : Listing)
    (tau1 tau2 : Q) :
  (forall k m, In (k, m) index -> (0 <= m)%Q) ->
  (tau1 <= tau2)%Q ->
  ratio_rule tau1 index l = true -> ratio_rule tau2 index l = true.
Proof.
  intros Hpos Htau. unfold ratio_rule, get_spatial_median.
  destruct (key2_get _ index) as [sm|] eqn:E; [|discriminate].
  apply key2_get_In in E as (k' & Hin & _). apply Hpos in Hin.
  rewrite !andb_true_iff, !Qltb_lt. intros [H0 H]. split; [exact H0|].
  apply Qlt_le_trans with (1 := H).
  rewrite !(Qmult_comm sm). now apply Qmult_le_compat_r.
Qed.

Lemma rs_rules_mono (index : list ((Q * Q) * Q)) (l : Listing)
    (tau1 tau2 : Q) :
  (forall k m, In (k, m) index -> (0 <= m)%Q) ->
  (tau1 <= tau2)%Q ->
  (flagged (rs_rule_s8 tau1 index) l = true ->
   flagged (rs_rule_s8 tau2 index) l = true)
  /\ (flagged (rs_rule_baseline tau1 index) l = true ->
      flagged (rs_rule_baseline tau2 index) l = true).
Proof.
  intros Hpos Htau.
  assert (M := ratio_rule_mono index l tau1 tau2 Hpos Htau).
  unfold flagged, rs_rule_s8, rs_rule_baseline.
  destruct (odd_under_2500 l), (ratio_rule tau1 index l);
    try rewrite (M eq_refl); split; auto; discriminate.
Qed.

Lemma cleaned_medians_nonneg (raw : list Listing) (k : Q * Q) (m : Q) :
  In (k, m) (spatial_medians (cleaned raw)) -> (0 <= m)%Q.
Proof.
  intros H. apply Qle_trans with (inject_Z 500); [discriminate|].
  apply (spatial_medians_lower (cleaned raw) 500 k m); [|exact H].
  intros l Hl.
  destruct (cleaned_fields raw l Hl) as (? & ? & r & _ & _ & E & ?).
  unfold rent_of, get_rent. rewrite E. lia.
Qed.


(** ** Grid aggregation *)

Lemma insert_sorted_sorted (x : Z) (l : list Z) :
  StronglySorted Z.le l -> StronglySorted Z.le (insert_sorted x l).
Proof.
  induction 1 as [|y l Hs IH Hy]; simpl; [repeat constructor|].
  destruct (x <=? y) eqn:E.
  - apply Z.leb_le in E. constructor; [now constructor|].
    constructor; [exact E|].
    eapply Forall_impl; [|exact Hy]. intros; lia.
  - apply Z.leb_gt in E. constructor; [exact IH|].
    apply (Permutation_Forall (Permutation_sym (insert_sorted_perm x l))).
    constructor; [lia|exact Hy].
Qed.

Lemma sorted_sorted (l : list Z) : StronglySorted Z.le (sorted l).
Proof.
  induction l; simpl; [constructor|now apply insert_sorted_sorted].
Qed.

Lemma strongly_sorted_nth (l : list Z) (i j : nat) :
  StronglySorted Z.le l -> (i <= j < length l)%nat ->
  nth i l 0 <= nth j l 0.
Proof.
  intros H; revert i j; induction H as [|x l Hs IH Hx]; intros i j Hij;
    simpl in Hij; [lia|].
  destruct i, j; simpl; try lia.
  - rewrite Forall_forall in Hx. apply Hx, nth_In. lia.
  - apply IH. lia.
Qed.

Lemma agg_fold (value : list Listing -> Z)
    (cells : list (CellKey * list Listing)) (st : AggState) :
  heat_points_acc (fold_left (agg_step value) cells st)
  = heat_points_acc st ++ map (heat_point_of value) (filter occupied cells).
Proof.
  revert st; induction cells as [|[[[clat clng] gs] lsts] cells IH];
    intros st; simpl; [now rewrite app_nil_r|].
  rewrite IH. unfold agg_step, occupied. cbn [snd].
  rewrite Nat.ltb_antisym.
  destruct (MIN_CELL_COUNT <=? length lsts)%nat; simpl;
    [now rewrite <- app_assoc|reflexivity].
Qed.

Lemma aggregate_map (value : list Listing -> Z)
    (cells : list (CellKey * list Listing)) :
  heat_points_acc (aggregate value cells)
  = map (heat_point_of value) (filter occupied cells).
Proof. unfold aggregate. now rewrite agg_fold. Qed.

Lemma heat_point_of_fields (value : list Listing -> Z)
    (cell : CellKey * list Listing) :
  hp_rent (heat_point_of value cell) = value (snd cell)
  /\ hp_count (heat_point_of value cell) = length (snd cell).
Proof. destruct cell as [[[clat clng] gs] lsts]. now split. Qed.

Lemma median_odd (rents : list Z) :
  Nat.odd (length rents) = true ->
  median rents = Some (inject_Z (upper_median rents)).
Proof.
  intros H. unfold median, upper_median. rewrite sorted_length.
  destruct (length rents) eqn:E; [discriminate|]. now rewrite H.
Qed.

Lemma median_even (rents : list Z) :
  rents <> [] -> Nat.odd (length rents) = false ->
  exists lower,
    median rents = Some ((inject_Z lower + inject_Z (upper_median rents)) / 2)%Q
    /\ lower = nth (length rents / 2 - 1) (sorted rents) 0
    /\ lower <= upper_median rents.
Proof.
  intros Hne H. unfold median, upper_median. rewrite sorted_length.
  destruct (length rents) as [|n] eqn:E;
    [destruct rents; [contradiction|discriminate]|].
  rewrite H. eexists; split; [reflexivity|split; [reflexivity|]].
  apply strongly_sorted_nth; [apply sorted_sorted|].
  rewrite sorted_length, E. split; [lia|apply Nat.div_lt; lia].
Qed.

(** C4 as stated fails: in a cell with the two rents 1000 and 2000 the
    baseline script emits 2000, the statistical median is 1500. *)
Lemma C4_even_cell_counterexample :
  map hp_rent (heat_points_baseline even_cell) = [2000]
  /\ median (map rent_of even_cell)
     = Some ((inject_Z 1000 + inject_Z 2000) / 2)%Q
  /\ ~ (inject_Z 2000 == (inject_Z 1000 + inject_Z 2000) / 2)%Q.
Proof.
  split; [reflexivity|]. split; [reflexivity|]. intros H. discriminate H.
Qed.

Lemma Forall2_map_self {A B : Type} (P : A -> B -> Prop) (f : A -> B)
    (l : list A) :
  (forall x, In x l -> P x (f x)) -> Forall2 P l (map f l).
Proof.
  induction l as [|x l IH]; intros H; simpl; constructor.
  - apply H. now left.
  - apply IH. intros y Hy. apply H. now right.
Qed.

(** C4, amended.  In the baseline script every surviving cell becomes one
    heat point, in cell order, whose rent is the element at index
    [len // 2] of the sorted rents of the cell.  That is the statistical
    median when the cell has an odd number of listings, and the upper of
    the two middle elements when the number is even. *)
Theorem C4_cell_rent_upper_median (non_rs : list Listing) :
  Forall2
    (fun cell hp =>
       let rents := map rent_of (snd cell) in
       hp_rent hp = nth (length rents / 2) (sorted rents) 0
       /\ hp_count hp = length (snd cell)
       /\ (Nat.odd (length rents) = true ->
           median rents = Some (inject_Z (hp_rent hp)))
       /\ (Nat.odd (length rents) = false ->
           exists lower,
             median rents
             = Some ((inject_Z lower + inject_Z (hp_rent hp)) / 2)%Q
             /\ lower = nth (length rents / 2 - 1) (sorted rents) 0
             /\ lower <= hp_rent hp))
    (filter occupied (grid_cells non_rs)) (heat_points_baseline non_rs).
Proof.
  unfold heat_points_baseline. rewrite aggregate_map.
  apply Forall2_map_self. intros cell Hin.
  apply filter_In in Hin as [_ Hocc]. unfold occupied in Hocc.
  apply Nat.leb_le in Hocc. unfold MIN_CELL_COUNT in Hocc.
  destruct (heat_point_of_fields med_rent cell) as [-> ->].
  unfold med_rent. cbv zeta.
  assert (Hne : map rent_of (snd cell) <> []).
  { destruct (snd cell); [simpl in Hocc; lia|discriminate]. }
  repeat split.
  - apply median_odd.
  - intros Hev. apply median_even; assumption.
Qed.

(** C3 as stated fails: on the three listings of the scenario neither
    script emits a heat point with count 3. *)
Lemma C3_scenario_counterexample :
  ~ (exists hp, heat_points_s8 scenario_three = [hp] /\ hp_count hp = 3%nat)
  /\ ~ (exists hp, heat_points_baseline scenario_three = [hp]
                   /\ hp_count hp = 3%nat).
Proof.
  split; intros (hp & E & H); vm_compute in E;
    injection E as <-; discriminate H.
Qed.

(** C3, amended.  With cell size 0.003 the latitudes 40.60 and 40.601
    quantize to different cells (40.599 and 40.602).  The two listings at
    (40.60, -73.92) form the one heat point, with count 2 and rent 3000; the
    listing at (40.601, -73.921) is alone in its cell and is dropped, and so
    is the fourth listing at (40.70, -73.80).  This holds for the
    neighbourhood mean of the S8 script and the median of the baseline. *)
Theorem C3_scenario_two_cells :
  map (fun l => get_grid_size (lat_of l) (lng_of l))
      (scenario_three ++ [scenario_fourth])
  = [0.003; 0.003; 0.003; 0.003]%Q
  /\ map (fun c => length (snd c))
         (grid_cells (scenario_three ++ [scenario_fourth]))
     = [2; 1; 1]%nat
  /\ (forall hps,
        In hps [heat_points_s8 scenario_three;
                heat_points_s8 (scenario_three ++ [scenario_fourth]);
                heat_points_baseline scenario_three;
                heat_points_baseline (scenario_three ++ [scenario_fourth])] ->
        exists hp,
          hps = [hp] /\ hp_count hp = 2%nat /\ hp_rent hp = 3000
          /\ (hp_lat hp == 40.599)%Q /\ (hp_lng hp == -73.92)%Q)
  /\ heat_points_s8 [scenario_fourth] = []
  /\ heat_points_baseline [scenario_fourth] = [].
Proof.
  split; [reflexivity|]. split; [reflexivity|].
  split; [|split; reflexivity].
  intros hps H. simpl in H.
  repeat (destruct H as [<-|H];
          [eexists; split; [vm_compute; reflexivity|];
           repeat split; reflexivity|]).
  contradiction.
Qed.

(** Three listings that do share a cell merge into one heat point with
    count 3; the S8 script gives it the rounded plain mean 3033. *)
Lemma scenario_same_cell_merges :
  map (fun hp => (hp_rent hp, hp_count hp)) (heat_points_s8 scenario_same_cell)
  = [(3033, 3%nat)].
Proof. reflexivity. Qed.

(** ** Distances *)

Lemma Qsquare_nonneg (a : Q) : (0 <= a * a)%Q.
Proof.
  unfold Qle, Qmult. simpl. rewrite Z.mul_1_r. apply Z.square_nonneg.
Qed.

Lemma dist2_nonneg (hp other : HeatPoint) : (0 <= dist2 hp other)%Q.
Proof.
  unfold dist2. cbv zeta.
  assert (Ha := Qsquare_nonneg (hp_lat hp - hp_lat other)).
  assert (Hb := Qsquare_nonneg (hp_lng hp - hp_lng other)).
  Lqa.lra.
Qed.

(** The test on squares is the test [dist < radius] of the scripts. *)
Lemma within_dist (radius : Q) (hp other : HeatPoint) :
  (0 < radius)%Q ->
  within radius hp other = true <-> (dist hp other < Q2R radius)%R.
Proof.
  intros Hr. unfold within, dist. rewrite Qltb_lt.
  assert (H0 := Qle_Rle _ _ (dist2_nonneg hp other)).
  assert (Hr' := Qlt_Rlt _ _ Hr).
  rewrite RMicromega.Q2R_0 in H0, Hr'.
  split; intros H.
  - apply Qlt_Rlt in H. rewrite Q2R_mult in H.
    rewrite <- (sqrt_square (Q2R radius)) by lra.
    apply sqrt_lt_1_alt. lra.
  - apply Rlt_Qlt. rewrite Q2R_mult.
    apply sqrt_lt_0_alt. rewrite sqrt_square by lra. exact H.
Qed.

(** The test on the square is the test [dist > 0] of the scripts. *)
Lemma apart_dist (hp other : HeatPoint) :
  apart hp other = true <-> (0 < dist hp other)%R.
Proof.
  unfold apart, dist. rewrite Qltb_lt.
  assert (E0 := RMicromega.Q2R_0).
  split; intros H.
  - apply sqrt_lt_R0. rewrite <- E0. now apply Qlt_Rlt.
  - apply Rlt_Qlt. rewrite E0.
    destruct (Rle_or_lt (Q2R (dist2 hp other)) 0) as [Hle|]; [|assumption].
    rewrite (sqrt_neg_0 _ Hle) in H. lra.
Qed.

(** ** Smoothing *)

Lemma weight_iso_pos (hp other : HeatPoint) :
  apart hp other = true -> (0 < weight_iso hp other)%R.
Proof.
  intros H. apply apart_dist in H. unfold weight_iso.
  apply Rdiv_lt_0_compat; lra.
Qed.

Lemma weight_aniso_pos (hp other : HeatPoint) :
  apart hp other = true -> (0 < weight_aniso hp other)%R.
Proof.
  intros H. apply apart_dist in H. unfold weight_aniso. cbv zeta.
  apply Rmult_lt_0_compat; [apply Rdiv_lt_0_compat; lra|apply exp_pos].
Qed.

Lemma py_roundR_bounds (x : R) (lo hi : Z) :
  (IZR lo <= x <= IZR hi)%R -> lo <= py_roundR x <= hi.
Proof.
  intros [Hlo Hhi]. unfold py_roundR. cbv zeta.
  destruct (archimed x) as [Hup1 Hup2].
  set (f := up x - 1) in *.
  assert (Ef : IZR f = (IZR (up x) - 1)%R) by (unfold f; now rewrite minus_IZR).
  assert (Hf1 : lo <= f).
  { apply Z.lt_succ_r, lt_IZR. unfold Z.succ. rewrite plus_IZR. lra. }
  assert (Hf2 : f <= hi) by (apply le_IZR; lra).
  destruct (total_order_T (x - IZR f) (1 / 2)) as [[Hlt|Heq]|Hgt].
  - lia.
  - assert (f + 1 <= hi).
    { apply Z.lt_succ_r. unfold Z.succ. apply Zorder.Zsucc_lt_compat.
      apply lt_IZR. lra. }
    destruct (Z.even f); lia.
  - assert (f + 1 <= hi).
    { apply Z.lt_succ_r. unfold Z.succ. apply Zorder.Zsucc_lt_compat.
      apply lt_IZR. lra. }
    lia.
Qed.

Lemma list_min_spec (x : Z) (l : list Z) :
  list_min x l <= x /\ forall y, In y l -> list_min x l <= y.
Proof.
  induction l as [|z l [IH1 IH2]]; simpl; [split; [lia|contradiction]|].
  split; [lia|]. intros y [<-|H]; [lia|]. specialize (IH2 y H). lia.
Qed.

Lemma list_max_spec (x : Z) (l : list Z) :
  x <= list_max x l /\ forall y, In y l -> y <= list_max x l.
Proof.
  induction l as [|z l [IH1 IH2]]; simpl; [split; [lia|contradiction]|].
  split; [lia|]. intros y [<-|H]; [lia|]. specialize (IH2 y H). lia.
Qed.

Section Smoothing.
Variable weight : HeatPoint -> HeatPoint -> R.
Hypothesis weight_pos :
  forall hp other, apart hp other = true -> (0 < weight hp other)%R.

Variables (i : nat) (hp : HeatPoint) (lo hi : Z).

(** The rents one step of the inner loop reads. *)
Let reads (jo : nat * HeatPoint) : list Z :=
  let '(j, other) := jo in
  if (i =? j)%nat then []
  else if within SMOOTH_RADIUS hp other && apart hp other
       then [hp_rent other] else [].

(** The invariant of the inner loop: the total weight is at least the
    anchor 2.0, and the weighted sum is between [lo] and [hi] times the
    total weight. *)
Let inv (acc : R * R) : Prop :=
  (2 <= fst acc)%R
  /\ (IZR lo * fst acc <= snd acc <= IZR hi * fst acc)%R.

Lemma smooth_step_inv (acc : R * R) (jo : nat * HeatPoint) :
  (forall r, In r (reads jo) -> lo <= r <= hi) ->
  inv acc -> inv (smooth_step weight i hp acc jo).
Proof.
  destruct jo as [j other]. unfold reads, smooth_step, inv.
  destruct (i =? j)%nat; [tauto|].
  destruct (within SMOOTH_RADIUS hp other); simpl; [|tauto].
  destruct (apart hp other) eqn:Ha; [|tauto].
  intros Hr (H2 & Hlo & Hhi). specialize (Hr _ (or_introl eq_refl)).
  assert (Hw := weight_pos hp other Ha).
  destruct Hr as [Hr1 Hr2]. apply IZR_le in Hr1, Hr2.
  simpl. repeat split; nra.
Qed.

Lemma smooth_fold_inv (js : list (nat * HeatPoint)) (acc : R * R) :
  (forall r, In r (flat_map reads js) -> lo <= r <= hi) ->
  inv acc -> inv (fold_left (smooth_step weight i hp) js acc).
Proof.
  revert acc; induction js as [|jo js IH]; intros acc Hr Hacc; simpl;
    [exact Hacc|].
  apply IH.
  - intros r H. apply Hr. simpl. apply in_or_app. now right.
  - apply smooth_step_inv; [|exact Hacc].
    intros r H. apply Hr. simpl. apply in_or_app. now left.
Qed.

Lemma smooth_sums_inv (pts : list HeatPoint) :
  lo <= hp_rent hp <= hi ->
  (forall r, In r (smooth_neighbor_rents pts i hp) -> lo <= r <= hi) ->
  inv (smooth_sums weight pts i hp).
Proof.
  intros [H1 H2] Hr. unfold smooth_sums. apply smooth_fold_inv.
  - exact Hr.
  - apply IZR_le in H1, H2. unfold inv; simpl. lra.
Qed.

Lemma smoothed_rent_bounds (pts : list HeatPoint) :
  lo <= hp_rent hp <= hi ->
  (forall r, In r (smooth_neighbor_rents pts i hp) -> lo <= r <= hi) ->
  (2 <= fst (smooth_sums weight pts i hp))%R
  /\ lo <= smoothed_rent weight pts i hp <= hi.
Proof.
  intros H Hr. destruct (smooth_sums_inv pts H Hr) as (H2 & Hlo & Hhi).
  split; [exact H2|]. unfold smoothed_rent.
  destruct (smooth_sums weight pts i hp) as [tw wr]. simpl in *.
  apply py_roundR_bounds.
  assert (E : (wr / tw * tw = wr)%R) by (field; lra).
  split; apply (Rmult_le_reg_r tw); try lra.
Qed.
End Smoothing.

(** ** Smoothing, whatever the distance test decides *)

Lemma neighbor_rents_In (near : HeatPoint -> HeatPoint -> bool)
    (pts : list HeatPoint) (i : nat) (hp : HeatPoint) (r : Z) :
  In r (neighbor_rents near pts i hp)
  <-> exists j other,
        In (j, other) (enumerate pts) /\ (i =? j)%nat = false
        /\ near hp other = true /\ hp_rent other = r.
Proof.
  unfold neighbor_rents. rewrite in_map_iff. split.
  - intros ([j other] & <- & H). apply filter_In in H as [Hin H].
    cbn [fst snd] in H. apply andb_prop in H as [H1 H2].
    exists j, other. rewrite Nat.eqb_sym.
    now rewrite negb_true_iff in H1.
  - intros (j & other & Hin & Hj & Hn & <-). exists (j, other).
    split; [reflexivity|]. apply filter_In. split; [exact Hin|].
    cbn [fst snd]. now rewrite Nat.eqb_sym, Hj, Hn.
Qed.

Section SmoothingWith.
Variable near : HeatPoint -> HeatPoint -> bool.
Variable weight : HeatPoint -> HeatPoint -> R.
Hypothesis weight_pos :
  forall hp other, near hp other = true -> (0 < weight hp other)%R.

Variables (i : nat) (hp : HeatPoint) (lo hi : Z).

(** The invariant of the inner loop: the total weight is at least the
    anchor 2.0, and the weighted sum is between [lo] and [hi] times the
    total weight. *)
Let inv (acc : R * R) : Prop :=
  (2 <= fst acc)%R
  /\ (IZR lo * fst acc <= snd acc <= IZR hi * fst acc)%R.

Lemma smooth_step_with_inv (acc : R * R) (jo : nat * HeatPoint) :
  ((i =? fst jo)%nat = false -> near hp (snd jo) = true ->
   lo <= hp_rent (snd jo) <= hi) ->
  inv acc -> inv (smooth_step_with near weight i hp acc jo).
Proof.
  destruct jo as [j other]. unfold smooth_step_with, inv. cbn [fst snd].
  destruct (i =? j)%nat; [tauto|].
  destruct (near hp other) eqn:Hn; [|tauto].
  intros Hr (H2 & Hlo & Hhi). specialize (Hr eq_refl eq_refl).
  assert (Hw := weight_pos hp other Hn).
  destruct Hr as [Hr1 Hr2]. apply IZR_le in Hr1, Hr2.
  simpl. repeat split; nra.
Qed.

Lemma smooth_fold_with_inv (js : list (nat * HeatPoint)) (acc : R * R) :
  (forall jo, In jo js -> (i =? fst jo)%nat = false ->
              near hp (snd jo) = true -> lo <= hp_rent (snd jo) <= hi) ->
  inv acc -> inv (fold_left (smooth_step_with near weight i hp) js acc).
Proof.
  revert acc; induction js as [|jo js IH]; intros acc Hr Hacc; simpl;
    [exact Hacc|].
  apply IH.
  - intros jo' H. apply Hr. now right.
  - apply smooth_step_with_inv; [|exact Hacc]. apply Hr. now left.
Qed.

Lemma smoothed_rent_with_bounds (pts : list HeatPoint) :
  lo <= hp_rent hp <= hi ->
  (forall r, In r (neighbor_rents near pts i hp) -> lo <= r <= hi) ->
  (2 <= fst (smooth_sums_with near weight pts i hp))%R
  /\ lo <= smoothed_rent_with near weight pts i hp <= hi.
Proof.
  intros [H1 H2] Hr.
  assert (Hinv : inv (smooth_sums_with near weight pts i hp)).
  { unfold smooth_sums_with. apply smooth_fold_with_inv.
    - intros [j other] Hin Hj Hn. cbn [fst snd] in *.
      apply Hr, neighbor_rents_In. now exists j, other.
    - apply IZR_le in H1, H2. unfold inv; simpl. lra. }
  destruct Hinv as (Hw & Hlo & Hhi).
  split; [exact Hw|]. unfold smoothed_rent_with.
  destruct (smooth_sums_with near weight pts i hp) as [tw wr]. simpl in *.
  apply py_roundR_bounds.
  assert (E : (wr / tw * tw = wr)%R) by (field; lra).
  split; apply (Rmult_le_reg_r tw); try lra.
Qed.
End SmoothingWith.

(** Both kernels give a positive weight when the float distance is
    positive. *)
Lemma weight_iso_with_pos (fdist : HeatPoint -> HeatPoint -> R)
    (hp other : HeatPoint) :
  (0 < fdist hp other)%R -> (0 < weight_iso_with fdist hp other)%R.
Proof. intros H. unfold weight_iso_with. apply Rdiv_lt_0_compat; lra. Qed.

Lemma weight_aniso_with_pos (fdist : HeatPoint -> HeatPoint -> R)
    (hp other : HeatPoint) :
  (0 < fdist hp other)%R -> (0 < weight_aniso_with fdist hp other)%R.
Proof.
  intros H. unfold weight_aniso_with. cbv zeta.
  apply Rmult_lt_0_compat; [apply Rdiv_lt_0_compat; lra|apply exp_pos].
Qed.

Lemma smoothed_rent_with_local_range (near : HeatPoint -> HeatPoint -> bool)
    (weight : HeatPoint -> HeatPoint -> R) (pts : list HeatPoint) (i : nat)
    (hp : HeatPoint) :
  (forall hp other, near hp other = true -> (0 < weight hp other)%R) ->
  let nrs := neighbor_rents near pts i hp in
  (2 <= fst (smooth_sums_with near weight pts i hp))%R
  /\ list_min (hp_rent hp) nrs <= smoothed_rent_with near weight pts i hp
     <= list_max (hp_rent hp) nrs.
Proof.
  intros Hw nrs. apply smoothed_rent_with_bounds; [exact Hw| |].
  - split; [exact (proj1 (list_min_spec _ _))|].
    exact (proj1 (list_max_spec _ _)).
  - intros r Hr.
    split; [exact (proj2 (list_min_spec _ _) r Hr)
           |exact (proj2 (list_max_spec _ _) r Hr)].
Qed.

(** With the exact tests and the exact distance the pass is the pass of the
    pipelines above. *)
Lemma smooth_with_exact (pts : list HeatPoint) :
  smooth_with (fun hp other => within SMOOTH_RADIUS hp other && apart hp other)
              (weight_iso_with dist) pts
  = smooth weight_iso pts
  /\ smooth_with
       (fun hp other => within SMOOTH_RADIUS hp other && apart hp other)
       (weight_aniso_with dist) pts
     = smooth weight_aniso pts.
Proof. split; reflexivity. Qed.

Lemma neighbor_rents_points (near : HeatPoint -> HeatPoint -> bool)
    (pts : list HeatPoint) (i : nat) (hp : HeatPoint) :
  neighbor_rents near pts i hp = map hp_rent (neighbor_points near pts i hp).
Proof. unfold neighbor_rents, neighbor_points. now rewrite map_map. Qed.

(** The two sums of the inner loop in closed form: the anchor plus the
    contributions of the points the test selects. *)
Lemma smooth_sums_with_closed (near : HeatPoint -> HeatPoint -> bool)
    (weight : HeatPoint -> HeatPoint -> R) (pts : list HeatPoint) (i : nat)
    (hp : HeatPoint) :
  let nbs := neighbor_points near pts i hp in
  smooth_sums_with near weight pts i hp
  = ((2 + sumR (map (weight hp) nbs))%R,
     (IZR (hp_rent hp) * 2
      + sumR (map (fun other => IZR (hp_rent other) * weight hp other) nbs))%R).
Proof.
  cbv zeta. unfold smooth_sums_with, neighbor_points.
  generalize 2%R at 1 3 as tw. generalize (IZR (hp_rent hp) * 2)%R as wr.
  induction (enumerate pts) as [|[j other] js IH]; intros wr tw.
  - simpl. f_equal; ring.
  - cbn [fold_left smooth_step_with filter fst snd].
    rewrite (Nat.eqb_sym j i).
    destruct (i =? j)%nat; cbn [negb andb]; [apply IH|].
    destruct (near hp other); [|apply IH].
    rewrite IH. cbn [map fst snd]. unfold sumR. cbn [fold_right].
    f_equal; ring.
Qed.

(** C10.  Whatever the test [dist < SMOOTH_RADIUS and dist > 0] decides for
    each pair of points, as long as the float [dist] is positive where it
    holds: for both kernels (inverse distance, and inverse distance times
    the rent penalty) every weight is positive; the pass keeps position and
    count of every point and gives it the rounded quotient of the weighted
    rent, twice its own rent plus the weighted rents of the points the test
    selects, by the total weight, 2 plus their weights; the total weight is
    at least the anchor 2.0, so the division is defined, and the smoothed
    rent lies between the minimum and the maximum of the point's own rent
    and the rents of the selected points, all read before the pass. *)
Theorem C10_smoothing_within_local_range
    (near : HeatPoint -> HeatPoint -> bool)
    (fdist : HeatPoint -> HeatPoint -> R) (pts : list HeatPoint) :
  (forall hp other, near hp other = true -> (0 < fdist hp other)%R) ->
  let local_range (weight : HeatPoint -> HeatPoint -> R)
        (ihp : nat * HeatPoint) (sm : HeatPoint) :=
    let hp := snd ihp in
    let nbs := neighbor_points near pts (fst ihp) hp in
    let total_weight := (2 + sumR (map (weight hp) nbs))%R in
    let weighted_rent :=
      (IZR (hp_rent hp) * 2
       + sumR (map (fun other => IZR (hp_rent other) * weight hp other)
                   nbs))%R in
    (2 <= total_weight)%R
    /\ hp_rent sm = py_roundR (weighted_rent / total_weight)
    /\ hp_lat sm = hp_lat hp /\ hp_lng sm = hp_lng hp
    /\ hp_count sm = hp_count hp
    /\ list_min (hp_rent hp) (map hp_rent nbs) <= hp_rent sm
       <= list_max (hp_rent hp) (map hp_rent nbs) in
  (forall hp other, near hp other = true ->
     (0 < weight_iso_with fdist hp other)%R
     /\ (0 < weight_aniso_with fdist hp other)%R)
  /\ Forall2 (local_range (weight_iso_with fdist)) (enumerate pts)
             (smooth_with near (weight_iso_with fdist) pts)
  /\ Forall2 (local_range (weight_aniso_with fdist)) (enumerate pts)
             (smooth_with near (weight_aniso_with fdist) pts).
Proof.
  intros Hd local_range.
  assert (Hiso : forall hp other, near hp other = true ->
                   (0 < weight_iso_with fdist hp other)%R)
    by (intros hp other H; now apply weight_iso_with_pos, Hd).
  assert (Haniso : forall hp other, near hp other = true ->
                     (0 < weight_aniso_with fdist hp other)%R)
    by (intros hp other H; now apply weight_aniso_with_pos, Hd).
  split; [intros hp other H; split; auto|].
  assert (G : forall weight,
             (forall hp other,
                 near hp other = true -> (0 < weight hp other)%R) ->
             Forall2 (local_range weight) (enumerate pts)
                     (smooth_with near weight pts)).
  { intros weight Hw. unfold smooth_with. apply Forall2_map_self.
    intros [i hp] _. unfold local_range.
    cbn [fst snd hp_rent hp_lat hp_lng hp_count].
    destruct (smoothed_rent_with_local_range near weight pts i hp Hw)
      as [H2 Hr].
    rewrite neighbor_rents_points in Hr.
    assert (Ec := smooth_sums_with_closed near weight pts i hp).
    cbv zeta in Ec. unfold smoothed_rent_with in *. rewrite Ec in *.
    cbn [fst snd] in H2. auto 10. }
  split; apply G; assumption.
Qed.

Lemma C10_smoothing_within_local_range_witness :
  let near := fun hp other =>
                within SMOOTH_RADIUS hp other && apart hp other in
  (forall hp other, near hp other = true -> (0 < dist hp other)%R)
  /\ neighbor_points near chain_points 2 hp_right1 = [hp_right2]
  /\ Forall2 (fun (ihp : nat * HeatPoint) (sm : HeatPoint) =>
                let nrs := map hp_rent
                               (neighbor_points near chain_points (fst ihp)
                                                (snd ihp)) in
                list_min (hp_rent (snd ihp)) nrs <= hp_rent sm
                <= list_max (hp_rent (snd ihp)) nrs)
             (enumerate chain_points)
             (smooth_with near (weight_iso_with dist) chain_points).
Proof.
  intros near.
  assert (H : forall hp other, near hp other = true -> (0 < dist hp other)%R).
  { intros hp other Hn. apply andb_prop in Hn as [_ Ha].
    now apply apart_dist. }
  split; [exact H|]. split; [reflexivity|].
  destruct (C10_smoothing_within_local_range near dist chain_points H)
    as (_ & Hiso & _).
  eapply Forall2_impl; [|exact Hiso]. intros ihp sm Hr. apply Hr.
Defined.

(** ** Clamping: the in-place loop *)

Lemma set_nth_length {A : Type} (i : nat) (x : A) (l : list A) :
  length (set_nth i x l) = length l.
Proof.
  revert i; induction l as [|y l IH]; intros [|i]; simpl; auto.
Qed.

Lemma set_nth_same {A : Type} (i : nat) (x : A) (l : list A) :
  (i < length l)%nat -> nth_error (set_nth i x l) i = Some x.
Proof.
  revert i; induction l as [|y l IH]; intros [|i] H; simpl in *;
    try lia; [reflexivity|]. apply IH. lia.
Qed.

Lemma set_nth_other {A : Type} (i j : nat) (x : A) (l : list A) :
  i <> j -> nth_error (set_nth i x l) j = nth_error l j.
Proof.
  revert i j; induction l as [|y l IH]; intros [|i] [|j] H; simpl; auto.
  contradiction.
Qed.

Lemma clamp_iter_length (st : ClampState) (i : nat) :
  length (points (clamp_iter st i)) = length (points st).
Proof.
  unfold clamp_iter. destruct (nth_error (points st) i); [|reflexivity].
  destruct (clamp_target _ _ _); [|reflexivity]. apply set_nth_length.
Qed.

Lemma clamp_iter_other (st : ClampState) (i j : nat) :
  i <> j -> nth_error (points (clamp_iter st i)) j = nth_error (points st) j.
Proof.
  intros H. unfold clamp_iter.
  destruct (nth_error (points st) i); [|reflexivity].
  destruct (clamp_target _ _ _); [|reflexivity]. now apply set_nth_other.
Qed.

Lemma clamp_iter_same (st : ClampState) (i : nat) (hp : HeatPoint) :
  nth_error (points st) i = Some hp ->
  nth_error (points (clamp_iter st i)) i
  = Some (clamp_result (points st) i hp).
Proof.
  intros H. unfold clamp_iter, clamp_result. rewrite H.
  destruct (clamp_target _ _ _); [|exact H].
  apply set_nth_same. apply nth_error_Some. now rewrite H.
Qed.

Lemma clamp_fold_length (idxs : list nat) (st : ClampState) :
  length (points (fold_left clamp_iter idxs st)) = length (points st).
Proof.
  revert st; induction idxs as [|i idxs IH]; intros st; simpl; [reflexivity|].
  now rewrite IH, clamp_iter_length.
Qed.

(** Iterations [k .. k+m-1] leave every other index as it was. *)
Lemma clamp_fold_outside (m k j : nat) (st : ClampState) :
  (j < k \/ k + m <= j)%nat ->
  nth_error (points (fold_left clamp_iter (seq k m) st)) j
  = nth_error (points st) j.
Proof.
  revert k st; induction m as [|m IH]; intros k st H; simpl; [reflexivity|].
  rewrite IH by lia. apply clamp_iter_other. lia.
Qed.

Lemma clamp_length (pts : list HeatPoint) : length (clamp pts) = length pts.
Proof. unfold clamp, clamp_loop. now rewrite clamp_fold_length. Qed.

(** The list iteration [i] works on. *)
Lemma clamp_state_before (pts : list HeatPoint) (i : nat) :
  (i <= length pts)%nat ->
  points (fold_left clamp_iter (seq 0 i) (mkClampState pts 0))
  = state_before pts i.
Proof.
  intros Hi. set (st := fold_left clamp_iter (seq 0 i) (mkClampState pts 0)).
  assert (Efinal : clamp pts
                   = points (fold_left clamp_iter (seq i (length pts - i)) st)).
  { unfold clamp, clamp_loop, st. rewrite <- fold_left_app, <- seq_app.
    do 3 f_equal. lia. }
  apply nth_error_ext. intros j. unfold state_before.
  rewrite nth_error_app, length_firstn, clamp_length, Nat.min_l by exact Hi.
  destruct (Nat.ltb_spec j i) as [Hlt|Hge].
  - rewrite nth_error_firstn.
    destruct (Nat.ltb_spec j i); [|lia].
    rewrite Efinal, clamp_fold_outside by lia. reflexivity.
  - rewrite nth_error_skipn. replace (i + (j - i))%nat with j by lia.
    unfold st. now rewrite clamp_fold_outside by lia.
Qed.

(** What the in-place loop leaves at index [i]: the body of the loop
    applied to the point, with the points before it already clamped. *)
Lemma clamp_nth (pts : list HeatPoint) (i : nat) (hp : HeatPoint) :
  nth_error pts i = Some hp ->
  nth_error (clamp pts) i = Some (clamp_result (state_before pts i) i hp).
Proof.
  intros H.
  assert (Hi : (i < length pts)%nat) by (apply nth_error_Some; now rewrite H).
  set (st := fold_left clamp_iter (seq 0 i) (mkClampState pts 0)).
  assert (Est : points st = state_before pts i)
    by (apply clamp_state_before; lia).
  assert (Efinal : clamp pts
            = points (fold_left clamp_iter (seq (S i) (length pts - S i))
                                (clamp_iter st i))).
  { unfold clamp, clamp_loop, st.
    replace (length pts) with (i + S (length pts - S i))%nat at 1 by lia.
    rewrite seq_app, fold_left_app. reflexivity. }
  rewrite Efinal, clamp_fold_outside by lia.
  rewrite <- Est. apply clamp_iter_same.
  unfold st. rewrite clamp_fold_outside by lia. exact H.
Qed.

Lemma enumerate_nth {A : Type} (l : list A) (i : nat) (x : A) :
  In (i, x) (enumerate l) <-> nth_error l i = Some x.
Proof.
  unfold enumerate.
  assert (G : forall k, In (i, x) (combine (seq k (length l)) l)
                        <-> (k <= i)%nat /\ nth_error l (i - k) = Some x).
  { induction l as [|y l IH]; intros k; simpl.
    - split; [contradiction|]. intros [_ H]. destruct (i - k)%nat; discriminate.
    - rewrite IH. split.
      + intros [[= <- <-]|[Hk H]].
        * rewrite Nat.sub_diag. split; [lia|reflexivity].
        * split; [lia|]. replace (i - k)%nat with (S (i - S k)) by lia.
          exact H.
      + intros [Hk H]. destruct (i - k)%nat as [|d] eqn:E.
        * left. injection H as <-. f_equal. lia.
        * right. split; [lia|]. replace (i - S k)%nat with d by lia.
          exact H. }
  rewrite G, Nat.sub_0_r. split; [tauto|]. split; [lia|assumption].
Qed.

Lemma map_combine_seq_nth {A B : Type} (f : nat * A -> B) (k : nat)
    (l : list A) (l' : list B) :
  length l' = length l ->
  (forall i x, nth_error l i = Some x ->
               nth_error l' i = Some (f ((k + i)%nat, x))) ->
  l' = map f (combine (seq k (length l)) l).
Proof.
  revert k l'; induction l as [|x l IH]; intros k [|y l'] Hlen H;
    simpl in *; try discriminate; [reflexivity|].
  f_equal.
  - specialize (H 0%nat x eq_refl). simpl in H. injection H as ->.
    now rewrite Nat.add_0_r.
  - apply IH; [lia|]. intros i z Hz. specialize (H (S i) z Hz).
    simpl in H. rewrite H. do 3 f_equal. lia.
Qed.

Lemma map_enumerate_nth {A B : Type} (f : nat * A -> B) (l : list A)
    (l' : list B) :
  length l' = length l ->
  (forall i x, nth_error l i = Some x -> nth_error l' i = Some (f (i, x))) ->
  l' = map f (enumerate l).
Proof.
  intros Hlen H. unfold enumerate. now apply map_combine_seq_nth.
Qed.

(** The in-place pass, point by point. *)
Lemma clamp_map (pts : list HeatPoint) :
  clamp pts
  = map (fun ihp : nat * HeatPoint =>
           clamp_result (state_before pts (fst ihp)) (fst ihp) (snd ihp))
        (enumerate pts).
Proof.
  apply map_enumerate_nth; [apply clamp_length|].
  intros i hp H. now apply clamp_nth.
Qed.

Lemma exceeds_spec (rent neighbor_med : Z) :
  exceeds rent neighbor_med = true <-> 3 * neighbor_med < 2 * rent.
Proof.
  unfold exceeds. rewrite Qltb_lt. unfold Qlt, CLAMP_THRESHOLD.
  cbn [Qnum Qden Qmult inject_Z Pos.mul]. lia.
Qed.

Lemma exceeds_Qlt (rent neighbor_med : Z) :
  exceeds rent neighbor_med = true
  <-> (inject_Z neighbor_med * CLAMP_THRESHOLD < inject_Z rent)%Q.
Proof. unfold exceeds. apply Qltb_lt. Qed.

Lemma enumerate_In {A : Type} (l : list A) (i : nat) (x : A) :
  In (i, x) (enumerate l) -> In x l.
Proof. rewrite enumerate_nth. apply nth_error_In. Qed.

Lemma clamp_neighbors_In (pts : list HeatPoint) (i : nat) (hp : HeatPoint)
    (r : Z) :
  In r (clamp_neighbors pts i hp) ->
  exists other, In other pts /\ hp_rent other = r.
Proof.
  unfold clamp_neighbors. rewrite in_flat_map. intros ([j other] & Hin & H).
  apply enumerate_In in Hin.
  destruct (i =? j)%nat; [contradiction|].
  destruct (within CLAMP_RADIUS hp other); [|contradiction].
  destruct H as [<-|[]]. eauto.
Qed.

Lemma clamp_target_Some (pts : list HeatPoint) (i : nat) (hp : HeatPoint)
    (m : Z) :
  clamp_target pts i hp = Some m <->
  (hp_count hp < CLAMP_MAX_N)%nat
  /\ clamp_neighbors pts i hp <> []
  /\ m = upper_median (clamp_neighbors pts i hp)
  /\ exceeds (hp_rent hp) m = true.
Proof.
  unfold clamp_target.
  destruct (Nat.leb_spec CLAMP_MAX_N (hp_count hp)) as [Hc|Hc].
  { split; [discriminate|]. intros [H _]. lia. }
  destruct (clamp_neighbors pts i hp) as [|r rs] eqn:E.
  { simpl. split; [discriminate|]. intros (_ & H & _). contradiction. }
  cbn [length Nat.leb]. cbv zeta.
  destruct (exceeds (hp_rent hp) (upper_median (r :: rs))) eqn:Ex.
  - split.
    + intros [= <-]. repeat split; auto. discriminate.
    + intros (_ & _ & -> & _). reflexivity.
  - split; [discriminate|]. intros (_ & _ & -> & H). congruence.
Qed.

Lemma clamp_target_rent (pts : list HeatPoint) (i : nat) (hp : HeatPoint)
    (m : Z) :
  clamp_target pts i hp = Some m ->
  exists other, In other pts /\ hp_rent other = m.
Proof.
  rewrite clamp_target_Some. intros (_ & Hne & -> & _).
  apply (clamp_neighbors_In pts i hp). now apply upper_median_In.
Qed.

Lemma set_nth_In {A : Type} (i : nat) (x y : A) (l : list A) :
  In y (set_nth i x l) -> y = x \/ In y l.
Proof.
  revert i; induction l as [|z l IH]; intros [|i]; simpl; try tauto.
  - intros [<-|H]; auto.
  - intros [<-|H]; auto. destruct (IH i H); auto.
Qed.

(** The pass only copies rents: every rent of the list after an iteration
    is a rent of the list before it. *)
Lemma clamp_iter_rents (st : ClampState) (i : nat) (hp' : HeatPoint) :
  In hp' (points (clamp_iter st i)) ->
  exists hp, In hp (points st) /\ hp_rent hp' = hp_rent hp.
Proof.
  unfold clamp_iter.
  destruct (nth_error (points st) i) as [hp|] eqn:E; [|eauto].
  destruct (clamp_target (points st) i hp) as [m|] eqn:Et; [|eauto].
  cbn [points]. intros H. apply set_nth_In in H as [->|H]; [|eauto].
  destruct (clamp_target_rent _ _ _ _ Et) as (other & Hin & <-). eauto.
Qed.

Lemma clamp_fold_rents (idxs : list nat) (st : ClampState) (hp' : HeatPoint) :
  In hp' (points (fold_left clamp_iter idxs st)) ->
  exists hp, In hp (points st) /\ hp_rent hp' = hp_rent hp.
Proof.
  revert st; induction idxs as [|i idxs IH]; intros st; simpl; [eauto|].
  intros H. apply IH in H as (hp1 & H1 & E1).
  apply clamp_iter_rents in H1 as (hp & H & E). exists hp. split; congruence.
Qed.

Lemma clamp_rents (pts : list HeatPoint) (hp' : HeatPoint) :
  In hp' (clamp pts) -> exists hp, In hp pts /\ hp_rent hp' = hp_rent hp.
Proof. apply clamp_fold_rents. Qed.

Lemma In_firstn {A : Type} (n : nat) (l : list A) (x : A) :
  In x (firstn n l) -> In x l.
Proof.
  intros H. rewrite <- (firstn_skipn n l). apply in_or_app. now left.
Qed.

Lemma In_skipn {A : Type} (n : nat) (l : list A) (x : A) :
  In x (skipn n l) -> In x l.
Proof.
  intros H. rewrite <- (firstn_skipn n l). apply in_or_app. now right.
Qed.

Lemma state_before_rents (pts : list HeatPoint) (i : nat) (hp' : HeatPoint) :
  In hp' (state_before pts i) ->
  exists hp, In hp pts /\ hp_rent hp' = hp_rent hp.
Proof.
  unfold state_before. rewrite in_app_iff. intros [H|H].
  - apply In_firstn, clamp_rents in H. exact H.
  - apply In_skipn in H. eauto.
Qed.

(** C1 as stated fails.  On [chain_points] the in-place loop clamps the
    centre to 3000 first, and the point of rent 5000, whose only neighbour
    is the centre, is then clamped against 3000; a clamper reading the
    pre-pass values compares it with 6000 and leaves it.  Processing the
    same points with the first two swapped leaves it at 5000 as well. *)
Lemma C1_in_place_counterexample :
  clamp chain_points <> clamp_snapshot chain_points
  /\ map hp_rent (clamp chain_points) = [3000; 3000; 3000; 3000]
  /\ map hp_rent (clamp_snapshot chain_points) = [3000; 5000; 3000; 3000]
  /\ Permutation chain_points chain_points_swapped
  /\ nth_error (clamp chain_points) 1 = Some (set_rent hp_left 3000)
  /\ nth_error (clamp chain_points_swapped) 0 = Some hp_left.
Proof.
  split; [vm_compute; discriminate|].
  split; [reflexivity|]. split; [reflexivity|].
  split; [apply perm_swap|]. split; reflexivity.
Qed.

Lemma nth_error_combine_seq {A : Type} (l : list A) (k i : nat) :
  nth_error (combine (seq k (length l)) l) i
  = option_map (pair (k + i)%nat) (nth_error l i).
Proof.
  revert k i; induction l as [|x l IH]; intros k [|i]; simpl; auto.
  - now rewrite Nat.add_0_r.
  - rewrite IH. destruct (nth_error l i); simpl; [|reflexivity].
    do 2 f_equal. lia.
Qed.

Lemma nth_error_map_enumerate {A B : Type} (f : nat * A -> B) (l : list A)
    (i : nat) :
  nth_error (map f (enumerate l)) i
  = option_map (fun x => f (i, x)) (nth_error l i).
Proof.
  unfold enumerate. rewrite nth_error_map, nth_error_combine_seq.
  now destruct (nth_error l i).
Qed.

(** C1, amended.  The in-place loop gives point [i] the result of the loop
    body on the list in which the points before [i] carry their post-clamp
    rents and the points from [i] on their pre-clamp rents; the snapshot
    clamper applies the same body to the pre-clamp list.  The two agree on
    the first point processed, and on every point before which the pass
    changed nothing. *)
Theorem C1_clamp_sequential (pts : list HeatPoint) :
  clamp pts
  = map (fun ihp : nat * HeatPoint =>
           clamp_result (state_before pts (fst ihp)) (fst ihp) (snd ihp))
        (enumerate pts)
  /\ clamp_snapshot pts
     = map (fun ihp : nat * HeatPoint =>
              clamp_result pts (fst ihp) (snd ihp))
           (enumerate pts)
  /\ state_before pts 0 = pts
  /\ nth_error (clamp pts) 0 = nth_error (clamp_snapshot pts) 0
  /\ (forall i, firstn i (clamp pts) = firstn i pts ->
                nth_error (clamp pts) i = nth_error (clamp_snapshot pts) i).
Proof.
  split; [apply clamp_map|]. split; [reflexivity|].
  split; [reflexivity|].
  assert (G : forall i, firstn i (clamp pts) = firstn i pts ->
                nth_error (clamp pts) i = nth_error (clamp_snapshot pts) i).
  { intros i H.
    assert (Es : state_before pts i = pts)
      by (unfold state_before; rewrite H; apply firstn_skipn).
    rewrite clamp_map. unfold clamp_snapshot.
    rewrite !nth_error_map_enumerate. cbn [fst snd]. now rewrite Es. }
  split; [apply G; reflexivity|exact G].
Qed.

(** ** Clamping, whatever the distance test decides *)

Lemma filter_nil {A : Type} (f : A -> bool) (l : list A) :
  (forall x, In x l -> f x = false) -> filter f l = [].
Proof.
  induction l as [|x l IH]; intros H; simpl; [reflexivity|].
  rewrite (H x (or_introl eq_refl)). apply IH. intros y Hy. apply H. now right.
Qed.

Lemma filter_all {A : Type} (f : A -> bool) (l : list A) :
  (forall x, In x l -> f x = true) -> filter f l = l.
Proof.
  induction l as [|a l IH]; intros H; simpl; [reflexivity|].
  rewrite (H a (or_introl eq_refl)). f_equal. apply IH.
  intros x Hx. apply H. now right.
Qed.

Lemma filter_length_perm {A : Type} (f : A -> bool) (l l' : list A) :
  Permutation l l' -> length (filter f l) = length (filter f l').
Proof.
  induction 1 as [|x l l' _ IH|x y l|l l' l'' _ IH1 _ IH2]; simpl.
  - reflexivity.
  - destruct (f x); simpl; now rewrite IH.
  - destruct (f x), (f y); reflexivity.
  - now rewrite IH1.
Qed.

(** The element at index [len // 2] of the sorted list has at most
    [len // 2] elements below it and more than [len // 2] elements at most
    equal to it. *)
Lemma upper_median_rank (l : list Z) :
  l <> [] -> is_upper_median (upper_median l) l.
Proof.
  intros Hne. split; [now apply upper_median_In|].
  unfold upper_median.
  rewrite <- !(filter_length_perm _ _ _ (sorted_perm l)).
  rewrite <- (sorted_length l).
  assert (Hs := sorted_sorted l).
  assert (Hk : (length (sorted l) / 2 < length (sorted l))%nat).
  { apply Nat.div_lt; [|lia]. rewrite sorted_length.
    destruct l; [contradiction|simpl; lia]. }
  set (s := sorted l) in *. set (k := (length s / 2)%nat) in *.
  set (m := nth k s 0).
  assert (Hhi : forall x, In x (skipn k s) -> m <= x).
  { intros x Hx. apply In_nth_error in Hx as [j Hj].
    rewrite nth_error_skipn in Hj.
    assert (Hlt : (k + j < length s)%nat)
      by (apply nth_error_Some; now rewrite Hj).
    rewrite <- (nth_error_nth _ _ 0 Hj).
    apply strongly_sorted_nth; [exact Hs|lia]. }
  assert (Hlo : forall x, In x (firstn (S k) s) -> x <= m).
  { intros x Hx. apply In_nth_error in Hx as [j Hj].
    assert (Hlt : (j < S k)%nat).
    { assert (H : (j < length (firstn (S k) s))%nat)
        by (apply nth_error_Some; now rewrite Hj).
      rewrite length_firstn in H. lia. }
    rewrite nth_error_firstn in Hj.
    destruct (Nat.ltb_spec j (S k)); [|lia].
    rewrite <- (nth_error_nth _ _ 0 Hj).
    apply strongly_sorted_nth; [exact Hs|lia]. }
  split.
  - rewrite <- (firstn_skipn k s) at 1.
    rewrite filter_app, length_app.
    rewrite (filter_nil (fun r => r <? m) (skipn k s)).
    + simpl. rewrite Nat.add_0_r.
      etransitivity; [apply filter_length_le|].
      rewrite length_firstn. lia.
    + intros x Hx. apply Z.ltb_ge. now apply Hhi.
  - rewrite <- (firstn_skipn (S k) s) at 1.
    rewrite filter_app, length_app.
    rewrite (filter_all (fun r => r <=? m) (firstn (S k) s)).
    + rewrite length_firstn. lia.
    + intros x Hx. apply Z.leb_le. now apply Hlo.
Qed.

Section ClampWith.
Variable near : HeatPoint -> HeatPoint -> bool.

Lemma clamp_iter_length_with (st : ClampState) (i : nat) :
  length (points (clamp_iter_with near st i)) = length (points st).
Proof.
  unfold clamp_iter_with. destruct (nth_error (points st) i); [|reflexivity].
  destruct (clamp_target_with near _ _ _); [|reflexivity].
  apply set_nth_length.
Qed.

Lemma clamp_iter_other_with (st : ClampState) (i j : nat) :
  i <> j ->
  nth_error (points (clamp_iter_with near st i)) j = nth_error (points st) j.
Proof.
  intros H. unfold clamp_iter_with.
  destruct (nth_error (points st) i); [|reflexivity].
  destruct (clamp_target_with near _ _ _); [|reflexivity].
  now apply set_nth_other.
Qed.

Lemma clamp_iter_same_with (st : ClampState) (i : nat) (hp : HeatPoint) :
  nth_error (points st) i = Some hp ->
  nth_error (points (clamp_iter_with near st i)) i
  = Some (clamp_result_with near (points st) i hp).
Proof.
  intros H. unfold clamp_iter_with, clamp_result_with. rewrite H.
  destruct (clamp_target_with near _ _ _); [|exact H].
  apply set_nth_same. apply nth_error_Some. now rewrite H.
Qed.

Lemma clamp_fold_length_with (idxs : list nat) (st : ClampState) :
  length (points (fold_left (clamp_iter_with near) idxs st))
  = length (points st).
Proof.
  revert st; induction idxs as [|i idxs IH]; intros st; simpl; [reflexivity|].
  now rewrite IH, clamp_iter_length_with.
Qed.

(** Iterations [k .. k+m-1] leave every other index as it was. *)
Lemma clamp_fold_outside_with (m k j : nat) (st : ClampState) :
  (j < k \/ k + m <= j)%nat ->
  nth_error (points (fold_left (clamp_iter_with near) (seq k m) st)) j
  = nth_error (points st) j.
Proof.
  revert k st; induction m as [|m IH]; intros k st H; simpl; [reflexivity|].
  rewrite IH by lia. apply clamp_iter_other_with. lia.
Qed.

Lemma clamp_length_with (pts : list HeatPoint) :
  length (clamp_with near pts) = length pts.
Proof.
  unfold clamp_with, clamp_loop_with. now rewrite clamp_fold_length_with.
Qed.

(** The list iteration [i] works on. *)
Lemma clamp_state_before_with (pts : list HeatPoint) (i : nat) :
  (i <= length pts)%nat ->
  points (fold_left (clamp_iter_with near) (seq 0 i) (mkClampState pts 0))
  = state_before_with near pts i.
Proof.
  intros Hi.
  set (st := fold_left (clamp_iter_with near) (seq 0 i) (mkClampState pts 0)).
  assert (Efinal : clamp_with near pts
                   = points (fold_left (clamp_iter_with near)
                                       (seq i (length pts - i)) st)).
  { unfold clamp_with, clamp_loop_with, st.
    rewrite <- fold_left_app, <- seq_app.
    do 3 f_equal. lia. }
  apply nth_error_ext. intros j. unfold state_before_with.
  rewrite nth_error_app, length_firstn, clamp_length_with, Nat.min_l
    by exact Hi.
  destruct (Nat.ltb_spec j i) as [Hlt|Hge].
  - rewrite nth_error_firstn.
    destruct (Nat.ltb_spec j i); [|lia].
    rewrite Efinal, clamp_fold_outside_with by lia. reflexivity.
  - rewrite nth_error_skipn. replace (i + (j - i))%nat with j by lia.
    unfold st. now rewrite clamp_fold_outside_with by lia.
Qed.

(** What the in-place loop leaves at index [i]: the body of the loop
    applied to the point, with the points before it already clamped. *)
Lemma clamp_nth_with (pts : list HeatPoint) (i : nat) (hp : HeatPoint) :
  nth_error pts i = Some hp ->
  nth_error (clamp_with near pts) i
  = Some (clamp_result_with near (state_before_with near pts i) i hp).
Proof.
  intros H.
  assert (Hi : (i < length pts)%nat) by (apply nth_error_Some; now rewrite H).
  set (st := fold_left (clamp_iter_with near) (seq 0 i) (mkClampState pts 0)).
  assert (Est : points st = state_before_with near pts i)
    by (apply clamp_state_before_with; lia).
  assert (Efinal : clamp_with near pts
            = points (fold_left (clamp_iter_with near)
                                (seq (S i) (length pts - S i))
                                (clamp_iter_with near st i))).
  { unfold clamp_with, clamp_loop_with, st.
    replace (length pts) with (i + S (length pts - S i))%nat at 1 by lia.
    rewrite seq_app, fold_left_app. reflexivity. }
  rewrite Efinal, clamp_fold_outside_with by lia.
  rewrite <- Est. apply clamp_iter_same_with.
  unfold st. rewrite clamp_fold_outside_with by lia. exact H.
Qed.

(** The in-place pass, point by point. *)
Lemma clamp_map_with (pts : list HeatPoint) :
  clamp_with near pts
  = map (fun ihp : nat * HeatPoint =>
           clamp_result_with near (state_before_with near pts (fst ihp))
                             (fst ihp) (snd ihp))
        (enumerate pts).
Proof.
  apply map_enumerate_nth; [apply clamp_length_with|].
  intros i hp H. now apply clamp_nth_with.
Qed.

Lemma clamp_neighbors_In_with (pts : list HeatPoint) (i : nat) (hp : HeatPoint)
    (r : Z) :
  In r (clamp_neighbors_with near pts i hp) ->
  exists other, In other pts /\ hp_rent other = r.
Proof.
  unfold clamp_neighbors_with. rewrite in_flat_map.
  intros ([j other] & Hin & H).
  apply enumerate_In in Hin.
  destruct (i =? j)%nat; [contradiction|].
  destruct (near hp other); [|contradiction].
  destruct H as [<-|[]]. eauto.
Qed.

Lemma clamp_target_Some_with (pts : list HeatPoint) (i : nat) (hp : HeatPoint)
    (m : Z) :
  clamp_target_with near pts i hp = Some m <->
  (hp_count hp < CLAMP_MAX_N)%nat
  /\ clamp_neighbors_with near pts i hp <> []
  /\ m = upper_median (clamp_neighbors_with near pts i hp)
  /\ exceeds (hp_rent hp) m = true.
Proof.
  unfold clamp_target_with.
  destruct (Nat.leb_spec CLAMP_MAX_N (hp_count hp)) as [Hc|Hc].
  { split; [discriminate|]. intros [H _]. lia. }
  destruct (clamp_neighbors_with near pts i hp) as [|r rs] eqn:E.
  { simpl. split; [discriminate|]. intros (_ & H & _). contradiction. }
  cbn [length Nat.leb]. cbv zeta.
  destruct (exceeds (hp_rent hp) (upper_median (r :: rs))) eqn:Ex.
  - split.
    + intros [= <-]. repeat split; auto. discriminate.
    + intros (_ & _ & -> & _). reflexivity.
  - split; [discriminate|]. intros (_ & _ & -> & H). congruence.
Qed.

Lemma clamp_target_rent_with (pts : list HeatPoint) (i : nat) (hp : HeatPoint)
    (m : Z) :
  clamp_target_with near pts i hp = Some m ->
  exists other, In other pts /\ hp_rent other = m.
Proof.
  rewrite clamp_target_Some_with. intros (_ & Hne & -> & _).
  apply (clamp_neighbors_In_with pts i hp). now apply upper_median_In.
Qed.

(** The pass only copies rents: every rent of the list after an iteration
    is a rent of the list before it. *)
Lemma clamp_iter_rents_with (st : ClampState) (i : nat) (hp' : HeatPoint) :
  In hp' (points (clamp_iter_with near st i)) ->
  exists hp, In hp (points st) /\ hp_rent hp' = hp_rent hp.
Proof.
  unfold clamp_iter_with.
  destruct (nth_error (points st) i) as [hp|] eqn:E; [|eauto].
  destruct (clamp_target_with near (points st) i hp) as [m|] eqn:Et; [|eauto].
  cbn [points]. intros H. apply set_nth_In in H as [->|H]; [|eauto].
  destruct (clamp_target_rent_with _ _ _ _ Et) as (other & Hin & <-). eauto.
Qed.

Lemma clamp_fold_rents_with (idxs : list nat) (st : ClampState)
    (hp' : HeatPoint) :
  In hp' (points (fold_left (clamp_iter_with near) idxs st)) ->
  exists hp, In hp (points st) /\ hp_rent hp' = hp_rent hp.
Proof.
  revert st; induction idxs as [|i idxs IH]; intros st; simpl; [eauto|].
  intros H. apply IH in H as (hp1 & H1 & E1).
  apply clamp_iter_rents_with in H1 as (hp & H & E).
  exists hp. split; congruence.
Qed.

Lemma clamp_rents_with (pts : list HeatPoint) (hp' : HeatPoint) :
  In hp' (clamp_with near pts) ->
  exists hp, In hp pts /\ hp_rent hp' = hp_rent hp.
Proof. apply clamp_fold_rents_with. Qed.

Lemma state_before_rents_with (pts : list HeatPoint) (i : nat)
    (hp' : HeatPoint) :
  In hp' (state_before_with near pts i) ->
  exists hp, In hp pts /\ hp_rent hp' = hp_rent hp.
Proof.
  unfold state_before_with. rewrite in_app_iff. intros [H|H].
  - apply In_firstn, clamp_rents_with in H. exact H.
  - apply In_skipn in H. eauto.
Qed.

(** The list the inner loop builds holds the rents of the points the test
    selects. *)
Lemma clamp_neighbors_with_rents (pts : list HeatPoint) (i : nat)
    (hp : HeatPoint) :
  clamp_neighbors_with near pts i hp = neighbor_rents near pts i hp.
Proof.
  unfold clamp_neighbors_with, neighbor_rents.
  induction (enumerate pts) as [|[j other] js IH]; simpl; [reflexivity|].
  rewrite IH, (Nat.eqb_sym j i).
  destruct (i =? j)%nat; [reflexivity|].
  destruct (near hp other); reflexivity.
Qed.

(** What the body of the loop does to one point, on any list. *)
Lemma clamp_result_with_spec (pts : list HeatPoint) (i : nat)
    (hp : HeatPoint) :
  let neighbors := neighbor_rents near pts i hp in
  let neighbor_med := upper_median neighbors in
  let hp' := clamp_result_with near pts i hp in
  hp_lat hp' = hp_lat hp /\ hp_lng hp' = hp_lng hp
  /\ hp_count hp' = hp_count hp
  /\ ((forall other, In other pts -> 0 <= hp_rent other) ->
      hp_rent hp' <= hp_rent hp)
  /\ ((10 <= hp_count hp)%nat -> hp_rent hp' = hp_rent hp)
  /\ (neighbors = [] -> hp_rent hp' = hp_rent hp)
  /\ ((hp_count hp < 10)%nat -> neighbors <> [] ->
      is_upper_median neighbor_med neighbors
      /\ ((inject_Z neighbor_med * 1.50 < inject_Z (hp_rent hp))%Q ->
          hp_rent hp' = neighbor_med)
      /\ (~ (inject_Z neighbor_med * 1.50 < inject_Z (hp_rent hp))%Q ->
          hp_rent hp' = hp_rent hp)).
Proof.
  intros neighbors neighbor_med hp'. unfold hp', clamp_result_with.
  change 10%nat with CLAMP_MAX_N. change 1.50%Q with CLAMP_THRESHOLD.
  assert (En : clamp_neighbors_with near pts i hp = neighbors)
    by apply clamp_neighbors_with_rents.
  destruct (clamp_target_with near pts i hp) as [m|] eqn:E.
  - assert (E' := E).
    apply clamp_target_Some_with in E as (Hc & Hne & -> & Hex).
    rewrite En in Hne, Hex |- *. fold neighbor_med in Hex |- *.
    cbn [set_rent hp_lat hp_lng hp_count hp_rent].
    repeat split; try reflexivity.
    + intros Hpos.
      destruct (clamp_target_rent_with _ _ _ _ E') as (o & Ho & Eo).
      apply Hpos in Ho. apply exceeds_spec in Hex.
      rewrite En in Eo. fold neighbor_med in Eo. lia.
    + intros; lia.
    + intros; contradiction.
    + now apply upper_median_In.
    + now apply upper_median_rank.
    + now apply upper_median_rank.
    + intros Hn. apply exceeds_Qlt in Hex. contradiction.
  - repeat split; try reflexivity; try lia.
    + now apply upper_median_In.
    + now apply upper_median_rank.
    + now apply upper_median_rank.
    + intros Hex. exfalso.
      assert (H2 : clamp_target_with near pts i hp = Some neighbor_med).
      { apply clamp_target_Some_with. rewrite En.
        repeat split; auto. now apply exceeds_Qlt. }
      congruence.
Qed.

(** The loop body meets the specification at every index, on a list whose
    rents are not negative. *)
Lemma clamp_result_with_ok (pts : list HeatPoint) (i : nat)
    (hp : HeatPoint) :
  (forall other, In other pts -> 0 <= hp_rent other) ->
  clamp_point_ok near pts (i, hp)
    (clamp_result_with near (state_before_with near pts i) i hp).
Proof.
  intros Hpos. unfold clamp_point_ok. cbn [fst snd].
  destruct (clamp_result_with_spec (state_before_with near pts i) i hp)
    as (H1 & H2 & H3 & H4 & H5 & H6 & H7).
  repeat split; try assumption; try (now apply H7).
  apply H4. intros other Ho.
  apply state_before_rents_with in Ho as (o & Ho & ->). now apply Hpos.
Qed.
End ClampWith.

(** With the exact test the pass is the pass of the pipelines above. *)
Lemma clamp_with_exact (pts : list HeatPoint) :
  clamp_with (within CLAMP_RADIUS) pts = clamp pts.
Proof. reflexivity. Qed.



(** ** Occupancy and the fields the passes keep *)

Lemma map_snd_enumerate {A : Type} (l : list A) : map snd (enumerate l) = l.
Proof.
  unfold enumerate. generalize 0%nat.
  induction l as [|x l IH]; intros k; simpl; [reflexivity|].
  now rewrite IH.
Qed.

Lemma map_enumerate_keep {A B : Type} (f : nat * A -> A) (g : A -> B)
    (l : list A) :
  (forall i x, g (f (i, x)) = g x) ->
  map g (map f (enumerate l)) = map g l.
Proof.
  intros H. rewrite map_map. rewrite <- (map_snd_enumerate l) at 2.
  rewrite map_map. apply map_ext. intros [i x]. apply H.
Qed.

Lemma aggregate_counts (value : list Listing -> Z)
    (cells : list (CellKey * list Listing)) :
  Forall (fun hp => (MIN_CELL_COUNT <= hp_count hp)%nat)
         (heat_points_acc (aggregate value cells)).
Proof.
  rewrite aggregate_map. apply Forall_forall. intros hp H.
  apply in_map_iff in H as (cell & <- & Hc).
  apply filter_In in Hc as [_ Hc].
  destruct (heat_point_of_fields value cell) as [_ ->].
  now apply Nat.leb_le.
Qed.

Lemma smooth_coords_count (weight : HeatPoint -> HeatPoint -> R)
    (pts : list HeatPoint) :
  map coords_count (smooth weight pts) = map coords_count pts.
Proof.
  unfold smooth. apply map_enumerate_keep. reflexivity.
Qed.

Lemma clamp_result_coords_count (pts : list HeatPoint) (i : nat)
    (hp : HeatPoint) :
  coords_count (clamp_result pts i hp) = coords_count hp.
Proof. unfold clamp_result. now destruct (clamp_target pts i hp). Qed.

Lemma clamp_coords_count (pts : list HeatPoint) :
  map coords_count (clamp pts) = map coords_count pts.
Proof.
  rewrite clamp_map. apply map_enumerate_keep.
  intros i hp. apply clamp_result_coords_count.
Qed.

Lemma insert_hp_perm (x : HeatPoint) (l : list HeatPoint) :
  Permutation (insert_hp x l) (x :: l).
Proof.
  induction l as [|y l IH]; simpl; [reflexivity|].
  destruct (key_lt y x); [|reflexivity].
  rewrite IH. apply perm_swap.
Qed.

Lemma sort_heat_points_perm (l : list HeatPoint) :
  Permutation (sort_heat_points l) l.
Proof.
  induction l as [|x l IH]; simpl; [reflexivity|].
  rewrite insert_hp_perm. now constructor.
Qed.

Lemma counts_of_coords_count (pts pts' : list HeatPoint) (n : nat) :
  map coords_count pts' = map coords_count pts ->
  Forall (fun hp => (n <= hp_count hp)%nat) pts ->
  Forall (fun hp => (n <= hp_count hp)%nat) pts'.
Proof.
  intros E H.
  assert (Ec : map hp_count pts' = map hp_count pts).
  { change hp_count with (fun hp => snd (coords_count hp)).
    rewrite <- !(map_map coords_count snd). now rewrite E. }
  rewrite Forall_forall in *. intros hp' Hin.
  apply (in_map hp_count) in Hin. rewrite Ec in Hin.
  apply in_map_iff in Hin as (hp & <- & Hin). now apply H.
Qed.

(** C5.  Every heat point the aggregation emits has count at least
    [MIN_CELL_COUNT = 2], in both scripts; the smoothing pass (with either
    kernel) and the clamping pass return, index by index, points with the
    latitude, longitude and count they received; and every point of the
    sorted output of either pipeline has count at least 2. *)
Theorem C5_occupancy_and_frozen_fields (all_raw : list Listing) :
  (forall non_rs,
      Forall (fun hp => (MIN_CELL_COUNT <= hp_count hp)%nat)
             (heat_points_baseline non_rs)
      /\ Forall (fun hp => (MIN_CELL_COUNT <= hp_count hp)%nat)
                (heat_points_s8 non_rs))
  /\ (forall pts,
        map coords_count (smooth weight_iso pts) = map coords_count pts
        /\ map coords_count (smooth weight_aniso pts) = map coords_count pts
        /\ map coords_count (clamp pts) = map coords_count pts)
  /\ Forall (fun hp => (MIN_CELL_COUNT <= hp_count hp)%nat)
            (pipeline_baseline all_raw)
  /\ Forall (fun hp => (MIN_CELL_COUNT <= hp_count hp)%nat)
            (pipeline_s8 all_raw).
Proof.
  split; [intros non_rs; split; apply aggregate_counts|].
  split; [intros pts; auto using smooth_coords_count, clamp_coords_count|].
  unfold pipeline_baseline, pipeline_s8.
  split;
    apply (Permutation_Forall (Permutation_sym (sort_heat_points_perm _)));
    apply (counts_of_coords_count _ _ _ (clamp_coords_count _));
    apply (counts_of_coords_count _ _ _ (smooth_coords_count _ _));
    apply aggregate_counts.
Qed.

(** ** Output ordering and runs *)






Lemma enumerate_length {A : Type} (l : list A) :
  length (enumerate l) = length l.
Proof.
  unfold enumerate. rewrite length_combine, length_seq. apply Nat.min_id.
Qed.









(** ** Rents stay inside the bounds of the listing filter *)

Lemma py_round_bounds (x : Q) (lo hi : Z) :
  (inject_Z lo <= x <= inject_Z hi)%Q -> lo <= py_round x <= hi.
Proof.
  intros [Hlo Hhi]. unfold py_round. cbv zeta.
  assert (Hf := Qfloor_le x). assert (Hf' := Qlt_floor x).
  set (f := Qfloor x) in *.
  assert (H1 : lo <= f).
  { apply Z.lt_succ_r. unfold Z.succ. rewrite Zlt_Qlt.
    now apply Qle_lt_trans with x. }
  assert (H2 : f <= hi) by (rewrite Zle_Qle; now apply Qle_trans with x).
  assert (H3 : (1 # 2 <= x - inject_Z f)%Q -> f + 1 <= hi).
  { intros Hd. apply Z.lt_succ_r. unfold Z.succ.
    apply Zorder.Zsucc_lt_compat. rewrite Zlt_Qlt.
    apply Qlt_le_trans with x; [|exact Hhi]. Lqa.lra. }
  destruct (Qcompare_spec (x - inject_Z f) (1 # 2)) as [He|Hl|Hg].
  - assert (f + 1 <= hi) by (apply H3; rewrite He; apply Qle_refl).
    destruct (Z.even f); lia.
  - lia.
  - assert (f + 1 <= hi) by (apply H3; now apply Qlt_le_weak). lia.
Qed.

Lemma sum_bounds (l : list Z) (lo hi : Z) :
  (forall r, In r l -> lo <= r <= hi) ->
  lo * Z.of_nat (length l) <= sum l <= hi * Z.of_nat (length l).
Proof.
  induction l as [|x l IH]; intros H; [simpl; lia|].
  assert (Hx := H x (or_introl eq_refl)).
  assert (IH' := IH (fun r Hr => H r (or_intror Hr))).
  change (sum (x :: l)) with (x + sum l).
  change (length (x :: l)) with (S (length l)). lia.
Qed.

Lemma mean_bounds (l : list Z) (lo hi : Z) :
  l <> [] -> (forall r, In r l -> lo <= r <= hi) ->
  (inject_Z lo <= mean l <= inject_Z hi)%Q.
Proof.
  intros Hne H. destruct (sum_bounds l lo hi H) as [H1 H2]. unfold mean.
  assert (Hn : (0 < inject_Z (Z.of_nat (length l)))%Q).
  { rewrite <- (Zlt_Qlt 0). destruct l; [contradiction|simpl; lia]. }
  split.
  - apply Qle_shift_div_l; [exact Hn|].
    rewrite <- inject_Z_mult, <- Zle_Qle. exact H1.
  - apply Qle_shift_div_r; [exact Hn|].
    rewrite <- inject_Z_mult, <- Zle_Qle. exact H2.
Qed.

Lemma sumQ_bounds (l : list Q) (lo hi : Q) :
  (forall q, In q l -> (lo <= q <= hi)%Q) ->
  (lo * inject_Z (Z.of_nat (length l)) <= sumQ l
   <= hi * inject_Z (Z.of_nat (length l)))%Q.
Proof.
  induction l as [|x l IH]; intros H.
  - change (sumQ []) with 0%Q.
    change (inject_Z (Z.of_nat (length (@nil Q)))) with 0%Q.
    split; Lqa.lra.
  - assert (Hx := H x (or_introl eq_refl)).
    assert (IH' := IH (fun r Hr => H r (or_intror Hr))).
    change (sumQ (x :: l)) with (x + sumQ l)%Q.
    change (length (x :: l)) with (S (length l)).
    rewrite Nat2Z.inj_succ. unfold Z.succ. rewrite inject_Z_plus.
    change (inject_Z 1) with 1%Q. split; Lqa.lra.
Qed.

Lemma meanQ_bounds (l : list Q) (lo hi : Q) :
  l <> [] -> (forall q, In q l -> (lo <= q <= hi)%Q) ->
  (lo <= meanQ l <= hi)%Q.
Proof.
  intros Hne H. destruct (sumQ_bounds l lo hi H) as [H1 H2]. unfold meanQ.
  assert (Hn : (0 < inject_Z (Z.of_nat (length l)))%Q).
  { rewrite <- (Zlt_Qlt 0). destruct l; [contradiction|simpl; lia]. }
  split.
  - apply Qle_shift_div_l; assumption.
  - apply Qle_shift_div_r; assumption.
Qed.

Lemma dict_fold_nonempty {K V A : Type} (eqb : K -> K -> bool)
    (key : A -> K) (val : A -> V) (xs : list A) (d : list (K * list V)) :
  Forall (fun e => snd e <> []) d ->
  Forall (fun e => snd e <> [])
         (fold_left (fun d x => dict_append eqb (key x) (val x) d) xs d).
Proof.
  revert d; induction xs as [|x xs IH]; intros d H; simpl; [exact H|].
  apply IH. now apply dict_append_nonempty.
Qed.

Lemma cell_rent_bounds (lsts : list Listing) (lo hi : Z) :
  lsts <> [] -> (forall l, In l lsts -> lo <= rent_of l <= hi) ->
  (inject_Z lo <= cell_rent lsts <= inject_Z hi)%Q.
Proof.
  intros Hne H. unfold cell_rent. cbv zeta.
  destruct (1 <? length (by_nhood lsts))%nat eqn:E.
  - apply meanQ_bounds.
    + destruct (by_nhood lsts); [discriminate|discriminate].
    + intros q Hq. apply in_map_iff in Hq as ([k rents] & <- & Hg).
      cbn [snd]. apply mean_bounds.
      * assert (Hall := dict_fold_nonempty label_eqb get_nhood rent_of
                          lsts [] (Forall_nil _)).
        rewrite Forall_forall in Hall. exact (Hall _ Hg).
      * intros r Hr.
        assert (Hf : In r (flat_map snd (by_nhood lsts)))
          by (apply in_flat_map; exists (k, rents); auto).
        unfold by_nhood in Hf.
        apply (Permutation_in _ (dict_fold_values _ _ _ _ _)) in Hf.
        simpl in Hf. apply in_map_iff in Hf as (l & <- & Hl). auto.
  - apply mean_bounds.
    + destruct lsts; [contradiction|discriminate].
    + intros r Hr. apply in_map_iff in Hr as (l & <- & Hl). auto.
Qed.

Lemma non_rs_subset (rule : Listing -> option Rule) (cohort : list Listing)
    (l : Listing) :
  In l (non_rs_acc (rs_loop rule cohort)) -> In l cohort.
Proof. rewrite rs_loop_non_rs, filter_In. tauto. Qed.

Lemma cleaned_rent_bounds (raw : list Listing) (l : Listing) :
  In l (cleaned raw) -> 500 <= rent_of l <= 25000.
Proof.
  intros H. destruct (cleaned_fields raw l H) as (? & ? & r & _ & _ & E & Hr).
  unfold rent_of, get_rent. now rewrite E.
Qed.

(** A representative value that stays between the rents of its cell gives
    heat points between the rents of the listings. *)
Lemma aggregate_rent_bounds (value : list Listing -> Z)
    (non_rs : list Listing) (lo hi : Z) :
  (forall lsts, lsts <> [] ->
     (forall l, In l lsts -> lo <= rent_of l <= hi) ->
     lo <= value lsts <= hi) ->
  (forall l, In l non_rs -> lo <= rent_of l <= hi) ->
  forall hp, In hp (heat_points_acc (aggregate value (grid_cells non_rs))) ->
             lo <= hp_rent hp <= hi.
Proof.
  intros Hv Hl hp. rewrite aggregate_map, in_map_iff.
  intros (cell & <- & Hc). apply filter_In in Hc as [Hin Hocc].
  destruct (heat_point_of_fields value cell) as [-> _].
  unfold occupied, MIN_CELL_COUNT in Hocc. apply Nat.leb_le in Hocc.
  apply Hv.
  - destruct (snd cell); [simpl in Hocc; lia|discriminate].
  - intros l Hlin. apply Hl.
    apply (Permutation_in _ (grid_cells_values non_rs)).
    apply in_flat_map. exists cell. auto.
Qed.

Lemma med_rent_bounds (lsts : list Listing) (lo hi : Z) :
  lsts <> [] -> (forall l, In l lsts -> lo <= rent_of l <= hi) ->
  lo <= med_rent lsts <= hi.
Proof.
  intros Hne H. unfold med_rent.
  assert (Hin : In (upper_median (map rent_of lsts)) (map rent_of lsts)).
  { apply upper_median_In. destruct lsts; [contradiction|discriminate]. }
  apply in_map_iff in Hin as (l & <- & Hl). auto.
Qed.

Lemma smooth_neighbor_rents_In (pts : list HeatPoint) (i : nat)
    (hp : HeatPoint) (r : Z) :
  In r (smooth_neighbor_rents pts i hp) ->
  exists other, In other pts /\ hp_rent other = r.
Proof.
  unfold smooth_neighbor_rents. rewrite in_flat_map.
  intros ([j other] & Hin & H). apply enumerate_In in Hin.
  destruct (i =? j)%nat; [contradiction|].
  destruct (within SMOOTH_RADIUS hp other && apart hp other);
    [|contradiction].
  destruct H as [<-|[]]. eauto.
Qed.

Lemma smooth_rent_bounds (weight : HeatPoint -> HeatPoint -> R)
    (pts : list HeatPoint) (lo hi : Z) :
  (forall hp other, apart hp other = true -> (0 < weight hp other)%R) ->
  (forall hp, In hp pts -> lo <= hp_rent hp <= hi) ->
  forall hp', In hp' (smooth weight pts) -> lo <= hp_rent hp' <= hi.
Proof.
  intros Hw H hp'. unfold smooth. rewrite in_map_iff.
  intros ([i hp] & <- & Hin). apply enumerate_In in Hin. cbn [hp_rent].
  apply (smoothed_rent_bounds weight Hw i hp lo hi pts); [now apply H|].
  intros r Hr. apply smooth_neighbor_rents_In in Hr as (o & Ho & <-).
  now apply H.
Qed.

(** In both pipelines the points that reach the clamping pass have rents
    inside the bounds of the listing filter; in particular they are not
    negative. *)
Lemma pre_clamp_rent_bounds (all_raw : list Listing) (hp : HeatPoint) :
  In hp (smooth weight_iso
           (heat_points_baseline (non_rs_baseline (cleaned all_raw))))
  \/ In hp (smooth weight_aniso
              (heat_points_s8 (non_rs_s8 (cleaned all_raw)))) ->
  500 <= hp_rent hp <= 25000.
Proof.
  intros [H|H].
  - revert hp H. apply smooth_rent_bounds; [exact weight_iso_pos|].
    apply aggregate_rent_bounds;
      [exact (fun lsts => med_rent_bounds lsts 500 25000)|].
    intros l Hl. apply (cleaned_rent_bounds all_raw).
    now apply non_rs_subset in Hl.
  - revert hp H. apply smooth_rent_bounds; [exact weight_aniso_pos|].
    apply aggregate_rent_bounds.
    + intros lsts Hne Hb. apply py_round_bounds.
      now apply cell_rent_bounds.
    + intros l Hl. apply (cleaned_rent_bounds all_raw).
      now apply non_rs_subset in Hl.
Qed.

(** Hence the clamping pass of either pipeline, with the exact test, meets
    the specification on every run. *)
Lemma pipeline_clamp_ok (all_raw : list Listing) :
  let pre_baseline :=
    smooth weight_iso
           (heat_points_baseline (non_rs_baseline (cleaned all_raw))) in
  let pre_s8 :=
    smooth weight_aniso (heat_points_s8 (non_rs_s8 (cleaned all_raw))) in
  Forall2 (clamp_point_ok (within CLAMP_RADIUS) pre_baseline)
          (enumerate pre_baseline) (clamp pre_baseline)
  /\ Forall2 (clamp_point_ok (within CLAMP_RADIUS) pre_s8)
             (enumerate pre_s8) (clamp pre_s8).
Proof.
  intros pre_baseline pre_s8.
  split; rewrite <- clamp_with_exact, clamp_map_with;
    apply Forall2_map_self; intros [i hp] _;
    cbn [fst snd]; apply clamp_result_with_ok; intros other Hin.
  - assert (H := pre_clamp_rent_bounds all_raw other (or_introl Hin)). lia.
  - assert (H := pre_clamp_rent_bounds all_raw other (or_intror Hin)). lia.
Qed.

(** ** Cells hold exactly the records of their key *)

Section DictCells.
Context {K V A : Type} (eqb : K -> K -> bool).
Hypothesis eqb_refl : forall a, eqb a a = true.
Hypothesis eqb_sym : forall a b, eqb a b = eqb b a.
Hypothesis eqb_trans :
  forall a b c, eqb a b = true -> eqb b c = true -> eqb a c = true.
Variables (key : A -> K) (val : A -> V).

(** The values a key has received from a list of records. *)
Let received (k : K) (xs : list A) : list V :=
  map val (filter (fun x => eqb k (key x)) xs).

(** The invariant of the loop that fills the dictionary: keys are distinct,
    every entry holds what its key received, every record has an entry. *)
Let filled (d : list (K * list V)) (xs : list A) : Prop :=
  keys_distinct eqb d
  /\ (forall e, In e d -> snd e = received (fst e) xs)
  /\ (forall x, In x xs -> exists e, In e d /\ eqb (fst e) (key x) = true).

Lemma eqb_false_trans (a b c : K) :
  eqb a b = true -> eqb a c = false -> eqb b c = false.
Proof.
  intros H1 H2. destruct (eqb b c) eqn:E; [|reflexivity].
  rewrite (eqb_trans a b c H1 E) in H2. discriminate.
Qed.

Lemma dict_append_keys (k0 : K) (v : V) (d : list (K * list V))
    (e : K * list V) :
  In e (dict_append eqb k0 v d) ->
  fst e = k0 \/ exists e', In e' d /\ fst e' = fst e.
Proof.
  induction d as [|[k vs] d IH]; simpl.
  - intros [<-|[]]. now left.
  - destruct (eqb k0 k).
    + intros [<-|H]; right; [exists (k, vs)|exists e]; simpl; auto.
    + intros [<-|H]; [right; exists (k, vs); simpl; auto|].
      destruct (IH H) as [E|(e' & He' & E)]; [now left|].
      right. exists e'. simpl; auto.
Qed.

Lemma dict_append_distinct (k0 : K) (v : V) (d : list (K * list V)) :
  keys_distinct eqb d -> keys_distinct eqb (dict_append eqb k0 v d).
Proof.
  induction d as [|[k vs] d IH]; simpl.
  - intros _. split; [contradiction|exact I].
  - intros [Hk Hd]. destruct (eqb k0 k) eqn:E; simpl.
    + split; assumption.
    + split; [|now apply IH]. intros e He.
      apply dict_append_keys in He as [->|(e' & He' & <-)].
      * now rewrite eqb_sym.
      * now apply Hk.
Qed.

(** An entry after the append is an entry from before, extended when its
    key is the appended key, or the new entry of a key that had none. *)
Lemma dict_append_entry (k0 : K) (v : V) (d : list (K * list V))
    (e : K * list V) :
  keys_distinct eqb d ->
  In e (dict_append eqb k0 v d) ->
  (exists vs, In (fst e, vs) d
              /\ snd e = vs ++ (if eqb k0 (fst e) then [v] else []))
  \/ (e = (k0, [v]) /\ forall e', In e' d -> eqb k0 (fst e') = false).
Proof.
  induction d as [|[k vs] d IH]; simpl.
  - intros _ [<-|[]]. right. split; [reflexivity|contradiction].
  - intros [Hk Hd]. destruct (eqb k0 k) eqn:E; simpl.
    + intros [<-|H]; left.
      * exists vs. cbn [fst snd]. rewrite E. auto.
      * exists (snd e). rewrite <- surjective_pairing.
        split; [now right|].
        rewrite eqb_sym in E.
        rewrite (eqb_false_trans k k0 (fst e) E (Hk e H)).
        now rewrite app_nil_r.
    + intros [<-|H].
      * left. exists vs. cbn [fst snd]. rewrite E, app_nil_r. auto.
      * destruct (IH Hd H) as [(vs' & Hin & Es)|[-> Hno]].
        -- left. exists vs'. auto.
        -- right. split; [reflexivity|].
           intros e' [<-|He']; [exact E|now apply Hno].
Qed.

Lemma dict_append_has_key (k0 : K) (v : V) (d : list (K * list V)) :
  exists e, In e (dict_append eqb k0 v d) /\ eqb (fst e) k0 = true.
Proof.
  induction d as [|[k vs] d (e & He & E)]; simpl.
  - exists (k0, [v]). split; [now left|apply eqb_refl].
  - destruct (eqb k0 k) eqn:Ek.
    + exists (k, vs ++ [v]). split; [now left|]. now rewrite eqb_sym.
    + exists e. split; [now right|exact E].
Qed.

Lemma dict_append_keeps_key (k0 : K) (v : V) (d : list (K * list V))
    (e : K * list V) :
  In e d -> exists e', In e' (dict_append eqb k0 v d) /\ fst e' = fst e.
Proof.
  induction d as [|[k vs] d IH]; simpl; [contradiction|].
  destruct (eqb k0 k).
  - intros [<-|H]; [exists (k, vs ++ [v])|exists e]; simpl; auto.
  - intros [<-|H]; [exists (k, vs); simpl; auto|].
    destruct (IH H) as (e' & He' & E). exists e'. simpl; auto.
Qed.

Lemma received_snoc (k : K) (xs : list A) (x : A) :
  received k (xs ++ [x])
  = received k xs ++ (if eqb k (key x) then [val x] else []).
Proof.
  unfold received. rewrite filter_app, map_app. simpl.
  now destruct (eqb k (key x)).
Qed.

Lemma dict_append_filled (d : list (K * list V)) (xs : list A) (x : A) :
  filled d xs -> filled (dict_append eqb (key x) (val x) d) (xs ++ [x]).
Proof.
  intros (Hd & He & Hx). split; [now apply dict_append_distinct|]. split.
  - intros e Hin. rewrite received_snoc.
    destruct (dict_append_entry _ _ _ _ Hd Hin)
      as [(vs & Hin' & ->)|[-> Hno]].
    + assert (Ev := He _ Hin'). cbn [fst snd] in Ev.
      now rewrite Ev, (eqb_sym (fst e)).
    + cbn [fst snd]. rewrite eqb_refl.
      assert (Hnil : received (key x) xs = []); [|now rewrite Hnil].
      unfold received. rewrite filter_nil; [reflexivity|].
      intros x' Hx'. destruct (Hx x' Hx') as (e' & He' & E').
      destruct (eqb (key x) (key x')) eqn:E; [|reflexivity].
      rewrite eqb_sym in E'. assert (Hf := Hno e' He').
      rewrite (eqb_trans _ _ _ E E') in Hf. discriminate.
  - intros x' Hin. apply in_app_or in Hin as [Hin|[<-|[]]].
    + destruct (Hx x' Hin) as (e & He0 & E).
      destruct (dict_append_keeps_key (key x) (val x) d e He0)
        as (e' & He' & Ek).
      exists e'. now rewrite Ek.
    + apply dict_append_has_key.
Qed.

Lemma dict_fold_filled (xs ys : list A) (d : list (K * list V)) :
  filled d xs ->
  filled (fold_left (fun d x => dict_append eqb (key x) (val x) d) ys d)
         (xs ++ ys).
Proof.
  revert xs d; induction ys as [|y ys IH]; intros xs d H; simpl.
  - now rewrite app_nil_r.
  - replace (xs ++ y :: ys) with ((xs ++ [y]) ++ ys)
      by (now rewrite <- app_assoc).
    apply IH. now apply dict_append_filled.
Qed.

(** Every entry of the filled dictionary holds the values of exactly the
    records whose key equals its key, in their order. *)
Lemma dict_fold_entry (xs : list A) (e : K * list V) :
  In e (fold_left (fun d x => dict_append eqb (key x) (val x) d) xs []) ->
  snd e = map val (filter (fun x => eqb (fst e) (key x)) xs).
Proof.
  intros H.
  assert (F : filled [] []).
  { split; [exact I|]. split; intros ? []. }
  destruct (dict_fold_filled [] xs [] F) as (_ & He & _). now apply He.
Qed.
End DictCells.

(** ** The coarse cells of the local median index *)

Lemma key2_eqb_refl (a : Q * Q) : key2_eqb a a = true.
Proof. unfold key2_eqb. now rewrite !Qeq_bool_refl. Qed.

Lemma key2_eqb_sym (a b : Q * Q) : key2_eqb a b = key2_eqb b a.
Proof.
  unfold key2_eqb.
  now rewrite (Qeq_bool_comm (fst a)), (Qeq_bool_comm (snd a)).
Qed.

Lemma key2_eqb_trans (a b c : Q * Q) :
  key2_eqb a b = true -> key2_eqb b c = true -> key2_eqb a c = true.
Proof.
  unfold key2_eqb. rewrite !andb_true_iff, !Qeq_bool_iff.
  intros [H1 H2] [H3 H4]. split; etransitivity; eassumption.
Qed.

(** A coarse cell of the index holds the rents of exactly the listings of
    the cohort that round to its key. *)
Lemma spatial_cell_rents (cohort : list Listing) (k : Q * Q)
    (rents : list Z) :
  In (k, rents) (spatial_cells cohort) ->
  rents = map rent_of
              (filter (fun l => key2_eqb k (spatial_key (lat_of l) (lng_of l)))
                      cohort).
Proof.
  intros H.
  apply (dict_fold_entry key2_eqb key2_eqb_refl key2_eqb_sym key2_eqb_trans
           (fun l => spatial_key (lat_of l) (lng_of l)) rent_of cohort
           (k, rents) H).
Qed.

(** A coarse cell with fewer than [MIN_SAMPLE] listings stores no median. *)
Lemma thin_cell_no_median (cohort : list Listing) (lat lng : Q) :
  (length (coarse_cell cohort lat lng) < MIN_SAMPLE)%nat ->
  get_spatial_median (spatial_medians cohort) lat lng = None.
Proof.
  intros Hthin. unfold get_spatial_median.
  destruct (key2_get _ _) as [m|] eqn:E; [exfalso|reflexivity].
  apply key2_get_In in E as (k' & Hin & Ek).
  apply medians_of_In in Hin as (rents & Hc & Hlen & _).
  apply spatial_cell_rents in Hc. subst rents.
  rewrite length_map in Hlen. unfold coarse_cell, MIN_SAMPLE in Hthin.
  rewrite (filter_ext _ (fun l => key2_eqb k' (spatial_key (lat_of l)
                                                            (lng_of l))))
    in Hthin; [lia|].
  intros l. destruct (key2_eqb k' _) eqn:E1.
  - now apply key2_eqb_trans with k'.
  - rewrite key2_eqb_sym in Ek.
    destruct (key2_eqb (spatial_key lat lng) _) eqn:E2; [|reflexivity].
    rewrite (key2_eqb_trans _ _ _ Ek E2) in E1. discriminate.
Qed.

(** C9.  On the cohort the listing filter produces and the index built from
    it, a larger ratio threshold flags at least as many records, in the S8
    filter (ratio rule alone) and in the baseline filter (digit-pattern rule
    or ratio rule); a record whose coarse cell has no stored median is not
    flagged by the ratio rule, whatever the threshold; and a coarse cell
    with fewer than [MIN_SAMPLE = 3] listings has no stored median. *)
Theorem C9_ratio_threshold_monotone (raw : list Listing) (tau1 tau2 : Q) :
  (tau1 <= tau2)%Q ->
  (rs_flagged (rs_filter_s8 tau1 (cleaned raw))
   <= rs_flagged (rs_filter_s8 tau2 (cleaned raw)))%nat
  /\ (rs_flagged (rs_filter_baseline tau1 (cleaned raw))
      <= rs_flagged (rs_filter_baseline tau2 (cleaned raw)))%nat
  /\ (forall index tau l,
        get_spatial_median index (lat_of l) (lng_of l) = None ->
        ratio_rule tau index l = false)
  /\ (forall tau l,
        (length (coarse_cell (cleaned raw) (lat_of l) (lng_of l))
         < MIN_SAMPLE)%nat ->
        ratio_rule tau (spatial_medians (cleaned raw)) l = false).
Proof.
  intros Htau. unfold rs_filter_s8, rs_filter_baseline.
  rewrite !rs_loop_flagged. repeat split.
  - apply filter_length_mono. intros l _.
    apply (proj1 (rs_rules_mono _ l tau1 tau2
                    (cleaned_medians_nonneg raw) Htau)).
  - apply filter_length_mono. intros l _.
    apply (proj2 (rs_rules_mono _ l tau1 tau2
                    (cleaned_medians_nonneg raw) Htau)).
  - intros index tau l H. unfold ratio_rule. now rewrite H.
  - intros tau l H. unfold ratio_rule.
    now rewrite (thin_cell_no_median _ _ _ H).
Qed.

Lemma C9_ratio_threshold_monotone_witness :
  (0.50 <= 0.60)%Q
  /\ (rs_flagged (rs_filter_s8 0.50 (cleaned ratio_cohort))
      <= rs_flagged (rs_filter_s8 0.60 (cleaned ratio_cohort)))%nat.
Proof.
  split; [discriminate|].
  apply (C9_ratio_threshold_monotone ratio_cohort 0.50 0.60). discriminate.
Defined.

(** * Further properties of the scripts *)

(** ** Counters of the cleaning loop *)

Lemma clean_step_counts (st : CleanState) (l : Listing) :
  let st' := clean_step st l in
  removed_no_coords st'
  = (removed_no_coords st + (if no_coords l then 1 else 0))%nat
  /\ removed_high_rent st'
     = (removed_high_rent st + (if high_rent l then 1 else 0))%nat
  /\ removed_bad_type st'
     = (removed_bad_type st + (if bad_type l then 1 else 0))%nat.
Proof.
  unfold clean_step, high_rent, bad_type, no_coords; cbv zeta.
  destruct (falsy (l_lat l) || falsy (l_lng l)), (get_rent l >? 25000),
    (in_set (get_ptype l) BAD_TYPES), (get_rent l <? 500);
    cbn [removed_no_coords removed_high_rent removed_bad_type negb andb];
    repeat split; lia.
Qed.

Lemma clean_fold_counts (ls : list Listing) (st : CleanState) :
  let st' := fold_left clean_step ls st in
  removed_no_coords st' = (removed_no_coords st + count no_coords ls)%nat
  /\ removed_high_rent st' = (removed_high_rent st + count high_rent ls)%nat
  /\ removed_bad_type st' = (removed_bad_type st + count bad_type ls)%nat.
Proof.
  unfold count. revert st; induction ls as [|l ls IH]; intros st; simpl.
  - repeat split; lia.
  - destruct (IH (clean_step st l)) as (-> & -> & ->).
    destruct (clean_step_counts st l) as (-> & -> & ->).
    destruct (no_coords l), (high_rent l), (bad_type l); simpl;
      repeat split; lia.
Qed.

(** Every record takes exactly one of the five ways through the loop. *)
Lemma clean_ways (l : Listing) :
  ((if no_coords l then 1 else 0) + (if high_rent l then 1 else 0)
   + (if bad_type l then 1 else 0) + (if low_rent l then 1 else 0)
   + (if clean_keeps l then 1 else 0) = 1)%nat.
Proof.
  unfold high_rent, bad_type, low_rent, clean_keeps, no_coords.
  destruct (falsy (l_lat l) || falsy (l_lng l)), (get_rent l >? 25000),
    (in_set (get_ptype l) BAD_TYPES), (get_rent l <? 500); reflexivity.
Qed.

Lemma count_ways (ls : list Listing) :
  (count no_coords ls + count high_rent ls + count bad_type ls
   + count low_rent ls + count clean_keeps ls = length ls)%nat.
Proof.
  unfold count. induction ls as [|l ls IH]; simpl; [reflexivity|].
  assert (H := clean_ways l).
  destruct (no_coords l), (high_rent l), (bad_type l), (low_rent l),
    (clean_keeps l); simpl in *; lia.
Qed.

(** X1.  After the cleaning loop each of the three printed counters is the
    number of one-bedroom records that left the loop at its [continue]
    (checked in the order coordinates, rent ceiling, property type), and
    the counters, the records kept and the records dropped for a rent
    below 500 add up to the number of one-bedroom records.  The last group
    has no counter: the printed numbers add up to the input exactly when no
    record was dropped for a low rent. *)
Theorem X1_cleaning_counters (all_raw : list Listing) :
  let st := clean_loop (one_br all_raw) in
  let printed :=
    (removed_no_coords st + removed_high_rent st + removed_bad_type st
     + length (cleaned all_raw))%nat in
  removed_no_coords st = count no_coords (one_br all_raw)
  /\ removed_high_rent st = count high_rent (one_br all_raw)
  /\ removed_bad_type st = count bad_type (one_br all_raw)
  /\ (printed + count low_rent (one_br all_raw))%nat
     = length (one_br all_raw)
  /\ (printed = length (one_br all_raw)
      <-> forall l, In l (one_br all_raw) -> low_rent l = false).
Proof.
  intros st printed. unfold printed, st, clean_loop.
  destruct (clean_fold_counts (one_br all_raw) clean_init) as (E1 & E2 & E3).
  cbn [clean_init removed_no_coords removed_high_rent removed_bad_type] in *.
  rewrite E1, E2, E3, cleaned_filter. cbn [Nat.add].
  assert (H := count_ways (one_br all_raw)).
  fold (count clean_keeps (one_br all_raw)).
  repeat split; try lia.
  - intros Hp l Hl. destruct (low_rent l) eqn:E; [|reflexivity].
    assert (Hc : count low_rent (one_br all_raw) = 0%nat) by lia.
    unfold count in Hc. apply length_zero_iff_nil in Hc.
    assert (Hin : In l (filter low_rent (one_br all_raw)))
      by (apply filter_In; auto).
    rewrite Hc in Hin. contradiction.
  - intros Hno. assert (Hc : count low_rent (one_br all_raw) = 0%nat).
    { unfold count. now rewrite filter_nil. }
    lia.
Qed.

(** ** Counters of the rent-stabilisation filter *)

Lemma rs_fold_by_rule (rule : Listing -> option Rule) (ls : list Listing)
    (st : RsState) :
  let st' := fold_left (rs_step rule) ls st in
  rs_by_odd st' = (rs_by_odd st + count (counted_odd rule) ls)%nat
  /\ rs_by_median st'
     = (rs_by_median st + count (counted_median rule) ls)%nat.
Proof.
  unfold count. revert st; induction ls as [|l ls IH]; intros st; simpl.
  - split; lia.
  - destruct (IH (rs_step rule st l)) as [-> ->].
    unfold rs_step, counted_odd, counted_median.
    destruct (rule l) as [[|]|]; simpl; split; lia.
Qed.

Lemma filter_partition_length {A : Type} (f : A -> bool) (l : list A) :
  (length (filter f l) + length (filter (fun x => negb (f x)) l)
   = length l)%nat.
Proof.
  induction l as [|x l IH]; simpl; [reflexivity|].
  destruct (f x); simpl; lia.
Qed.

(** X2.  In the rent-stabilisation loop of either script every record of
    the cohort is either flagged or appended to [non_rs], which keeps the
    cohort's order.  In the baseline script the two entries of [rs_by_rule]
    add up to [rs_flagged]; a record that matches both rules is counted
    under the digit-pattern rule only, because the ratio rule is tried only
    when the first rule did not fire. *)
Theorem X2_rs_accounting (tau : Q) (cohort : list Listing) :
  let index := spatial_medians cohort in
  let b := rs_filter_baseline tau cohort in
  let s := rs_filter_s8 tau cohort in
  (rs_flagged b + length (non_rs_acc b) = length cohort)%nat
  /\ (rs_flagged s + length (non_rs_acc s) = length cohort)%nat
  /\ (rs_by_odd b + rs_by_median b = rs_flagged b)%nat
  /\ rs_by_odd b = count odd_under_2500 cohort
  /\ rs_by_median b
     = count (fun l => negb (odd_under_2500 l) && ratio_rule tau index l)
             cohort
  /\ rs_flagged s = count (ratio_rule tau index) cohort
  /\ non_rs_acc b
     = filter (fun l => negb (odd_under_2500 l || ratio_rule tau index l))
              cohort
  /\ non_rs_acc s = filter (fun l => negb (ratio_rule tau index l)) cohort.
Proof.
  intros index b s. unfold b, s, rs_filter_baseline, rs_filter_s8.
  fold index.
  set (rb := rs_rule_baseline tau index). set (rs := rs_rule_s8 tau index).
  destruct (rs_fold_by_rule rb cohort (mkRsState 0 0 0 [])) as [Eo Em].
  fold (rs_loop rb cohort) in Eo, Em. cbn [rs_by_odd rs_by_median] in Eo, Em.
  rewrite !rs_loop_flagged, !rs_loop_non_rs, Eo, Em. cbn [Nat.add].
  assert (Fb : forall l, flagged rb l
                         = (odd_under_2500 l || ratio_rule tau index l)).
  { intros l. unfold flagged, rb, rs_rule_baseline.
    now destruct (odd_under_2500 l), (ratio_rule tau index l). }
  assert (Fs : forall l, flagged rs l = ratio_rule tau index l).
  { intros l. unfold flagged, rs, rs_rule_s8.
    now destruct (ratio_rule tau index l). }
  assert (Co : forall l, counted_odd rb l = odd_under_2500 l).
  { intros l. unfold counted_odd, rb, rs_rule_baseline.
    now destruct (odd_under_2500 l), (ratio_rule tau index l). }
  assert (Cm : forall l, counted_median rb l
                         = (negb (odd_under_2500 l) && ratio_rule tau index l)).
  { intros l. unfold counted_median, rb, rs_rule_baseline.
    now destruct (odd_under_2500 l), (ratio_rule tau index l). }
  unfold count.
  rewrite (filter_ext _ _ Co), (filter_ext _ _ Cm), (filter_ext _ _ Fs).
  rewrite (filter_ext (fun l => negb (flagged rb l)) _
             (fun l => f_equal negb (Fb l))).
  rewrite (filter_ext (fun l => negb (flagged rs l)) _
             (fun l => f_equal negb (Fs l))).
  rewrite (filter_ext (flagged rb) _ Fb).
  repeat split; try apply filter_partition_length.
  clearbody index. clear b s rb rs Eo Em Fb Fs Co Cm.
  induction cohort as [|l ls IH]; [reflexivity|].
  cbn [filter].
  destruct (odd_under_2500 l), (ratio_rule tau index l);
    cbn [negb andb orb length]; lia.
Qed.

(** ** The adaptive grid *)

Lemma key3_eqb_refl (a : CellKey) : key3_eqb a a = true.
Proof. destruct a as [[a1 a2] a3]. simpl. now rewrite !Qeq_bool_refl. Qed.

Lemma key3_eqb_sym (a b : CellKey) : key3_eqb a b = key3_eqb b a.
Proof.
  destruct a as [[a1 a2] a3], b as [[b1 b2] b3]. simpl.
  now rewrite (Qeq_bool_comm a1), (Qeq_bool_comm a2), (Qeq_bool_comm a3).
Qed.

Lemma key3_eqb_trans (a b c : CellKey) :
  key3_eqb a b = true -> key3_eqb b c = true -> key3_eqb a c = true.
Proof.
  destruct a as [[a1 a2] a3], b as [[b1 b2] b3], c as [[c1 c2] c3]. simpl.
  rewrite !andb_true_iff, !Qeq_bool_iff.
  intros [[H1 H2] H3] [[H4 H5] H6].
  repeat split; etransitivity; eassumption.
Qed.

Lemma grid_cells_filled (non_rs : list Listing) :
  keys_distinct key3_eqb (grid_cells non_rs)
  /\ (forall e, In e (grid_cells non_rs) ->
        snd e = filter (fun l => key3_eqb (fst e) (cell_key l)) non_rs)
  /\ (forall l, In l non_rs ->
        exists e, In e (grid_cells non_rs)
                  /\ key3_eqb (fst e) (cell_key l) = true).
Proof.
  assert (F := dict_fold_filled key3_eqb key3_eqb_refl key3_eqb_sym
                 key3_eqb_trans cell_key (fun l : Listing => l) [] non_rs []).
  cbn [app] in F. destruct F as (H1 & H2 & H3).
  { split; [exact I|]. split; intros ? []. }
  split; [exact H1|]. split; [|exact H3].
  intros e He. rewrite (H2 e He). apply map_id.
Qed.

Lemma grid_cells_nonempty (non_rs : list Listing) :
  Forall (fun e => snd e <> []) (grid_cells non_rs).
Proof. apply dict_fold_nonempty. constructor. Qed.

(** X3.  The binning loop partitions the surviving listings: the cells have
    pairwise different keys, none is empty, each holds exactly the listings
    whose binning key equals its key, in input order, and every listing is
    in the cell of its key; so the cells together hold every listing
    once. *)
Theorem X3_grid_cells_partition (non_rs : list Listing) :
  let cells := grid_cells non_rs in
  keys_distinct key3_eqb cells
  /\ (forall k lsts, In (k, lsts) cells ->
        lsts <> []
        /\ lsts = filter (fun l => key3_eqb k (cell_key l)) non_rs)
  /\ (forall l, In l non_rs ->
        exists k lsts,
          In (k, lsts) cells /\ key3_eqb k (cell_key l) = true /\ In l lsts)
  /\ Permutation (flat_map snd cells) non_rs.
Proof.
  intros cells. destruct (grid_cells_filled non_rs) as (H1 & H2 & H3).
  split; [exact H1|]. split; [|split; [|apply grid_cells_values]].
  - intros k lsts Hin. split.
    + assert (Hne := grid_cells_nonempty non_rs).
      rewrite Forall_forall in Hne. exact (Hne _ Hin).
    + exact (H2 _ Hin).
  - intros l Hl. destruct (H3 l Hl) as ([k lsts] & Hin & Hk).
    exists k, lsts. split; [exact Hin|]. split; [exact Hk|].
    assert (E := H2 _ Hin). cbn [fst snd] in E.
    rewrite E. apply filter_In. auto.
Qed.

(** ** Counters of the aggregation loop *)

Lemma agg_fold_dropped (value : list Listing -> Z)
    (cells : list (CellKey * list Listing)) (st : AggState) :
  dropped_thin (fold_left (agg_step value) cells st)
  = (dropped_thin st + count (fun c => negb (occupied c)) cells)%nat.
Proof.
  unfold count. revert st;
    induction cells as [|[[[clat clng] gs] lsts] cells IH]; intros st;
    simpl; [lia|].
  rewrite IH. unfold agg_step, occupied. cbn [snd].
  rewrite Nat.ltb_antisym.
  destruct (MIN_CELL_COUNT <=? length lsts)%nat; simpl; lia.
Qed.

Lemma length_flat_map_snd {K A : Type} (d : list (K * list A)) :
  length (flat_map snd d) = list_sum (map (fun e => length (snd e)) d).
Proof.
  induction d as [|[k vs] d IH]; simpl; [reflexivity|].
  now rewrite length_app, IH.
Qed.

Lemma list_sum_cons (x : nat) (l : list nat) :
  list_sum (x :: l) = (x + list_sum l)%nat.
Proof. reflexivity. Qed.

(** Listings in occupied cells plus thin cells, when every thin cell holds
    one listing. *)
Lemma cells_sizes (value : list Listing -> Z)
    (cells : list (CellKey * list Listing)) :
  Forall (fun e => snd e <> []) cells ->
  (list_sum (map hp_count (map (heat_point_of value) (filter occupied cells)))
   + count (fun c => negb (occupied c)) cells
   = list_sum (map (fun e => length (snd e)) cells))%nat.
Proof.
  unfold count. induction 1 as [|cell cells Hne _ IH]; [reflexivity|].
  cbn [filter]. destruct (occupied cell) eqn:Ho;
    cbn [negb map list_sum length].
  - destruct (heat_point_of_fields value cell) as [_ ->].
    rewrite !list_sum_cons. lia.
  - unfold occupied, MIN_CELL_COUNT in Ho. apply Nat.leb_gt in Ho.
    destruct (snd cell) as [|x [|y r]]; [contradiction| |simpl in Ho; lia].
    rewrite list_sum_cons. cbn [length]. lia.
Qed.

(** X4.  In the aggregation loop of either script every cell is either
    counted in [dropped_thin] or becomes one heat point, and a dropped cell
    holds exactly one listing: the counts of the heat points and
    [dropped_thin] add up to the number of listings that entered the
    grid. *)
Theorem X4_aggregation_accounting (non_rs : list Listing) :
  forall value,
    let st := aggregate value (grid_cells non_rs) in
    (length (heat_points_acc st) + dropped_thin st
     = length (grid_cells non_rs))%nat
    /\ (list_sum (map hp_count (heat_points_acc st)) + dropped_thin st
        = length non_rs)%nat
    /\ dropped_thin st
       = count (fun c => (length (snd c) =? 1)%nat) (grid_cells non_rs).
Proof.
  intros value st. unfold st.
  assert (Ed : dropped_thin (aggregate value (grid_cells non_rs))
               = count (fun c => negb (occupied c)) (grid_cells non_rs))
    by (unfold aggregate; now rewrite agg_fold_dropped).
  rewrite Ed, aggregate_map.
  assert (Hne := grid_cells_nonempty non_rs).
  split; [|split].
  - rewrite length_map. unfold count.
    apply filter_partition_length.
  - rewrite (cells_sizes value _ Hne), <- length_flat_map_snd.
    apply Permutation_length, grid_cells_values.
  - unfold count. f_equal. apply filter_ext_in. intros c Hc.
    rewrite Forall_forall in Hne. specialize (Hne c Hc).
    unfold occupied, MIN_CELL_COUNT.
    destruct (snd c) as [|x [|y r]]; [contradiction|reflexivity|reflexivity].
Qed.

(** ** Quantisation *)

Lemma py_round_comp (x y : Q) : (x == y)%Q -> py_round x = py_round y.
Proof.
  intros E. unfold py_round. cbv zeta. rewrite (Qfloor_comp x y E).
  assert (Ed : (x - inject_Z (Qfloor y) == y - inject_Z (Qfloor y))%Q)
    by now rewrite E.
  now rewrite (Qcompare_comp _ _ Ed (1 # 2) (1 # 2) (Qeq_refl _)).
Qed.

Lemma py_round_inject_Z (z : Z) : py_round (inject_Z z) = z.
Proof.
  assert (H : (inject_Z z <= inject_Z z <= inject_Z z)%Q)
    by (split; apply Qle_refl).
  apply py_round_bounds in H. lia.
Qed.

(** [round] moves a number by at most one half. *)
Lemma py_round_half (x : Q) :
  (inject_Z (py_round x) - (1 # 2) <= x <= inject_Z (py_round x) + (1 # 2))%Q.
Proof.
  unfold py_round. cbv zeta.
  assert (Hf := Qfloor_le x). assert (Hf' := Qlt_floor x).
  rewrite inject_Z_plus in Hf'. change (inject_Z 1) with 1%Q in Hf'.
  set (f := Qfloor x) in *.
  destruct (Qcompare_spec (x - inject_Z f) (1 # 2)) as [He|Hl|Hg].
  - destruct (Z.even f); [|rewrite inject_Z_plus; change (inject_Z 1) with 1%Q];
      split; Lqa.lra.
  - split; Lqa.lra.
  - rewrite inject_Z_plus. change (inject_Z 1) with 1%Q. split; Lqa.lra.
Qed.

(** Rounding at [n] decimals leaves a number with at most [n] decimals as
    it is. *)
Lemma py_round_nd_exact (z : Z) (n : nat) (x : Q) :
  (x * inject_Z (10 ^ Z.of_nat n) == inject_Z z)%Q ->
  (py_round_nd x n == x)%Q.
Proof.
  intros E. unfold py_round_nd. cbv zeta.
  rewrite (py_round_comp _ _ E), py_round_inject_Z, <- E.
  assert (Hs : ~ (inject_Z (10 ^ Z.of_nat n) == 0)%Q).
  { intros H0.
    assert (H1 := proj1 (inject_Z_injective (10 ^ Z.of_nat n) 0) H0).
    assert (H : 0 < 10 ^ Z.of_nat n) by (apply Z.pow_pos_nonneg; lia).
    rewrite H1 in H. discriminate H. }
  now field.
Qed.

Lemma py_round_nd_comp (x y : Q) (n : nat) :
  (x == y)%Q -> (py_round_nd x n == py_round_nd y n)%Q.
Proof.
  intros E. unfold py_round_nd. cbv zeta.
  assert (Es : (x * inject_Z (10 ^ Z.of_nat n)
                == y * inject_Z (10 ^ Z.of_nat n))%Q) by now rewrite E.
  now rewrite (py_round_comp _ _ Es).
Qed.

Lemma Qdiv_002 (x : Q) : (x / 0.002 == x * 500)%Q.
Proof. field. Qed.

Lemma Qdiv_003 (x : Q) : (x / 0.003 == x * (1000 # 3))%Q.
Proof. field. Qed.

(** [get_grid_size] answers 0.002 inside the dense area and 0.003
    everywhere else. *)
Lemma get_grid_size_cases (lat lng : Q) :
  (get_grid_size lat lng = 0.002%Q /\ in_dense_area lat lng)
  \/ (get_grid_size lat lng = 0.003%Q /\ ~ in_dense_area lat lng).
Proof.
  unfold get_grid_size, in_dense_area.
  destruct (Qltb lat 40.786) eqn:E1; [|right].
  - destruct (Qltb (-74.02) lng) eqn:E2; [|right].
    + destruct (Qltb lng (-73.93)) eqn:E3; [left|right].
      * apply Qltb_lt in E1, E2, E3. auto.
      * cbn [andb]. rewrite andb_false_r.
        split; [reflexivity|]. apply Qltb_ge in E3.
        intros (_ & _ & H). Lqa.lra.
    + cbn [andb]. apply Qltb_ge in E2.
      destruct (_ && _ && _ && _) eqn:E.
      * rewrite !andb_true_iff, !Qltb_lt in E. exfalso. Lqa.lra.
      * split; [reflexivity|]. intros (_ & H & _). Lqa.lra.
  - cbn [andb]. apply Qltb_ge in E1.
    destruct (_ && _ && _ && _) eqn:E.
    + rewrite !andb_true_iff, !Qltb_lt in E. exfalso. Lqa.lra.
    + split; [reflexivity|]. intros (H & _). Lqa.lra.
Qed.

(** A grid line of either cell size has at most three decimals, so the
    two roundings of the script keep it. *)
Lemma round_grid_line (k : Z) (gs : Q) (n : nat) :
  gs = 0.002%Q \/ gs = 0.003%Q -> n = 4%nat \/ n = 6%nat ->
  (py_round_nd (inject_Z k * gs) n == inject_Z k * gs)%Q.
Proof.
  intros [-> | ->] [-> | ->].
  - apply (py_round_nd_exact (k * 20)). rewrite inject_Z_mult.
    change (inject_Z (10 ^ Z.of_nat 4)) with 10000%Q.
    change (inject_Z 20) with 20%Q. ring.
  - apply (py_round_nd_exact (k * 2000)). rewrite inject_Z_mult.
    change (inject_Z (10 ^ Z.of_nat 6)) with 1000000%Q.
    change (inject_Z 2000) with 2000%Q. ring.
  - apply (py_round_nd_exact (k * 30)). rewrite inject_Z_mult.
    change (inject_Z (10 ^ Z.of_nat 4)) with 10000%Q.
    change (inject_Z 30) with 30%Q. ring.
  - apply (py_round_nd_exact (k * 3000)). rewrite inject_Z_mult.
    change (inject_Z (10 ^ Z.of_nat 6)) with 1000000%Q.
    change (inject_Z 3000) with 3000%Q. ring.
Qed.

(** The key of a listing: the nearest grid lines and the cell size. *)
Lemma cell_key_lines (l : Listing) :
  let gs := get_grid_size (lat_of l) (lng_of l) in
  exists a b,
    cell_key l = (a, b, gs)
    /\ (a == inject_Z (grid_index (lat_of l) gs) * gs)%Q
    /\ (b == inject_Z (grid_index (lng_of l) gs) * gs)%Q.
Proof.
  intros gs. unfold cell_key. cbv zeta. fold gs. do 2 eexists.
  split; [reflexivity|].
  assert (Hgs : gs = 0.002%Q \/ gs = 0.003%Q).
  { unfold gs. destruct (get_grid_size_cases (lat_of l) (lng_of l))
      as [[-> _]|[-> _]]; auto. }
  split; apply round_grid_line; auto.
Qed.

(** The coordinates of the heat point of a cell, seen from one of the
    listings of the cell. *)
Lemma heat_point_lines (non_rs : list Listing) (value : list Listing -> Z)
    (cell : CellKey * list Listing) (l : Listing) :
  In cell (grid_cells non_rs) -> In l (snd cell) ->
  let gs := get_grid_size (lat_of l) (lng_of l) in
  let hp := heat_point_of value cell in
  (hp_lat hp == inject_Z (grid_index (lat_of l) gs) * gs)%Q
  /\ (hp_lng hp == inject_Z (grid_index (lng_of l) gs) * gs)%Q
  /\ snd (fst cell) == gs.
Proof.
  intros Hc Hl gs hp.
  destruct (grid_cells_filled non_rs) as (_ & H2 & _).
  rewrite (H2 cell Hc) in Hl. apply filter_In in Hl as [_ Hk].
  destruct (cell_key_lines l) as (a & b & Ek & Ea & Eb). fold gs in Ek, Ea, Eb.
  rewrite Ek in Hk. destruct cell as [[[clat clng] g] lsts].
  cbn [fst snd key3_eqb] in Hk.
  rewrite !andb_true_iff, !Qeq_bool_iff in Hk. destruct Hk as [[H1 H3] H4].
  assert (Hgs : gs = 0.002%Q \/ gs = 0.003%Q).
  { unfold gs. destruct (get_grid_size_cases (lat_of l) (lng_of l))
      as [[-> _]|[-> _]]; auto. }
  unfold hp, heat_point_of. cbn [hp_lat hp_lng fst snd].
  repeat split.
  - rewrite (py_round_nd_comp _ _ 4 H1), (py_round_nd_comp _ _ 4 Ea).
    apply round_grid_line; auto.
  - rewrite (py_round_nd_comp _ _ 4 H3), (py_round_nd_comp _ _ 4 Eb).
    apply round_grid_line; auto.
  - exact H4.
Qed.

Lemma grid_cells_with_filled (round_div : Q -> Q -> Z)
    (non_rs : list Listing) :
  forall e, In e (grid_cells_with round_div non_rs) ->
    snd e = filter (fun l => key3_eqb (fst e) (cell_key_with round_div l))
                   non_rs.
Proof.
  assert (F := dict_fold_filled key3_eqb key3_eqb_refl key3_eqb_sym
                 key3_eqb_trans (cell_key_with round_div)
                 (fun l : Listing => l) [] non_rs []).
  cbn [app] in F. destruct F as (_ & H2 & _).
  { split; [exact I|]. split; intros ? []. }
  intros e He. rewrite (H2 e He). apply map_id.
Qed.

(** With the exact quotient the binning is the binning of the pipelines. *)
Lemma grid_cells_with_exact (non_rs : list Listing) :
  grid_cells_with (fun x gs => py_round (x / gs)) non_rs = grid_cells non_rs.
Proof. reflexivity. Qed.

(** A number whose quotient by the cell size is within one half of an
    integer is within half a cell of that grid line. *)
Lemma grid_line_within (x gs : Q) (k : Z) :
  gs = 0.002%Q \/ gs = 0.003%Q ->
  (inject_Z k - (1 # 2) <= x / gs <= inject_Z k + (1 # 2))%Q ->
  (inject_Z k * gs - gs / 2 <= x <= inject_Z k * gs + gs / 2)%Q
  /\ (inject_Z k * gs - 0.0015 <= x <= inject_Z k * gs + 0.0015)%Q.
Proof.
  intros [-> | ->] H.
  - rewrite Qdiv_002 in H.
    assert (E : (0.002 / 2 == 0.001)%Q) by reflexivity. rewrite E.
    split; split; Lqa.lra.
  - rewrite Qdiv_003 in H.
    assert (E : (0.003 / 2 == 0.0015)%Q) by reflexivity. rewrite E.
    split; split; Lqa.lra.
Qed.

(** X5.  Whatever [round(x / gs)] gives for each coordinate: the heat point
    of a cell lies exactly on the grid lines of the indices the script
    computed for any listing of the cell, latitude and longitude being
    index times cell size, which the roundings to 6 and to 4 decimals leave
    as they are.  A listing whose quotient is within one half of its index,
    as rounding makes it up to the error of the float division, is at most
    half a cell size, hence at most 0.0015 degrees, away from the heat
    point.  The heat points are those of the cells with at least
    [MIN_CELL_COUNT] listings, in the order the cells were created. *)
Theorem X5_heat_point_on_grid_lines (round_div : Q -> Q -> Z)
    (non_rs : list Listing) (value : list Listing -> Z) :
  let cells := grid_cells_with round_div non_rs in
  Forall
    (fun cell =>
       Forall
         (fun l =>
            let gs := get_grid_size (lat_of l) (lng_of l) in
            let hp := heat_point_of value cell in
            let i := round_div (lat_of l) gs in
            let j := round_div (lng_of l) gs in
            (hp_lat hp == inject_Z i * gs)%Q
            /\ (hp_lng hp == inject_Z j * gs)%Q
            /\ ((inject_Z i - (1 # 2) <= lat_of l / gs
                 <= inject_Z i + (1 # 2))%Q ->
                (hp_lat hp - gs / 2 <= lat_of l <= hp_lat hp + gs / 2)%Q
                /\ (hp_lat hp - 0.0015 <= lat_of l
                    <= hp_lat hp + 0.0015)%Q)
            /\ ((inject_Z j - (1 # 2) <= lng_of l / gs
                 <= inject_Z j + (1 # 2))%Q ->
                (hp_lng hp - gs / 2 <= lng_of l <= hp_lng hp + gs / 2)%Q
                /\ (hp_lng hp - 0.0015 <= lng_of l
                    <= hp_lng hp + 0.0015)%Q))
         (snd cell))
    cells
  /\ heat_points_acc (aggregate value cells)
     = map (heat_point_of value) (filter occupied cells).
Proof.
  intros cells. split; [|apply aggregate_map].
  apply Forall_forall. intros cell Hc. apply Forall_forall. intros l Hl.
  cbv zeta.
  set (gs := get_grid_size (lat_of l) (lng_of l)).
  assert (Hgs : gs = 0.002%Q \/ gs = 0.003%Q).
  { unfold gs. destruct (get_grid_size_cases (lat_of l) (lng_of l))
      as [[-> _]|[-> _]]; auto. }
  rewrite (grid_cells_with_filled round_div non_rs cell Hc) in Hl.
  apply filter_In in Hl as [_ Hk].
  unfold cell_key_with in Hk. cbv zeta in Hk. fold gs in Hk.
  destruct cell as [[[clat clng] g] lsts].
  cbn [fst snd key3_eqb] in Hk.
  rewrite !andb_true_iff, !Qeq_bool_iff in Hk. destruct Hk as [[H1 H3] _].
  assert (E1 : (hp_lat (heat_point_of value (clat, clng, g, lsts))
                == inject_Z (round_div (lat_of l) gs) * gs)%Q).
  { unfold heat_point_of. cbn [hp_lat].
    rewrite (py_round_nd_comp _ _ 4 H1).
    rewrite (py_round_nd_comp _ _ 4 (round_grid_line _ gs 6 Hgs
                                       (or_intror eq_refl))).
    apply round_grid_line; auto. }
  assert (E2 : (hp_lng (heat_point_of value (clat, clng, g, lsts))
                == inject_Z (round_div (lng_of l) gs) * gs)%Q).
  { unfold heat_point_of. cbn [hp_lng].
    rewrite (py_round_nd_comp _ _ 4 H3).
    rewrite (py_round_nd_comp _ _ 4 (round_grid_line _ gs 6 Hgs
                                       (or_intror eq_refl))).
    apply round_grid_line; auto. }
  split; [exact E1|]. split; [exact E2|]. split; intros Hq.
  - rewrite E1. now apply grid_line_within.
  - rewrite E2. now apply grid_line_within.
Qed.

(** ** Heat points never coincide *)

(** A grid line of the 0.002 grid seen from the dense area and a grid line
    of the 0.003 grid seen from outside it are different lines, in latitude
    or in longitude. *)
Lemma lines_differ (lat1 lng1 lat2 lng2 : Q) :
  in_dense_area lat1 lng1 -> ~ in_dense_area lat2 lng2 ->
  ~ ((inject_Z (grid_index lat1 0.002) * 0.002
      == inject_Z (grid_index lat2 0.003) * 0.003)%Q
     /\ (inject_Z (grid_index lng1 0.002) * 0.002
         == inject_Z (grid_index lng2 0.003) * 0.003)%Q).
Proof.
  intros (D1 & D2 & D3) Hout [Elat Elng]. unfold grid_index in *.
  assert (A1 := py_round_half (lat1 / 0.002)).
  assert (A2 := py_round_half (lat2 / 0.003)).
  assert (B1 := py_round_half (lng1 / 0.002)).
  assert (B2 := py_round_half (lng2 / 0.003)).
  rewrite Qdiv_002 in A1 at 2 3. rewrite Qdiv_003 in A2 at 2 3.
  rewrite Qdiv_002 in B1 at 2 3. rewrite Qdiv_003 in B2 at 2 3.
  set (k1 := py_round (lat1 / 0.002)) in *.
  set (k2 := py_round (lat2 / 0.003)) in *.
  set (m1 := py_round (lng1 / 0.002)) in *.
  set (m2 := py_round (lng2 / 0.003)) in *.
  assert (Ek : 2 * k1 = 3 * k2).
  { apply inject_Z_injective. rewrite !inject_Z_mult.
    change (inject_Z 2) with 2%Q. change (inject_Z 3) with 3%Q. Lqa.lra. }
  assert (Em : 2 * m1 = 3 * m2).
  { apply inject_Z_injective. rewrite !inject_Z_mult.
    change (inject_Z 2) with 2%Q. change (inject_Z 3) with 3%Q. Lqa.lra. }
  assert (K1 : k1 < 20394).
  { rewrite Zlt_Qlt. change (inject_Z 20394) with 20394%Q. Lqa.lra. }
  assert (M1 : -37011 < m1).
  { rewrite Zlt_Qlt. change (inject_Z (-37011)) with (-37011)%Q. Lqa.lra. }
  assert (M1' : m1 < -36964).
  { rewrite Zlt_Qlt. change (inject_Z (-36964)) with (-36964)%Q. Lqa.lra. }
  destruct (Qlt_le_dec lat2 40.786) as [L|L].
  - destruct (Qlt_le_dec (-74.02) lng2) as [G|G].
    + destruct (Qlt_le_dec lng2 (-73.93)) as [G'|G'].
      * apply Hout. unfold in_dense_area. auto.
      * assert (M2 : -24644 < m2).
        { rewrite Zlt_Qlt. change (inject_Z (-24644)) with (-24644)%Q.
          Lqa.lra. }
        lia.
    + assert (M2 : m2 < -24672).
      { rewrite Zlt_Qlt. change (inject_Z (-24672)) with (-24672)%Q.
        Lqa.lra. }
      lia.
  - assert (K2 : 13594 < k2).
    { rewrite Zlt_Qlt. change (inject_Z 13594) with 13594%Q. Lqa.lra. }
    lia.
Qed.

Lemma Qsquares_zero (a b : Q) :
  (a * a + b * b <= 0)%Q -> (a == 0 /\ b == 0)%Q.
Proof.
  intros H. assert (Ha := Qsquare_nonneg a). assert (Hb := Qsquare_nonneg b).
  assert (Ea : (a * a == 0)%Q) by Lqa.lra.
  assert (Eb : (b * b == 0)%Q) by Lqa.lra.
  split.
  - destruct (Qmult_integral _ _ Ea); assumption.
  - destruct (Qmult_integral _ _ Eb); assumption.
Qed.

Lemma apart_false (hp other : HeatPoint) :
  apart hp other = false ->
  (hp_lat hp == hp_lat other /\ hp_lng hp == hp_lng other)%Q.
Proof.
  unfold apart, dist2. cbv zeta. rewrite Qltb_ge. intros H.
  apply Qsquares_zero in H as [H1 H2]. split; Lqa.lra.
Qed.

Lemma apart_sym (hp other : HeatPoint) : apart hp other = apart other hp.
Proof.
  unfold apart. assert (E : (dist2 hp other == dist2 other hp)%Q)
    by (unfold dist2; cbv zeta; ring).
  unfold Qltb. now rewrite E.
Qed.

(** Two cells with different keys give heat points at different places. *)
Lemma cells_apart (non_rs : list Listing) (value : list Listing -> Z)
    (c1 c2 : CellKey * list Listing) :
  In c1 (grid_cells non_rs) -> In c2 (grid_cells non_rs) ->
  key3_eqb (fst c1) (fst c2) = false ->
  apart (heat_point_of value c1) (heat_point_of value c2) = true.
Proof.
  intros H1 H2 Hk.
  destruct (apart (heat_point_of value c1) (heat_point_of value c2)) eqn:E;
    [reflexivity|exfalso].
  apply apart_false in E as [Elat Elng].
  assert (Hne := grid_cells_nonempty non_rs). rewrite Forall_forall in Hne.
  assert (N1 := Hne _ H1). assert (N2 := Hne _ H2).
  destruct (snd c1) as [|l1 r1] eqn:S1; [contradiction|].
  destruct (snd c2) as [|l2 r2] eqn:S2; [contradiction|].
  assert (I1 : In l1 (snd c1)) by (rewrite S1; now left).
  assert (I2 : In l2 (snd c2)) by (rewrite S2; now left).
  destruct (heat_point_lines non_rs value c1 l1 H1 I1) as (A1 & B1 & G1).
  destruct (heat_point_lines non_rs value c2 l2 H2 I2) as (A2 & B2 & G2).
  destruct (grid_cells_filled non_rs) as (_ & F & _).
  assert (K1 := F c1 H1). rewrite K1 in I1. apply filter_In in I1 as [_ K1'].
  assert (K2 := F c2 H2). rewrite K2 in I2. apply filter_In in I2 as [_ K2'].
  destruct (cell_key_lines l1) as (a1 & b1 & Ek1 & Ea1 & Eb1).
  destruct (cell_key_lines l2) as (a2 & b2 & Ek2 & Ea2 & Eb2).
  rewrite Ek1 in K1'. rewrite Ek2 in K2'.
  destruct c1 as [[[x1 y1] g1] ls1], c2 as [[[x2 y2] g2] ls2].
  cbn [fst snd key3_eqb] in *.
  rewrite !andb_true_iff, !Qeq_bool_iff in K1', K2'.
  destruct K1' as [[X1 Y1] _], K2' as [[X2 Y2] _].
  rewrite Elat in A1. rewrite Elng in B1.
  destruct (get_grid_size_cases (lat_of l1) (lng_of l1)) as [[S D]|[S D]];
    destruct (get_grid_size_cases (lat_of l2) (lng_of l2)) as [[S' D']|[S' D']];
    rewrite S in *; rewrite S' in *.
  - rewrite <- not_true_iff_false in Hk. apply Hk.
    rewrite !andb_true_iff, !Qeq_bool_iff. repeat split.
    + now rewrite X1, Ea1, <- A1, A2, <- Ea2, <- X2.
    + now rewrite Y1, Eb1, <- B1, B2, <- Eb2, <- Y2.
    + now rewrite G1, G2.
  - apply (lines_differ _ _ _ _ D D'). split.
    + now rewrite <- A1, A2.
    + now rewrite <- B1, B2.
  - apply (lines_differ _ _ _ _ D' D). split.
    + now rewrite <- A2, A1.
    + now rewrite <- B2, B1.
  - rewrite <- not_true_iff_false in Hk. apply Hk.
    rewrite !andb_true_iff, !Qeq_bool_iff. repeat split.
    + now rewrite X1, Ea1, <- A1, A2, <- Ea2, <- X2.
    + now rewrite Y1, Eb1, <- B1, B2, <- Eb2, <- Y2.
    + now rewrite G1, G2.
Qed.

Lemma distinct_cells_pairs {A : Type} (R : A -> A -> Prop)
    (f : CellKey * list Listing -> A) (g : CellKey * list Listing -> bool)
    (all cells : list (CellKey * list Listing)) :
  incl cells all ->
  (forall c1 c2, In c1 all -> In c2 all ->
                 key3_eqb (fst c1) (fst c2) = false -> R (f c1) (f c2)) ->
  keys_distinct key3_eqb cells ->
  ForallOrdPairs R (map f (filter g cells)).
Proof.
  intros Hincl HR. induction cells as [|[k v] cells IH]; intros Hd.
  - constructor.
  - destruct Hd as [Hk Hd]. cbn [filter].
    assert (Hi : incl cells all) by (intros x Hx; apply Hincl; now right).
    destruct (g (k, v)); [|now apply IH].
    cbn [map]. constructor; [|now apply IH].
    apply Forall_forall. intros y Hy.
    apply in_map_iff in Hy as (c & <- & Hc). apply filter_In in Hc as [Hc _].
    apply HR; [apply Hincl; now left|now apply Hi|].
    exact (Hk c Hc).
Qed.

(** X6.  No two heat points of a run have the same coordinates: cells with
    different keys lie on different grid lines, also when one belongs to
    the 0.002 grid of the dense area and the other to the 0.003 grid.  So
    the test [dist > 0] of the smoothing pass never excludes another
    point. *)
Theorem X6_heat_points_apart (non_rs : list Listing)
    (value : list Listing -> Z) :
  ForallOrdPairs
    (fun hp other => apart hp other = true /\ apart other hp = true)
    (heat_points_acc (aggregate value (grid_cells non_rs))).
Proof.
  rewrite aggregate_map.
  apply (distinct_cells_pairs _ _ _ (grid_cells non_rs)).
  - apply incl_refl.
  - intros c1 c2 H1 H2 Hk.
    assert (H := cells_apart non_rs value c1 c2 H1 H2 Hk).
    split; [exact H|]. now rewrite apart_sym.
  - apply grid_cells_filled.
Qed.

(** ** Smoothing: what it leaves alone *)

(** Points that meet the condition under which a pass keeps them are all
    kept. *)
Lemma Forall2_keeps_all {A B : Type} (P : A -> Prop) (g : A -> B)
    (l : list A) (l' : list B) :
  Forall2 (fun x y => P x -> y = g x) l l' ->
  (forall x, In x l -> P x) -> l' = map g l.
Proof.
  induction 1 as [|x y l l' Hxy _ IH]; intros HP; simpl; [reflexivity|].
  rewrite (Hxy (HP x (or_introl eq_refl))). f_equal.
  apply IH. intros z Hz. apply HP. now right.
Qed.

(** X7.  Whatever the test [dist < SMOOTH_RADIUS and dist > 0] decides for
    each pair of points, as long as the float [dist] is positive where it
    holds: for both kernels the smoothing pass returns a point unchanged
    when the test selects no other point for it, and more generally when
    every point it selects has the rent of the point.  Isolated points and
    flat areas are fixed by the pass. *)
Theorem X7_smoothing_keeps_flat (near : HeatPoint -> HeatPoint -> bool)
    (fdist : HeatPoint -> HeatPoint -> R) (pts : list HeatPoint) :
  (forall hp other, near hp other = true -> (0 < fdist hp other)%R) ->
  let keeps (ihp : nat * HeatPoint) (sm : HeatPoint) :=
    (forall r, In r (neighbor_rents near pts (fst ihp) (snd ihp)) ->
               r = hp_rent (snd ihp)) ->
    sm = snd ihp in
  Forall2 keeps (enumerate pts) (smooth_with near (weight_iso_with fdist) pts)
  /\ Forall2 keeps (enumerate pts)
             (smooth_with near (weight_aniso_with fdist) pts).
Proof.
  intros Hd keeps.
  assert (G : forall weight,
             (forall hp other,
                 near hp other = true -> (0 < weight hp other)%R) ->
             Forall2 keeps (enumerate pts) (smooth_with near weight pts)).
  { intros weight Hw. unfold smooth_with. apply Forall2_map_self.
    intros [i hp] _. unfold keeps. cbn [fst snd]. intros Hflat.
    destruct (smoothed_rent_with_bounds near weight Hw i hp (hp_rent hp)
                (hp_rent hp) pts) as [_ Hr].
    - lia.
    - intros r Hin. rewrite (Hflat r Hin). lia.
    - destruct hp as [lat lng rent cnt]. cbn [hp_lat hp_lng hp_rent hp_count]
        in *. f_equal. lia. }
  split; apply G; intros hp other H;
    [apply weight_iso_with_pos|apply weight_aniso_with_pos]; now apply Hd.
Qed.

Lemma X7_smoothing_keeps_flat_witness :
  let near := fun hp other =>
                within SMOOTH_RADIUS hp other && apart hp other in
  (forall hp other, near hp other = true -> (0 < dist hp other)%R)
  /\ neighbor_rents near chain_points 0 hp_centre = []
  /\ neighbor_rents near chain_points 2 hp_right1 = [3000]
  /\ smooth_with near (weight_aniso_with dist) chain_points = chain_points.
Proof.
  intros near.
  assert (H : forall hp other, near hp other = true -> (0 < dist hp other)%R).
  { intros hp other Hn. apply andb_prop in Hn as [_ Ha].
    now apply apart_dist. }
  split; [exact H|]. split; [reflexivity|]. split; [reflexivity|].
  destruct (X7_smoothing_keeps_flat near dist chain_points H) as [_ G].
  rewrite (Forall2_keeps_all _ _ _ _ G); [reflexivity|].
  assert (C : forallb
                (fun ihp : nat * HeatPoint =>
                   forallb (fun r => r =? hp_rent (snd ihp))
                           (neighbor_rents near chain_points (fst ihp)
                                           (snd ihp)))
                (enumerate chain_points) = true)
    by (vm_compute; reflexivity).
  rewrite forallb_forall in C. intros ihp Hin r Hr.
  specialize (C ihp Hin). rewrite forallb_forall in C.
  now apply Z.eqb_eq, C.
Defined.

(** ** Counter of the clamping pass *)

Lemma firstn_snoc {A : Type} (l : list A) (k : nat) (x : A) :
  nth_error l k = Some x -> firstn (S k) l = firstn k l ++ [x].
Proof.
  revert k; induction l as [|y l IH]; intros [|k] H; simpl in *;
    try discriminate.
  - now injection H as ->.
  - now rewrite (IH k H).
Qed.

Lemma count_app {A : Type} (f : A -> bool) (l l' : list A) :
  count f (l ++ l') = (count f l + count f l')%nat.
Proof. unfold count. now rewrite filter_app, length_app. Qed.

Lemma nth_error_enumerate {A : Type} (l : list A) (i : nat) :
  nth_error (enumerate l) i = option_map (pair i) (nth_error l i).
Proof. unfold enumerate. now rewrite nth_error_combine_seq. Qed.

Lemma state_before_nth (pts : list HeatPoint) (i : nat) :
  (i <= length pts)%nat ->
  nth_error (state_before pts i) i = nth_error pts i.
Proof.
  intros Hi. unfold state_before.
  rewrite nth_error_app2; rewrite length_firstn, clamp_length, Nat.min_l;
    try lia.
  rewrite Nat.sub_diag, nth_error_skipn. now rewrite Nat.add_0_r.
Qed.

(** The counter after the first [k] iterations. *)
Lemma clamped_count_prefix (pts : list HeatPoint) (k : nat) :
  (k <= length pts)%nat ->
  clamped_count (fold_left clamp_iter (seq 0 k) (mkClampState pts 0))
  = count (clamps pts) (firstn k (enumerate pts)).
Proof.
  induction k as [|k IH]; intros Hk; [reflexivity|].
  rewrite seq_S, fold_left_app. cbn [fold_left Nat.add].
  assert (Hs := clamp_state_before pts k (Nat.lt_le_incl _ _ Hk)).
  set (st := fold_left clamp_iter (seq 0 k) (mkClampState pts 0)) in *.
  destruct (nth_error pts k) as [hp|] eqn:E;
    [|apply nth_error_None in E; lia].
  assert (En : nth_error (enumerate pts) k = Some (k, hp))
    by (now rewrite nth_error_enumerate, E).
  rewrite (firstn_snoc _ _ _ En), count_app, <- IH by lia.
  unfold clamp_iter. rewrite Hs, state_before_nth, E by lia.
  unfold count, clamps. cbn [filter fst snd].
  destruct (clamp_target (state_before pts k) k hp); simpl; lia.
Qed.

Lemma clamped_count_clamps (pts : list HeatPoint) :
  clamped_count (clamp_loop pts) = count (clamps pts) (enumerate pts).
Proof.
  unfold clamp_loop. rewrite clamped_count_prefix by lia.
  rewrite <- (enumerate_length pts). now rewrite firstn_all.
Qed.

Lemma combine_map_enumerate {A B : Type} (f : nat * A -> B) (l : list A) :
  combine l (map f (enumerate l))
  = map (fun ix => (snd ix, f ix)) (enumerate l).
Proof.
  rewrite <- (map_snd_enumerate l) at 1.
  induction (enumerate l) as [|x e IH]; simpl; [reflexivity|].
  now rewrite IH.
Qed.

Lemma count_map {A B : Type} (f : B -> bool) (g : A -> B) (l : list A) :
  count f (map g l) = count (fun x => f (g x)) l.
Proof.
  unfold count. induction l as [|x l IH]; simpl; [reflexivity|].
  destruct (f (g x)); simpl; now rewrite IH.
Qed.

Lemma count_ext_in {A : Type} (f g : A -> bool) (l : list A) :
  (forall x, In x l -> f x = g x) -> count f l = count g l.
Proof. intros H. unfold count. now rewrite (filter_ext_in _ _ _ H). Qed.

Lemma count_le {A : Type} (f g : A -> bool) (l : list A) :
  (forall x, In x l -> f x = true -> g x = true) ->
  (count f l <= count g l)%nat.
Proof. apply filter_length_mono. Qed.

(** X8.  On heat points whose rents are not negative, [clamped_count] is
    the number of points whose rent the pass changed, and at most the
    number of points with count below [CLAMP_MAX_N]; every rent after the
    pass is the rent some point had before it, so the pass introduces no
    new value. *)
Theorem X8_clamped_count (pts : list HeatPoint) :
  (forall hp, In hp pts -> 0 <= hp_rent hp) ->
  clamped_count (clamp_loop pts) = changed_rents pts (clamp pts)
  /\ (clamped_count (clamp_loop pts)
      <= count (fun hp => (hp_count hp <? CLAMP_MAX_N)%nat) pts)%nat
  /\ Forall (fun hp' => exists hp, In hp pts /\ hp_rent hp' = hp_rent hp)
            (clamp pts).
Proof.
  intros Hpos. rewrite clamped_count_clamps. split; [|split].
  - unfold changed_rents. rewrite clamp_map, combine_map_enumerate, count_map.
    apply count_ext_in. intros [i hp] Hin. cbn [fst snd].
    unfold clamps, clamp_result. cbn [fst snd].
    destruct (clamp_target (state_before pts i) i hp) as [m|] eqn:E.
    + destruct (clamp_target_rent _ _ _ _ E) as (o & Ho & Eo).
      apply state_before_rents in Ho as (o' & Ho' & Eo').
      apply Hpos in Ho'.
      apply clamp_target_Some in E as (_ & _ & _ & Hex).
      apply exceeds_spec in Hex. cbn [set_rent hp_rent].
      symmetry. apply negb_true_iff, Z.eqb_neq. lia.
    + now rewrite Z.eqb_refl.
  - replace (count (fun hp => (hp_count hp <? CLAMP_MAX_N)%nat) pts)
      with (count (fun ix : nat * HeatPoint =>
                     (hp_count (snd ix) <? CLAMP_MAX_N)%nat)
                  (enumerate pts))
      by (rewrite <- (count_map (fun hp => (hp_count hp <? CLAMP_MAX_N)%nat)
                               snd);
          now rewrite map_snd_enumerate).
    apply count_le. intros [i hp] _. unfold clamps. cbn [fst snd].
    destruct (clamp_target (state_before pts i) i hp) as [m|] eqn:E;
      [|discriminate].
    intros _. apply clamp_target_Some in E as (Hc & _).
    now apply Nat.ltb_lt.
  - apply Forall_forall. intros hp'. apply clamp_rents.
Qed.

Lemma X8_clamped_count_witness :
  (forall hp, In hp chain_points -> 0 <= hp_rent hp)
  /\ clamped_count (clamp_loop chain_points)
     = changed_rents chain_points (clamp chain_points).
Proof.
  assert (H : forall hp, In hp chain_points -> 0 <= hp_rent hp).
  { intros hp [<-|[<-|[<-|[<-|[]]]]]; simpl; lia. }
  split; [exact H|]. apply (X8_clamped_count chain_points H).
Defined.

(** ** The final sort *)

Lemma key_lt_not_same (k x y : HeatPoint) :
  same_key k x = true -> key_lt y x = true -> same_key k y = false.
Proof.
  unfold same_key, key_lt.
  rewrite andb_true_iff, orb_true_iff, andb_true_iff, Z.eqb_eq, Z.ltb_lt,
    Z.eqb_eq, Qeq_bool_iff, Qltb_lt.
  intros [Er El] H. apply andb_false_iff.
  destruct (Z.eq_dec (hp_rent k) (hp_rent y)) as [E|E];
    [right|left; now apply Z.eqb_neq].
  destruct H as [H|[_ H]]; [lia|].
  apply not_true_iff_false. rewrite Qeq_bool_iff. intros E'.
  rewrite <- E', El in H. now apply Qlt_irrefl in H.
Qed.

Lemma insert_hp_same_key (k x : HeatPoint) (l : list HeatPoint) :
  filter (same_key k) (insert_hp x l)
  = (if same_key k x then [x] else []) ++ filter (same_key k) l.
Proof.
  induction l as [|y l IH];
    [cbn [insert_hp filter]; now destruct (same_key k x)|].
  cbn [insert_hp]. destruct (key_lt y x) eqn:E;
    [|cbn [filter]; now destruct (same_key k x)].
  cbn [filter]. rewrite IH.
  destruct (same_key k x) eqn:Ex; [|reflexivity].
  now rewrite (key_lt_not_same k x y Ex E).
Qed.

(** X9.  The final sort permutes the heat points and is stable: points
    with the same rent and the same latitude keep the order in which the
    clamping pass left them. *)
Theorem X9_sort_stable (pts : list HeatPoint) :
  Permutation (sort_heat_points pts) pts
  /\ forall k, filter (same_key k) (sort_heat_points pts)
               = filter (same_key k) pts.
Proof.
  split; [apply sort_heat_points_perm|].
  intros k. induction pts as [|x pts IH]; [reflexivity|].
  cbn [sort_heat_points fold_right].
  fold (sort_heat_points pts). rewrite insert_hp_same_key, IH.
  cbn [filter]. now destruct (same_key k x).
Qed.

(** ** The output of a run *)

Lemma clamp_rent_bounds (pts : list HeatPoint) (lo hi : Z) :
  (forall hp, In hp pts -> lo <= hp_rent hp <= hi) ->
  forall hp', In hp' (clamp pts) -> lo <= hp_rent hp' <= hi.
Proof.
  intros H hp' Hin. apply clamp_rents in Hin as (hp & Hin & ->). now apply H.
Qed.

Lemma pipeline_coords_count (weight : HeatPoint -> HeatPoint -> R)
    (hps : list HeatPoint) :
  Permutation
    (map coords_count (sort_heat_points (clamp (smooth weight hps))))
    (map coords_count hps).
Proof.
  rewrite (Permutation_map coords_count (sort_heat_points_perm _)).
  now rewrite clamp_coords_count, smooth_coords_count.
Qed.

(** X10.  Every heat point either pipeline writes has a rent between 500
    and 25000, the bounds of the listing filter, and the output holds one
    point per cell with at least two listings: its positions and counts are
    those of the aggregation, in another order. *)
Theorem X10_output_points (all_raw : list Listing) :
  Forall (fun hp => 500 <= hp_rent hp <= 25000) (pipeline_baseline all_raw)
  /\ Forall (fun hp => 500 <= hp_rent hp <= 25000) (pipeline_s8 all_raw)
  /\ Permutation
       (map coords_count (pipeline_baseline all_raw))
       (map coords_count
            (heat_points_baseline (non_rs_baseline (cleaned all_raw))))
  /\ Permutation
       (map coords_count (pipeline_s8 all_raw))
       (map coords_count (heat_points_s8 (non_rs_s8 (cleaned all_raw))))
  /\ length (pipeline_baseline all_raw)
     = count occupied (grid_cells (non_rs_baseline (cleaned all_raw)))
  /\ length (pipeline_s8 all_raw)
     = count occupied (grid_cells (non_rs_s8 (cleaned all_raw))).
Proof.
  unfold pipeline_baseline, pipeline_s8.
  split; [|split; [|split; [|split; [|split]]]].
  - apply Forall_forall. intros hp Hin.
    apply (Permutation_in _ (sort_heat_points_perm _)) in Hin.
    revert hp Hin. apply clamp_rent_bounds. intros hp Hin.
    apply (pre_clamp_rent_bounds all_raw). now left.
  - apply Forall_forall. intros hp Hin.
    apply (Permutation_in _ (sort_heat_points_perm _)) in Hin.
    revert hp Hin. apply clamp_rent_bounds. intros hp Hin.
    apply (pre_clamp_rent_bounds all_raw). now right.
  - apply pipeline_coords_count.
  - apply pipeline_coords_count.
  - rewrite <- (length_map coords_count),
      (Permutation_length (pipeline_coords_count _ _)), length_map.
    unfold heat_points_baseline. now rewrite aggregate_map, length_map.
  - rewrite <- (length_map coords_count),
      (Permutation_length (pipeline_coords_count _ _)), length_map.
    unfold heat_points_s8. now rewrite aggregate_map, length_map.
Qed.

(** ** Loading the rented records *)

Lemma strftime_ymd_nonempty (ordinal : Z) :
  strftime_ymd ordinal <> EmptyString.
Proof.
  unfold strftime_ymd. destruct (ord2ymd ordinal) as [[y m] d].
  unfold digits4. discriminate.
Qed.

Lemma leb_empty (s : string) : s <> EmptyString -> String.leb s "" = false.
Proof. destruct s; [contradiction|reflexivity]. Qed.

(** X11.  The S8 script keeps a rented record only if it carries a
    non-empty [rented_date] that is not before the cutoff date in string
    order: a record without the key, or with an empty date, is dropped
    whatever the day of the run; removing such records from the file
    beforehand changes nothing. *)
Theorem X11_rented_recent (env : Env) :
  Forall (fun r => exists d,
              l_rented_date r = Some d /\ d <> EmptyString
              /\ String.leb (CUTOFF_DATE env) d = true)
         (rented_recent env)
  /\ rented_recent env
     = filter (fun r => String.leb (CUTOFF_DATE env) (get_rented_date r))
              (filter (fun r => match l_rented_date r with
                                | Some (String _ _) => true
                                | _ => false
                                end)
                      (rented_raw_v2 env)).
Proof.
  assert (Hc := strftime_ymd_nonempty (now env - 4 * 30)).
  fold (CUTOFF_DATE env) in Hc.
  assert (Hd : forall r,
             String.leb (CUTOFF_DATE env) (get_rented_date r) = true ->
             exists d, l_rented_date r = Some d /\ d <> EmptyString
                       /\ String.leb (CUTOFF_DATE env) d = true).
  { intros r H. unfold get_rented_date in H.
    destruct (l_rented_date r) as [[|c d]|].
    - now rewrite leb_empty in H.
    - exists (String c d). repeat split; [discriminate|exact H].
    - now rewrite leb_empty in H. }
  split.
  - apply Forall_forall. intros r Hr. unfold rented_recent in Hr.
    apply filter_In in Hr as [_ Hr]. now apply Hd.
  - unfold rented_recent. rewrite filter_filter. apply filter_ext_in.
    intros r _. destruct (String.leb _ _) eqn:E.
    + destruct (Hd r E) as (d & -> & Hne & _).
      destruct d; [contradiction|reflexivity].
    + now rewrite andb_false_r.
Qed.

(** ** What the ratio rule cannot flag *)

Lemma median_In_upper (l : list Z) (hi : Z) (m : Q) :
  (forall r, In r l -> r <= hi) -> median l = Some m -> (m <= inject_Z hi)%Q.
Proof.
  intros Hhi. unfold median. rewrite sorted_length.
  destruct (length l) as [|n] eqn:E; [discriminate|].
  assert (Hi : (S n / 2 < length l)%nat)
    by (rewrite E; apply Nat.div_lt; lia).
  assert (Hj : (S n / 2 - 1 < length l)%nat) by lia.
  apply sorted_nth_In, Hhi in Hi. apply sorted_nth_In, Hhi in Hj.
  rewrite Zle_Qle in Hi, Hj.
  set (i := (S n / 2)%nat) in *. clearbody i.
  destruct (Nat.odd (S n)); intros [= <-]; [exact Hi|].
  apply Qle_shift_div_r; [reflexivity|]. Lqa.lra.
Qed.

Lemma spatial_medians_upper (cohort : list Listing) (hi : Z) (k : Q * Q)
    (m : Q) :
  (forall l, In l cohort -> rent_of l <= hi) ->
  In (k, m) (spatial_medians cohort) -> (m <= inject_Z hi)%Q.
Proof.
  intros Hhi H. apply medians_of_In in H as (rents & Hin & _ & Hm).
  apply (median_In_upper rents hi m); [|exact Hm].
  intros r Hr.
  assert (Hf : In r (flat_map snd (spatial_cells cohort)))
    by (apply in_flat_map; exists (k, rents); auto).
  apply (Permutation_in _ (spatial_cells_values cohort)) in Hf.
  apply in_map_iff in Hf as (l & <- & Hl). auto.
Qed.

Lemma exists_max_rent (ls : list Listing) :
  ls <> [] ->
  exists l, In l ls /\ forall l', In l' ls -> rent_of l' <= rent_of l.
Proof.
  induction ls as [|x ls IH]; [contradiction|]. intros _.
  destruct ls as [|y ls].
  - exists x. split; [now left|]. intros l' [<-|[]]. lia.
  - destruct IH as (l & Hl & Hmax); [discriminate|].
    destruct (Z_le_gt_dec (rent_of x) (rent_of l)) as [H|H].
    + exists l. split; [now right|]. intros l' [<-|Hin]; auto.
    + exists x. split; [now left|]. intros l' [<-|Hin]; [lia|].
      specialize (Hmax l' Hin). lia.
Qed.

(** With a threshold of at most 1 the ratio rule does not flag a listing
    whose rent is the highest of the cleaned cohort. *)
Lemma ratio_rule_highest (all_raw : list Listing) (tau : Q) (l : Listing) :
  (tau <= 1)%Q -> In l (cleaned all_raw) ->
  (forall l', In l' (cleaned all_raw) -> rent_of l' <= rent_of l) ->
  ratio_rule tau (spatial_medians (cleaned all_raw)) l = false.
Proof.
  intros Htau Hl Hmax. unfold ratio_rule, get_spatial_median.
  destruct (key2_get _ _) as [sm|] eqn:E; [|reflexivity].
  apply key2_get_In in E as (k' & Hin & _).
  assert (Hlo := cleaned_medians_nonneg all_raw k' sm Hin).
  assert (Hhi := spatial_medians_upper _ (rent_of l) k' sm Hmax Hin).
  apply andb_false_iff. right. apply Qltb_ge.
  apply Qle_trans with (2 := Hhi).
  rewrite <- (Qmult_1_r sm) at 2. rewrite !(Qmult_comm sm).
  now apply Qmult_le_compat_r.
Qed.

Lemma non_rs_s8_nonempty (all_raw : list Listing) :
  cleaned all_raw <> [] -> non_rs_s8 (cleaned all_raw) <> [].
Proof.
  intros Hne. destruct (exists_max_rent _ Hne) as (l & Hl & Hmax).
  assert (Hin : In l (non_rs_s8 (cleaned all_raw))).
  { unfold non_rs_s8, rs_filter_s8. rewrite rs_loop_non_rs.
    apply filter_In. split; [exact Hl|].
    unfold flagged, rs_rule_s8.
    rewrite (ratio_rule_highest all_raw TAU_S8 l); auto. discriminate. }
  intros E. rewrite E in Hin. contradiction.
Qed.

(** X12.  In a cohort of the listing filter the ratio rule, with a
    threshold of at most 1, does not flag a listing whose rent is the
    highest of the cohort: the stored median of its coarse cell is at most
    that rent.  So the S8 filter, whose only rule is the ratio rule at
    0.60, keeps at least one listing of every non-empty cohort. *)
Theorem X12_ratio_rule_keeps_highest (all_raw : list Listing) :
  (forall tau l,
      (tau <= 1)%Q -> In l (cleaned all_raw) ->
      (forall l', In l' (cleaned all_raw) -> rent_of l' <= rent_of l) ->
      ratio_rule tau (spatial_medians (cleaned all_raw)) l = false)
  /\ (cleaned all_raw <> [] -> non_rs_s8 (cleaned all_raw) <> []).
Proof.
  split.
  - intros tau l. apply ratio_rule_highest.
  - apply non_rs_s8_nonempty.
Qed.

(** ** Summary lines *)

Lemma nyc_med_spec (non_rs : list Listing) :
  (nyc_med non_rs = None <-> non_rs = [])
  /\ forall m, nyc_med non_rs = Some m ->
               m = upper_median (map rent_of non_rs)
               /\ exists l, In l non_rs /\ rent_of l = m.
Proof.
  unfold nyc_med. cbv zeta. rewrite sorted_length, length_map.
  assert (Hlt : non_rs <> [] -> (length non_rs / 2 < length non_rs)%nat).
  { intros Hne. apply Nat.div_lt; [|lia].
    destruct non_rs; [contradiction|simpl; lia]. }
  split.
  - rewrite nth_error_None, sorted_length, length_map. split.
    + intros H. destruct non_rs as [|x r]; [reflexivity|exfalso].
      assert (x :: r <> []) by discriminate. apply Hlt in H0. lia.
    + intros ->. reflexivity.
  - intros m H.
    assert (Hne : non_rs <> []).
    { intros ->. discriminate H. }
    assert (Em : m = upper_median (map rent_of non_rs)).
    { unfold upper_median. rewrite length_map.
      apply (nth_error_nth _ _ 0) in H. now rewrite H. }
    split; [exact Em|].
    assert (Hne' : map rent_of non_rs <> [])
      by (destruct non_rs; [contradiction|discriminate]).
    apply upper_median_In in Hne'. rewrite <- Em in Hne'.
    apply in_map_iff in Hne' as (l & E & Hl). eauto.
Qed.

(** X13.  The summary of either script fails exactly when no listing
    survived the rent-stabilisation filter: the baseline indexes an empty
    list, the S8 script divides by its length.  The S8 summary therefore
    fails only on an empty cleaned cohort, while the baseline filter can
    flag every listing of a non-empty one.  When the summary succeeds, the
    overall median is the rent of a surviving listing and the overall mean
    lies between 500 and 25000. *)
Theorem X13_summary_lines (all_raw : list Listing) :
  let nb := non_rs_baseline (cleaned all_raw) in
  let ns := non_rs_s8 (cleaned all_raw) in
  (nyc_med nb = None <-> nb = [])
  /\ (forall m, nyc_med nb = Some m ->
        500 <= m <= 25000 /\ exists l, In l nb /\ rent_of l = m)
  /\ (nyc_mean ns = None <-> cleaned all_raw = [])
  /\ (forall m, nyc_mean ns = Some m -> 500 <= m <= 25000)
  /\ (cleaned odd_cohort <> [] /\ non_rs_baseline (cleaned odd_cohort) = []).
Proof.
  intros nb ns.
  assert (Hb : forall l, In l nb -> 500 <= rent_of l <= 25000).
  { intros l Hl. apply (cleaned_rent_bounds all_raw).
    now apply non_rs_subset in Hl. }
  assert (Hs : forall l, In l ns -> 500 <= rent_of l <= 25000).
  { intros l Hl. apply (cleaned_rent_bounds all_raw).
    now apply non_rs_subset in Hl. }
  destruct (nyc_med_spec nb) as [N1 N2].
  split; [exact N1|]. split; [|split; [|split]].
  - intros m Hm. destruct (N2 m Hm) as (_ & l & Hl & E).
    split; [rewrite <- E; now apply Hb|eauto].
  - unfold nyc_mean. cbv zeta. rewrite length_map.
    destruct (Nat.eqb_spec (length ns) 0) as [E|E].
    + split; [intros _|reflexivity].
      apply length_zero_iff_nil in E.
      destruct (cleaned all_raw) eqn:Ec; [reflexivity|exfalso].
      assert (H := non_rs_s8_nonempty all_raw).
      rewrite Ec in H. apply H; [discriminate|]. exact E.
    + split; [discriminate|]. intros Ec. exfalso. apply E.
      unfold ns. now rewrite Ec.
  - unfold nyc_mean. cbv zeta. rewrite length_map.
    destruct (Nat.eqb_spec (length ns) 0) as [E|E]; [discriminate|].
    intros m [= <-]. apply py_round_bounds, mean_bounds.
    + destruct ns; [contradiction|discriminate].
    + intros r Hr. apply in_map_iff in Hr as (l & <- & Hl). auto.
  - split; [vm_compute; discriminate|reflexivity].
Qed.

(** ** Lookup in the local median index *)

Lemma key2_get_none (k : Q * Q) (d : list ((Q * Q) * Q)) :
  (forall e, In e d -> key2_eqb k (fst e) = false) -> key2_get k d = None.
Proof.
  induction d as [|[k' v] d IH]; intros H; simpl; [reflexivity|].
  assert (E := H (k', v) (or_introl eq_refl)). cbn [fst] in E.
  rewrite E. apply IH.
  intros e He. apply H. now right.
Qed.

Lemma medians_of_keys (cells : list ((Q * Q) * list Z)) (e : (Q * Q) * Q) :
  In e (medians_of cells) -> exists c, In c cells /\ fst c = fst e.
Proof.
  destruct e as [k m]. intros H.
  apply medians_of_In in H as (rents & Hin & _). exists (k, rents). auto.
Qed.

(** Looking a key up finds the one cell with that key, when it has at
    least three rents. *)
Lemma key2_get_medians (cells : list ((Q * Q) * list Z)) (k k' : Q * Q)
    (rents : list Z) :
  keys_distinct key2_eqb cells -> In (k', rents) cells ->
  key2_eqb k k' = true ->
  key2_get k (medians_of cells)
  = if (3 <=? length rents)%nat then median rents else None.
Proof.
  intros Hd Hin Hk. induction cells as [|[k0 r0] cells IH]; [contradiction|].
  destruct Hd as [H0 Hd]. cbn [medians_of].
  destruct Hin as [[= -> ->]|Hin].
  - assert (Hrest : key2_get k (medians_of cells) = None).
    { apply key2_get_none. intros e He.
      apply medians_of_keys in He as (c & Hc & <-).
      destruct (key2_eqb k (fst c)) eqn:E; [|reflexivity].
      rewrite key2_eqb_sym in Hk. assert (Hc0 := H0 c Hc).
      now rewrite (key2_eqb_trans _ _ _ Hk E) in Hc0. }
    destruct (3 <=? length rents)%nat eqn:E3; [|exact Hrest].
    destruct (median rents) as [m|]; [|exact Hrest].
    cbn [key2_get]. now rewrite Hk.
  - assert (Hk0 : key2_eqb k k0 = false).
    { destruct (key2_eqb k k0) eqn:E; [|reflexivity].
      rewrite key2_eqb_sym in E.
      assert (H := H0 (k', rents) Hin). cbn [fst] in H.
      now rewrite (key2_eqb_trans _ _ _ E Hk) in H. }
    destruct (3 <=? length r0)%nat; [destruct (median r0)|];
      cbn [key2_get]; rewrite ?Hk0; now apply IH.
Qed.

(** The lookup of a key in the index built with any key function. *)
Lemma index_lookup (key : Listing -> Q * Q) (cohort : list Listing)
    (k : Q * Q) :
  let cell := filter (fun l => key2_eqb k (key l)) cohort in
  key2_get k
    (medians_of
       (fold_left (fun d l => dict_append key2_eqb (key l) (rent_of l) d)
                  cohort []))
  = if (3 <=? length cell)%nat then median (map rent_of cell) else None.
Proof.
  intros cell.
  set (cells := fold_left
                  (fun d l => dict_append key2_eqb (key l) (rent_of l) d)
                  cohort []).
  assert (F := dict_fold_filled key2_eqb key2_eqb_refl key2_eqb_sym
                 key2_eqb_trans key rent_of [] cohort []).
  cbn [app] in F. destruct F as (Hd & Hv & Hcov).
  { split; [exact I|]. split; intros ? []. }
  fold cells in Hd, Hv, Hcov.
  assert (Hne : Forall (fun e : (Q * Q) * list Z => snd e <> []) cells)
    by (apply dict_fold_nonempty; constructor).
  rewrite Forall_forall in Hne.
  destruct cell as [|l rest] eqn:Ecell.
  - cbn [length Nat.leb]. apply key2_get_none. intros e He.
    apply medians_of_keys in He as (c & Hc & <-).
    destruct (key2_eqb k (fst c)) eqn:E; [exfalso|reflexivity].
    assert (Hc' := Hne c Hc). rewrite (Hv c Hc) in Hc'.
    destruct (filter (fun x => key2_eqb (fst c) (key x)) cohort)
      as [|l ls] eqn:El; [now contradiction Hc'|].
    assert (Hl : In l (l :: ls)) by now left.
    rewrite <- El in Hl. apply filter_In in Hl as [Hl Hk].
    assert (Hin : In l cell).
    { apply filter_In. split; [exact Hl|].
      exact (key2_eqb_trans _ _ _ E Hk). }
    rewrite Ecell in Hin. destruct Hin.
  - rewrite <- Ecell.
    assert (Hl : In l cell) by (rewrite Ecell; now left).
    apply filter_In in Hl as [Hlc Hk].
    destruct (Hcov l Hlc) as ([k' rents] & He & Hk'). cbn [fst] in Hk'.
    assert (Ekk : key2_eqb k k' = true).
    { rewrite key2_eqb_sym in Hk'. exact (key2_eqb_trans _ _ _ Hk Hk'). }
    assert (Er := Hv _ He). cbn [fst snd] in Er.
    assert (Ef : filter (fun x => key2_eqb k' (key x)) cohort = cell).
    { unfold cell. apply filter_ext. intros x.
      destruct (key2_eqb k' (key x)) eqn:E1.
      - symmetry. exact (key2_eqb_trans _ _ _ Ekk E1).
      - destruct (key2_eqb k (key x)) eqn:E2; [|reflexivity].
        assert (Ekk' := Ekk). rewrite key2_eqb_sym in Ekk'.
        now rewrite (key2_eqb_trans _ _ _ Ekk' E2) in E1. }
    rewrite Ef in Er.
    rewrite (key2_get_medians _ _ k' rents Hd He Ekk), Er, length_map.
    reflexivity.
Qed.

(** Two keys of the index are equal exactly when the rounded quotients
    are. *)
Lemma spatial_key_with_eqb (round_div : Q -> Q -> Z) (lat lng lat' lng' : Q) :
  key2_eqb (spatial_key_with round_div lat lng)
           (spatial_key_with round_div lat' lng')
  = (round_div lat SPATIAL_GRID =? round_div lat' SPATIAL_GRID)
    && (round_div lng SPATIAL_GRID =? round_div lng' SPATIAL_GRID).
Proof.
  assert (G : forall a b : Z,
             Qeq_bool (inject_Z a * SPATIAL_GRID) (inject_Z b * SPATIAL_GRID)
             = (a =? b)).
  { intros a b. apply eq_true_iff_eq.
    rewrite Qeq_bool_iff, Z.eqb_eq. unfold SPATIAL_GRID. split.
    - intros H. apply inject_Z_injective. Lqa.lra.
    - now intros ->. }
  unfold key2_eqb, spatial_key_with. cbn [fst snd]. now rewrite !G.
Qed.

(** With the exact quotient the index is the index of the pipelines. *)
Lemma spatial_medians_with_exact (cohort : list Listing) (lat lng : Q) :
  get_spatial_median_with (fun x g => py_round (x / g))
    (spatial_medians_with (fun x g => py_round (x / g)) cohort) lat lng
  = get_spatial_median (spatial_medians cohort) lat lng.
Proof. reflexivity. Qed.

(** X14.  Whatever [round(x / SPATIAL_GRID)] gives for each coordinate: the
    lookup of the local median index returns, for any point, the
    [statistics.median] of the rents of all listings of the cohort whose
    latitude and longitude round to the same two numbers as those of the
    point, when there are at least three such listings, and nothing
    otherwise. *)
Theorem X14_spatial_median_lookup (round_div : Q -> Q -> Z)
    (cohort : list Listing) (lat lng : Q) :
  let same_cell (l : Listing) :=
    (round_div lat SPATIAL_GRID =? round_div (lat_of l) SPATIAL_GRID)
    && (round_div lng SPATIAL_GRID =? round_div (lng_of l) SPATIAL_GRID) in
  let cell := filter same_cell cohort in
  get_spatial_median_with round_div (spatial_medians_with round_div cohort)
                          lat lng
  = if (MIN_SAMPLE <=? length cell)%nat then median (map rent_of cell)
    else None.
Proof.
  intros same_cell cell.
  unfold get_spatial_median_with, spatial_medians_with, spatial_cells_with.
  rewrite (index_lookup
             (fun l => spatial_key_with round_div (lat_of l) (lng_of l))
             cohort (spatial_key_with round_div lat lng)).
  cbv zeta.
  replace (filter _ cohort) with cell; [reflexivity|].
  unfold cell. apply filter_ext. intros l. unfold same_cell.
  now rewrite spatial_key_with_eqb.
Qed.

(** ** Labels *)

Lemma str_get_In {V : Type} (k : string) (d : list (string * V)) (v : V) :
  str_get k d = Some v -> exists k', In (k', v) d.
Proof.
  induction d as [|[k' v'] d IH]; simpl; [discriminate|].
  destruct (String.eqb k k').
  - intros [= <-]. eauto.
  - intros H. destruct (IH H) as (k'' & ?). eauto.
Qed.

Lemma table_values (d : list (string * string)) (labels : list string) :
  forallb (fun kv => in_set (snd kv) labels) d = true ->
  forall k v, str_get k d = Some v -> In v labels.
Proof.
  intros H k v Hv. apply str_get_In in Hv as (k' & Hin).
  rewrite forallb_forall in H. specialize (H _ Hin). cbn [snd] in H.
  unfold in_set in H. apply existsb_exists in H as (x & Hx & E).
  apply String.eqb_eq in E. now subst.
Qed.

Lemma borough_by_coords_label (lat lng : Q) :
  In (borough_by_coords lat lng) ("Unknown"%string :: BOROUGHS).
Proof.
  unfold borough_by_coords.
  repeat match goal with
         | |- context [if ?b then _ else _] => destruct b
         end; simpl; tauto.
Qed.

Lemma region_by_coords_label (lat lng : Q) :
  In (region_by_coords lat lng) REGIONS.
Proof.
  unfold region_by_coords.
  repeat match goal with
         | |- context [if ?b then _ else _] => destruct b
         end; simpl; tauto.
Qed.

Lemma borough_by_coords_unknown (lat lng : Q) :
  borough_by_coords lat lng = "Unknown"%string
  <-> borough_rule_matches lat lng = false.
Proof.
  unfold borough_by_coords, borough_rule_matches.
  destruct (Qltb (-74.03) lng && Qltb lng (-73.90) && Qltb 40.70 lat
            && Qltb lat 40.88 && (Qltb (-73.96) lng || Qltb lat 40.75));
    cbn [orb]; [split; discriminate|].
  destruct (Qltb lat 40.65 && Qltb lng (-74.04));
    cbn [orb]; [split; discriminate|].
  destruct (Qltb 40.80 lat && Qltb (-73.94) lng);
    cbn [orb]; [split; discriminate|].
  destruct (Qltb 40.85 lat); cbn [orb]; [split; discriminate|].
  destruct (Qltb lat 40.74); cbn [orb];
    [destruct (Qltb lng (-73.92)); split; discriminate|].
  destruct (Qltb (-73.92) lng); split; (reflexivity || discriminate).
Qed.

(** X15.  On every cleaned record the baseline classifier returns one of
    the five boroughs or "Unknown", and "Unknown" exactly when the
    neighbourhood has no table entry and no coordinate rule matches; the S8
    classifier returns one of its nine regions and never "Unknown", so the
    list of unknown records that the S8 script builds for its report is
    always empty. *)
Theorem X15_classifier_labels (all_raw : list Listing) :
  Forall
    (fun l =>
       (exists b, get_borough l = Some b /\ In b ("Unknown"%string :: BOROUGHS))
       /\ (get_borough l = Some "Unknown"%string
           <-> str_get (get_neighborhood l) BOROUGH_MAP = None
               /\ borough_rule_matches (lat_of l) (lng_of l) = false)
       /\ (exists r, get_region l = Some r /\ In r REGIONS))
    (cleaned all_raw)
  /\ unknowns_s8 all_raw = []
  /\ unknowns_baseline all_raw
     = filter (fun l =>
                 match str_get (get_neighborhood l) BOROUGH_MAP with
                 | Some _ => false
                 | None => negb (borough_rule_matches (lat_of l) (lng_of l))
                 end)
              (cleaned all_raw).
Proof.
  assert (Tb : forall k v, str_get k BOROUGH_MAP = Some v -> In v BOROUGHS)
    by (apply table_values; vm_compute; reflexivity).
  assert (Tr : forall k v, str_get k REGION_MAP = Some v -> In v REGIONS)
    by (apply table_values; vm_compute; reflexivity).
  assert (Hr : forall l, In l (cleaned all_raw) ->
                         exists r, get_region l = Some r /\ In r REGIONS).
  { intros l Hl.
    destruct (cleaned_fields all_raw l Hl) as (lat & lng & r & E1 & E2 & _).
    unfold get_region. rewrite E1, E2.
    destruct (str_get _ REGION_MAP) as [v|] eqn:E.
    - exists v. split; [reflexivity|]. exact (Tr _ _ E).
    - eexists. split; [reflexivity|]. apply region_by_coords_label. }
  split; [|split].
  - apply Forall_forall. intros l Hl.
    destruct (cleaned_fields all_raw l Hl) as (lat & lng & r & E1 & E2 & _).
    split; [|split; [|now apply Hr]].
    + unfold get_borough. rewrite E1, E2.
      destruct (str_get _ BOROUGH_MAP) as [v|] eqn:E.
      * exists v. split; [reflexivity|]. right. exact (Tb _ _ E).
      * eexists. split; [reflexivity|]. apply borough_by_coords_label.
    + unfold get_borough, lat_of, lng_of. rewrite E1, E2.
      destruct (str_get _ BOROUGH_MAP) as [v|] eqn:E.
      * split; [|intros [H _]; discriminate H].
        intros [= ->]. apply Tb in E. simpl in E.
        repeat (destruct E as [E|E]; [discriminate E|]). contradiction.
      * rewrite <- borough_by_coords_unknown. split.
        -- intros [= H]. auto.
        -- intros [_ ->]. reflexivity.
  - unfold unknowns_s8. apply filter_nil. intros l Hl.
    destruct (Hr l Hl) as (r & -> & Hin). cbn [is_unknown].
    simpl in Hin.
    repeat (destruct Hin as [<-|Hin]; [reflexivity|]). contradiction.
  - unfold unknowns_baseline. apply filter_ext_in. intros l Hl.
    destruct (cleaned_fields all_raw l Hl) as (lat & lng & r & E1 & E2 & _).
    unfold get_borough, lat_of, lng_of. rewrite E1, E2.
    destruct (str_get _ BOROUGH_MAP) as [v|] eqn:E; cbn [is_unknown].
    + apply Tb in E. simpl in E.
      repeat (destruct E as [<-|E]; [reflexivity|]). contradiction.
    + destruct (borough_rule_matches lat lng) eqn:Em; cbn [negb].
      * apply String.eqb_neq. intros H.
        apply borough_by_coords_unknown in H. congruence.
      * apply String.eqb_eq. now apply borough_by_coords_unknown.
Qed.

(** ** The cell size and the neighbourhood mean *)

(** X16.  The second test of [get_grid_size] never decides: the area it
    describes lies inside the area of the first test.  The function returns
    0.002 exactly when latitude is below 40.786 and longitude is between
    -74.02 and -73.93, and 0.003 everywhere else. *)
Theorem X16_grid_size_areas (lat lng : Q) :
  get_grid_size lat lng
  = (if Qltb lat 40.786 && Qltb (-74.02) lng && Qltb lng (-73.93)
     then 0.002%Q else 0.003%Q)
  /\ (Qltb 40.68 lat && Qltb lat 40.73 && Qltb (-73.99) lng
      && Qltb lng (-73.93) = true ->
      Qltb lat 40.786 && Qltb (-74.02) lng && Qltb lng (-73.93) = true).
Proof.
  assert (H : Qltb 40.68 lat && Qltb lat 40.73 && Qltb (-73.99) lng
              && Qltb lng (-73.93) = true ->
              Qltb lat 40.786 && Qltb (-74.02) lng && Qltb lng (-73.93)
              = true).
  { rewrite !andb_true_iff, !Qltb_lt. intros [[[H1 H2] H3] H4].
    repeat split; Lqa.lra. }
  split; [|exact H]. unfold get_grid_size.
  destruct (Qltb lat 40.786 && Qltb (-74.02) lng && Qltb lng (-73.93));
    [reflexivity|].
  destruct (Qltb 40.68 lat && Qltb lat 40.73 && Qltb (-73.99) lng
            && Qltb lng (-73.93)); [|reflexivity].
  discriminate (H eq_refl).
Qed.

Lemma label_eqb_eq (a b : option string) : label_eqb a b = true <-> a = b.
Proof.
  destruct a as [x|], b as [y|]; simpl; try (split; [discriminate|]);
    try discriminate; [|tauto].
  rewrite String.eqb_eq. split; [now intros ->|now intros [= ->]].
Qed.

Lemma label_eqb_refl (a : option string) : label_eqb a a = true.
Proof. now apply label_eqb_eq. Qed.

Lemma label_eqb_sym (a b : option string) : label_eqb a b = label_eqb b a.
Proof.
  apply eq_true_iff_eq. rewrite !label_eqb_eq. split; congruence.
Qed.

Lemma label_eqb_trans (a b c : option string) :
  label_eqb a b = true -> label_eqb b c = true -> label_eqb a c = true.
Proof. rewrite !label_eqb_eq. congruence. Qed.

Lemma by_nhood_filled (lsts : list Listing) :
  keys_distinct label_eqb (by_nhood lsts)
  /\ (forall e, In e (by_nhood lsts) ->
        snd e = map rent_of
                    (filter (fun l => label_eqb (fst e) (get_nhood l)) lsts))
  /\ (forall l, In l lsts ->
        exists e, In e (by_nhood lsts)
                  /\ label_eqb (fst e) (get_nhood l) = true).
Proof.
  assert (F := dict_fold_filled label_eqb label_eqb_refl label_eqb_sym
                 label_eqb_trans get_nhood rent_of [] lsts []).
  cbn [app] in F. apply F.
  split; [exact I|]. split; intros ? [].
Qed.

(** Every group of [by_nhood] holds the rent of a listing with its label. *)
Lemma by_nhood_member (lsts : list Listing) (e : option string * list Z) :
  In e (by_nhood lsts) -> exists l, In l lsts /\ get_nhood l = fst e.
Proof.
  intros He. destruct (by_nhood_filled lsts) as (_ & Hv & _).
  assert (Hne : Forall (fun e : option string * list Z => snd e <> [])
                       (by_nhood lsts))
    by (apply dict_fold_nonempty; constructor).
  rewrite Forall_forall in Hne. specialize (Hne e He).
  rewrite (Hv e He) in Hne.
  destruct (filter (fun l => label_eqb (fst e) (get_nhood l)) lsts)
    as [|l ls] eqn:E; [now contradiction Hne|].
  assert (Hl : In l (l :: ls)) by now left.
  rewrite <- E in Hl. apply filter_In in Hl as [Hl Hk].
  apply label_eqb_eq in Hk. now exists l.
Qed.

(** X17.  In the S8 aggregation the rents of a cell are grouped by
    neighbourhood label, where an absent label counts as "Unknown" and a
    [null] label is a label of its own, different from every string: the
    groups have different labels,
    none is empty, and each holds the rents of exactly the cell's listings
    with its label, in order.  The cell is weighted by neighbourhood (more
    than one group) exactly when two of its listings carry different
    labels; otherwise the only group holds all rents of the cell, in order.
    The rounded rent of the heat point lies between any two integers that
    bound the cell's rents. *)
Theorem X17_nhood_groups (lsts : list Listing) :
  let groups := by_nhood lsts in
  keys_distinct label_eqb groups
  /\ (forall n rents, In (n, rents) groups ->
        rents <> []
        /\ rents = map rent_of
                       (filter (fun l => label_eqb n (get_nhood l)) lsts))
  /\ (forall l, In l lsts ->
        exists rents, In (get_nhood l, rents) groups /\ In (rent_of l) rents)
  /\ ((1 <? length groups)%nat = true
      <-> exists l1 l2,
            In l1 lsts /\ In l2 lsts /\ get_nhood l1 <> get_nhood l2)
  /\ (lsts <> [] -> (1 <? length groups)%nat = false ->
      exists n, groups = [(n, map rent_of lsts)])
  /\ (forall lo hi, lsts <> [] ->
        (forall l, In l lsts -> lo <= rent_of l <= hi) ->
        lo <= py_round (cell_rent lsts) <= hi)
  /\ (forall l1 l2,
        let text (v : option (option string)) :=
          match v with Some (Some n) => n | _ => "Unknown"%string end in
        get_nhood l1 = get_nhood l2
        <-> match l_neighborhood l1, l_neighborhood l2 with
            | Some None, Some None => True
            | Some None, _ | _, Some None => False
            | v1, v2 => text v1 = text v2
            end).
Proof.
  cbv zeta. destruct (by_nhood_filled lsts) as (Hd & He & Hc).
  assert (Hne : Forall (fun e : option string * list Z => snd e <> [])
                       (by_nhood lsts))
    by (apply dict_fold_nonempty; constructor).
  assert (Hcov : forall l, In l lsts ->
            exists rents, In (get_nhood l, rents) (by_nhood lsts)).
  { intros l Hl. destruct (Hc l Hl) as ([n rents] & Hin & E).
    cbn [fst] in E. apply label_eqb_eq in E. subst n. now exists rents. }
  split; [exact Hd|]. split; [|split; [|split; [|split; [|split]]]].
  - intros n rents Hin. split.
    + rewrite Forall_forall in Hne. exact (Hne _ Hin).
    + exact (He _ Hin).
  - intros l Hl. destruct (Hcov l Hl) as (rents & Hin).
    exists rents. split; [exact Hin|].
    assert (Er := He _ Hin). cbn [fst snd] in Er. rewrite Er.
    apply in_map, filter_In. split; [exact Hl|apply label_eqb_refl].
  - rewrite Nat.ltb_lt. split.
    + intros Hlen.
      destruct (by_nhood lsts) as [|e1 [|e2 gs]] eqn:Eg;
        [simpl in Hlen; lia|simpl in Hlen; lia|].
      assert (H1 : In e1 (by_nhood lsts)) by (rewrite Eg; now left).
      assert (H2 : In e2 (by_nhood lsts)) by (rewrite Eg; right; now left).
      destruct (by_nhood_member lsts e1 H1) as (l1 & Hl1 & E1).
      destruct (by_nhood_member lsts e2 H2) as (l2 & Hl2 & E2).
      exists l1, l2. split; [exact Hl1|]. split; [exact Hl2|].
      rewrite E1, E2. intros E.
      destruct e1 as [k1 v1]. destruct Hd as [Hk _].
      specialize (Hk e2 (or_introl eq_refl)). cbn [fst] in E, Hk.
      rewrite E, label_eqb_refl in Hk. discriminate.
    + intros (l1 & l2 & Hl1 & Hl2 & Hneq).
      destruct (Hcov l1 Hl1) as (r1 & H1).
      destruct (Hcov l2 Hl2) as (r2 & H2).
      destruct (by_nhood lsts) as [|e1 [|e2 gs]]; [destruct H1| |simpl; lia].
      destruct H1 as [E1|[]]. destruct H2 as [E2|[]].
      rewrite E1 in E2. injection E2 as E _. now contradiction Hneq.
  - intros Hl E. apply Nat.ltb_ge in E.
    destruct (by_nhood lsts) as [|[n rents] [|g gs]] eqn:Eg.
    + destruct lsts as [|l lsts]; [contradiction|].
      destruct (Hc l (or_introl eq_refl)) as (e & [] & _).
    + exists n. do 2 f_equal.
      assert (Er := He _ (or_introl eq_refl)). cbn [fst snd] in Er.
      rewrite Er. f_equal. apply filter_all.
      intros l Hin. destruct (Hc l Hin) as (e & [<-|[]] & E'). exact E'.
    + simpl in E. lia.
  - intros lo hi Hl Hb. apply py_round_bounds.
    now apply cell_rent_bounds.
  - intros l1 l2. unfold get_nhood.
    destruct (l_neighborhood l1) as [[n1|]|], (l_neighborhood l2) as [[n2|]|];
      split; try congruence; try tauto; try discriminate.
Qed.
